(** * Station bookkeeping of OpenTTD (station.cpp): bounding rectangle,
      catchment, nearby-industry lists and link-graph teardown.

    The development is a shallow embedding of [station.cpp].  Objects that
    live in pools (stations, industries, towns, link graphs) are addressed
    by their pool index, a C++ pointer to a pool item is the index of the
    item, and the pools are finite maps.  Functions that mutate the world
    take the world and return the new one. *)

From stdpp Require Import gmap list sorting.
From Stdlib Require Import ZArith Lia.

Local Open Scope Z_scope.

(** ** Tiles and the map array *)

(** Modelled from the spec: [TileIndex], [TileX], [TileY] and [TileXY]
    (map_func.h is not part of the sources).  A tile is the unit cell of the
    world grid, addressable by its integer coordinates (x, y). *)
Definition TileIndex : Type := (Z * Z)%type.
Definition TileX (t : TileIndex) : Z := fst t.
Definition TileY (t : TileIndex) : Z := snd t.
Definition TileXY (x y : Z) : TileIndex := (x, y).

Definition StationID := N.
Definition IndustryID := N.
Definition TownID := N.
Definition CargoID := nat.

(** The tile classes the station code asks for. *)
Inductive TileType :=
  MP_CLEAR | MP_STATION | MP_HOUSE | MP_INDUSTRY | MP_TUNNELBRIDGE | MP_VOID.

(** The functional type of a station tile. *)
Inductive StationType :=
  | STATION_RAIL | STATION_AIRPORT | STATION_TRUCK | STATION_BUS
  | STATION_OILRIG | STATION_DOCK | STATION_BUOY | STATION_WAYPOINT.

#[global] Instance TileType_eq_dec : EqDecision TileType.
Proof. solve_decision. Defined.
#[global] Instance StationType_eq_dec : EqDecision StationType.
Proof. solve_decision. Defined.

(** Modelled from the spec: the per-tile data read through [IsTileType],
    [GetStationIndex], [GetTownIndex], [GetIndustryIndex] and
    [GetStationType] (the map accessors are not part of the sources): the
    class of the tile, the pool index of the station, town or industry that
    owns it, and for a station tile its functional type. *)
Record Tile := mkTile {
  tile_type : TileType;
  tile_m2 : N;
  tile_station_type : StationType
}.

Definition TileMap : Type := TileIndex -> Tile.

Definition IsTileType (m : TileMap) (t : TileIndex) (ty : TileType) : bool :=
  bool_decide (tile_type (m t) = ty).
Definition GetStationIndex (m : TileMap) (t : TileIndex) : StationID := tile_m2 (m t).
Definition GetTownIndex (m : TileMap) (t : TileIndex) : TownID := tile_m2 (m t).
Definition GetIndustryIndex (m : TileMap) (t : TileIndex) : IndustryID := tile_m2 (m t).
Definition GetStationType (m : TileMap) (t : TileIndex) : StationType :=
  tile_station_type (m t).

(** Writing one tile of the map array. *)
Definition SetTileContent (m : TileMap) (t : TileIndex) (c : Tile) : TileMap :=
  fun t' => if decide (t' = t) then c else m t'.

(** Modelled from the spec: [TileArea] (tilearea_type.h is not part of the
    sources): an axis-aligned block of tiles given by its northern corner
    and its width and height; iterating it visits the block row by row. *)
Record TileArea := mkTileArea { ta_tile : TileIndex; ta_w : Z; ta_h : Z }.

(** [TileArea(start, end)]: the block spanned by two corner tiles. *)
Definition TileArea_corners (s e : TileIndex) : TileArea :=
  let sx := Z.min (TileX s) (TileX e) in
  let sy := Z.min (TileY s) (TileY e) in
  let ex := Z.max (TileX s) (TileX e) in
  let ey := Z.max (TileY s) (TileY e) in
  mkTileArea (TileXY sx sy) (ex - sx + 1) (ey - sy + 1).

(** The tiles visited by [for (TileIndex tile : ta)]. *)
Definition TileArea_tiles (ta : TileArea) : list TileIndex :=
  y ← seqZ (TileY (ta_tile ta)) (ta_h ta);
  x ← seqZ (TileX (ta_tile ta)) (ta_w ta);
  [TileXY x y].

(** ** Settings and command results *)

(** The fields of [_settings_game.station] that station.cpp reads. *)
Record StationSettings := mkSettings {
  station_spread : Z;
  modified_catchment : bool;
  catchment_increase : Z;
  serve_neutral_industries : bool
}.

Inductive StringID := STR_ERROR_STATION_TOO_SPREAD_OUT.

(** [CommandCost]: success, or a failure carrying the error message. *)
Inductive CommandCost :=
  | CommandCost_ok
  | CommandCost_error (msg : StringID).

Definition Succeeded (c : CommandCost) : bool :=
  match c with CommandCost_ok => true | CommandCost_error _ => false end.

(** A call either returns or stops at a failed [assert]. *)
Inductive Outcome (A : Type) :=
  | Returns (a : A)
  | AssertFailed.
Arguments Returns {A} a.
Arguments AssertFailed {A}.

(** ** StationRect *)

Inductive StationRectMode := ADD_TEST | ADD_TRY | ADD_FORCE.

#[global] Instance StationRectMode_eq_dec : EqDecision StationRectMode.
Proof. solve_decision. Defined.

(** The four [int] bounds.  They hold tile coordinates, which are far below
    the range of [int], so their arithmetic is that of [Z]. *)
Record StationRect := mkRect { left : Z; top : Z; right : Z; bottom : Z }.

Definition MakeEmpty : StationRect := mkRect 0 0 0 0.

Definition PtInExtendedRect (r : StationRect) (x y distance : Z) : bool :=
  (left r - distance <=? x) && (x <=? right r + distance) &&
  (top r - distance <=? y) && (y <=? bottom r + distance).

Definition IsEmpty (r : StationRect) : bool :=
  (left r =? 0) || (left r >? right r) || (top r >? bottom r).

(** [BeforeAddTile]: the result pairs the returned [CommandCost] with the
    rect after the call.  [PtInExtendedRect(x, y)] uses the default
    distance 0. *)
Definition BeforeAddTile (cfg : StationSettings) (r : StationRect)
    (tile : TileIndex) (mode : StationRectMode)
  : Outcome (CommandCost * StationRect) :=
  let x := TileX tile in
  let y := TileY tile in
  if IsEmpty r then
    (* we are adding the first station tile *)
    if bool_decide (mode ≠ ADD_TEST)
    then Returns (CommandCost_ok, mkRect x y x y)
    else Returns (CommandCost_ok, r)
  else if negb (PtInExtendedRect r x y 0) then
    let new_rect :=
      mkRect (Z.min x (left r)) (Z.min y (top r))
             (Z.max x (right r)) (Z.max y (bottom r)) in
    let w := right new_rect - left new_rect + 1 in
    let h := bottom new_rect - top new_rect + 1 in
    if bool_decide (mode ≠ ADD_FORCE) &&
       ((w >? station_spread cfg) || (h >? station_spread cfg)) then
      if bool_decide (mode ≠ ADD_TRY)
      then Returns (CommandCost_error STR_ERROR_STATION_TOO_SPREAD_OUT, r)
      else AssertFailed
    else if bool_decide (mode ≠ ADD_TEST)
    then Returns (CommandCost_ok, new_rect)
    else Returns (CommandCost_ok, r)
  else Returns (CommandCost_ok, r).

(** [TILE_ADDXY(tile, x, y)]. *)
Definition TILE_ADDXY (t : TileIndex) (dx dy : Z) : TileIndex :=
  TileXY (TileX t + dx) (TileY t + dy).

Definition BeforeAddRect (cfg : StationSettings) (r : StationRect)
    (tile : TileIndex) (w h : Z) (mode : StationRectMode)
  : Outcome (CommandCost * StationRect) :=
  if bool_decide (mode = ADD_FORCE) ||
     ((w <=? station_spread cfg) && (h <=? station_spread cfg)) then
    match BeforeAddTile cfg r tile mode with
    | AssertFailed => AssertFailed
    | Returns (ret, r1) =>
        if Succeeded ret
        then BeforeAddTile cfg r1 (TILE_ADDXY tile (w - 1) (h - 1)) mode
        else Returns (ret, r1)
    end
  else Returns (CommandCost_ok, r).

(** A tile that [ScanForStationTiles] counts for station [st_id]. *)
Definition is_station_tile_of (m : TileMap) (st_id : StationID) (tile : TileIndex) : bool :=
  (IsTileType m tile MP_STATION || IsTileType m tile MP_TUNNELBRIDGE) &&
  bool_decide (GetStationIndex m tile = st_id).

Definition ScanForStationTiles (m : TileMap) (st_id : StationID)
    (left_a top_a right_a bottom_a : Z) : bool :=
  existsb (is_station_tile_of m st_id)
    (TileArea_tiles (TileArea_corners (TileXY left_a top_a) (TileXY right_a bottom_a))).

(** One pass of the [for (;;)] loop of [AfterRemoveTile]: [inl] is a
    [return] or [break] with the value returned and the final rect, [inr]
    the state with which the loop goes round again. *)
Definition AfterRemoveTile_body (m : TileMap) (st_id : StationID)
    (r : StationRect) (x y : Z)
  : (bool * StationRect) + (StationRect * Z * Z) :=
  let left_edge := x =? left r in
  let right_edge := x =? right r in
  let top_edge := y =? top r in
  let bottom_edge := y =? bottom r in
  let reduce_x := (left_edge || right_edge) &&
                  negb (ScanForStationTiles m st_id x (top r) x (bottom r)) in
  let reduce_y := (top_edge || bottom_edge) &&
                  negb (ScanForStationTiles m st_id (left r) y (right r) y) in
  if negb (reduce_x || reduce_y) then inl (false, r)
  else
    let '(r1, x1) :=
      if reduce_x then
        if left_edge
        then (mkRect (x + 1) (top r) (right r) (bottom r), x + 1)
        else (mkRect (left r) (top r) (x - 1) (bottom r), x - 1)
      else (r, x) in
    let '(r2, y1) :=
      if reduce_y then
        if top_edge
        then (mkRect (left r1) (y + 1) (right r1) (bottom r1), y + 1)
        else (mkRect (left r1) (top r1) (right r1) (y - 1), y - 1)
      else (r1, y) in
    if (left r2 >? right r2) || (top r2 >? bottom r2)
    then inl (true, MakeEmpty)
    else inr (r2, x1, y1).

Fixpoint AfterRemoveTile_loop (fuel : nat) (m : TileMap) (st_id : StationID)
    (r : StationRect) (x y : Z) : option (bool * StationRect) :=
  match fuel with
  | O => None
  | S fuel' =>
      match AfterRemoveTile_body m st_id r x y with
      | inl res => Some res
      | inr (r', x', y') => AfterRemoveTile_loop fuel' m st_id r' x' y'
      end
  end.

(** Every pass that goes round again has made the rect one tile narrower
    or lower, so this many passes are enough (see [AfterRemoveTile_returns]). *)
Definition AfterRemoveTile_fuel (r : StationRect) : nat :=
  Z.to_nat (right r - left r + 1) + Z.to_nat (bottom r - top r + 1) + 1.

(** [AfterRemoveTile]: the returned flag (rect now empty) and the rect. *)
Definition AfterRemoveTile (m : TileMap) (st_id : StationID)
    (r : StationRect) (tile : TileIndex) : option (bool * StationRect) :=
  AfterRemoveTile_loop (AfterRemoveTile_fuel r) m st_id r (TileX tile) (TileY tile).

(** ** The world: pools of stations, industries, towns and link graphs *)

Definition LinkGraphID := N.
Definition NodeID := nat.

(** Modelled from the spec: the catchment set, a [BitmapTileArea]
    (bitmap_type.h is not part of the sources): one bit per tile of a
    bounded region, "tile is within influence radius of the station".  The
    region only fixes the storage, so the model keeps the set of tiles
    whose bit is set: [Reset] and [Initialize] leave no bit set, [SetTile]
    sets the bit of one tile, and the tile iterator visits the tiles whose
    bit is set. *)
Abbreviation BitmapTileArea := (gset TileIndex).
Definition Bitmap_Initialize : BitmapTileArea := ∅.
Definition Bitmap_Reset : BitmapTileArea := ∅.
Definition Bitmap_SetTile (tile : TileIndex) (b : BitmapTileArea) : BitmapTileArea :=
  {[tile]} ∪ b.
Definition Bitmap_tiles (b : BitmapTileArea) : list TileIndex := elements b.

(** Modelled from the spec: [FlowStatMap] (the link-graph subsystem is not
    part of the sources): the flow table of one station and cargo kind,
    giving for each origin station the stations its flow is sent on to. *)
Abbreviation FlowStatMap := (gmap StationID (gset StationID)).

(** [flows.erase(origin)]: drop the plain flow-table entry of a station. *)
Definition FlowStatMap_erase (origin : StationID) (f : FlowStatMap) : FlowStatMap :=
  delete origin f.

(** [flows.DeleteFlows(via)]: delete every flow sent on to [via]; an entry
    left without any flow is dropped. *)
Definition FlowStatMap_DeleteFlows (via : StationID) (f : FlowStatMap) : FlowStatMap :=
  filter (fun kv => snd kv ≠ ∅) ((fun vias => vias ∖ {[via]}) <$> f).

(** The fields of [GoodsEntry] used by the teardown. *)
Record GoodsEntry := mkGoods {
  ge_link_graph : LinkGraphID;
  ge_node : NodeID;
  ge_flows : FlowStatMap
}.

(** The fields of [Station] used here.  [this->industry] is the pool index
    of the industry the station is bound to, if any;
    [airport_catchment] is [airport.GetSpec()->catchment]. *)
Record Station := mkStation {
  rect : StationRect;
  catchment_tiles : BitmapTileArea;
  industries_near : gset IndustryID;
  industry : option IndustryID;
  station_tiles : Z;
  airport_catchment : Z;
  goods : CargoID -> GoodsEntry
}.

(** Modelled from the spec: the fields of [Industry] in industry.h that
    station.cpp reads and writes.  A slot of [accepts_cargo] holds a cargo
    kind or [CT_INVALID], here [None]. *)
Record Industry := mkIndustry {
  location : TileArea;
  stations_near : gset StationID;
  neutral_station : option StationID;
  accepts_cargo : list (option CargoID)
}.

Record Town := mkTown { town_stations_near : gset StationID }.

(** Modelled from the spec: a link graph (linkgraph.h is not part of the
    sources): its nodes, each standing for a station, and for an edge the
    date of its last update, [INVALID_DATE] when there is none. *)
Record LinkGraph := mkLinkGraph {
  lg_nodes : list StationID;
  lg_last_update : NodeID -> NodeID -> Z
}.

Definition INVALID_DATE : Z := -1.

Definition LinkGraph_Size (lg : LinkGraph) : nat := length (lg_nodes lg).

(** Modelled from the spec: [LinkGraph::RemoveNode]: the node leaves the
    graph. *)
Definition LinkGraph_RemoveNode (id : NodeID) (lg : LinkGraph) : LinkGraph :=
  mkLinkGraph (delete id (lg_nodes lg)) (lg_last_update lg).

Record World := mkWorld {
  tile_map : TileMap;
  MapSizeX : Z;
  MapSizeY : Z;
  stations : gmap StationID Station;
  industries : gmap IndustryID Industry;
  towns : gmap TownID Town;
  link_graphs : gmap LinkGraphID LinkGraph;
  (** the link graphs queued in [LinkGraphSchedule::instance] *)
  schedule : list LinkGraphID
}.

(** *** Field updates *)

Definition set_rect (v : StationRect) (st : Station) : Station :=
  mkStation v (catchment_tiles st) (industries_near st) (industry st)
            (station_tiles st) (airport_catchment st) (goods st).
Definition set_catchment_tiles (v : BitmapTileArea) (st : Station) : Station :=
  mkStation (rect st) v (industries_near st) (industry st)
            (station_tiles st) (airport_catchment st) (goods st).
Definition set_industries_near (v : gset IndustryID) (st : Station) : Station :=
  mkStation (rect st) (catchment_tiles st) v (industry st)
            (station_tiles st) (airport_catchment st) (goods st).
Definition set_station_tiles (v : Z) (st : Station) : Station :=
  mkStation (rect st) (catchment_tiles st) (industries_near st) (industry st)
            v (airport_catchment st) (goods st).
Definition set_flows (c : CargoID) (f : FlowStatMap) (st : Station) : Station :=
  mkStation (rect st) (catchment_tiles st) (industries_near st) (industry st)
            (station_tiles st) (airport_catchment st)
            (fun c' => if decide (c' = c)
                       then mkGoods (ge_link_graph (goods st c)) (ge_node (goods st c)) f
                       else goods st c').
Definition set_stations_near (v : gset StationID) (i : Industry) : Industry :=
  mkIndustry (location i) v (neutral_station i) (accepts_cargo i).

Definition with_stations (v : gmap StationID Station) (w : World) : World :=
  mkWorld (tile_map w) (MapSizeX w) (MapSizeY w) v (industries w) (towns w)
          (link_graphs w) (schedule w).
Definition with_industries (v : gmap IndustryID Industry) (w : World) : World :=
  mkWorld (tile_map w) (MapSizeX w) (MapSizeY w) (stations w) v (towns w)
          (link_graphs w) (schedule w).
Definition with_towns (v : gmap TownID Town) (w : World) : World :=
  mkWorld (tile_map w) (MapSizeX w) (MapSizeY w) (stations w) (industries w) v
          (link_graphs w) (schedule w).
Definition with_link_graphs (v : gmap LinkGraphID LinkGraph) (w : World) : World :=
  mkWorld (tile_map w) (MapSizeX w) (MapSizeY w) (stations w) (industries w) (towns w)
          v (schedule w).
Definition with_schedule (v : list LinkGraphID) (w : World) : World :=
  mkWorld (tile_map w) (MapSizeX w) (MapSizeY w) (stations w) (industries w) (towns w)
          (link_graphs w) v.

(** A write through a pointer to a pool item. *)
Definition upd_station (s : StationID) (f : Station -> Station) (w : World) : World :=
  with_stations (alter f s (stations w)) w.
Definition upd_industry (i : IndustryID) (f : Industry -> Industry) (w : World) : World :=
  with_industries (alter f i (industries w)) w.
Definition upd_town (t : TownID) (f : Town -> Town) (w : World) : World :=
  with_towns (alter f t (towns w)) w.

(** *** Calls that may stop at an assertion *)

#[global] Instance Outcome_ret : MRet Outcome := fun _ a => Returns a.
#[global] Instance Outcome_bind : MBind Outcome := fun _ _ f m =>
  match m with Returns a => f a | AssertFailed => AssertFailed end.

(** [Pool::Get]: the item must exist. *)
Definition pool_get `{Countable K} {V} (p : gmap K V) (k : K) : Outcome V :=
  match p !! k with Some v => Returns v | None => AssertFailed end.

(** A loop over a list whose body may stop the call. *)
Fixpoint for_each {A S : Type} (body : S -> A -> Outcome S) (l : list A) (s : S)
  : Outcome S :=
  match l with
  | [] => Returns s
  | a :: l' => s' ← body s a; for_each body l' s'
  end.

Definition Station_Get (w : World) (s : StationID) : Outcome Station :=
  pool_get (stations w) s.
Definition Industry_Get (w : World) (i : IndustryID) : Outcome Industry :=
  pool_get (industries w) i.
Definition Town_Get (w : World) (t : TownID) : Outcome Town :=
  pool_get (towns w) t.

(** ** Catchment *)

(** The [CatchmentArea] radii of station_type.h, which is not part of the
    sources: they are parameters of the development.  [CA_NONE] is zero
    (the spec: zero for waypoint and buoy types). *)
Record CatchmentArea := mkCatchmentArea {
  CA_BUS : Z;
  CA_TRUCK : Z;
  CA_TRAIN : Z;
  CA_DOCK : Z;
  CA_UNMODIFIED : Z
}.

Definition CA_NONE : Z := 0.

(** Conversion of an [int] to the [uint] a function returns. *)
Definition to_uint (z : Z) : Z := z mod 2 ^ 32.

Definition GetTileCatchmentRadius (ca : CatchmentArea) (cfg : StationSettings)
    (m : TileMap) (tile : TileIndex) (st : Station) : Outcome Z :=
  if negb (IsTileType m tile MP_STATION) then AssertFailed
  else
    let inc := catchment_increase cfg in
    if modified_catchment cfg then
      match GetStationType m tile with
      | STATION_RAIL => Returns (to_uint (CA_TRAIN ca + inc))
      | STATION_OILRIG => Returns (to_uint (CA_UNMODIFIED ca + inc))
      | STATION_AIRPORT => Returns (to_uint (airport_catchment st + inc))
      | STATION_TRUCK => Returns (to_uint (CA_TRUCK ca + inc))
      | STATION_BUS => Returns (to_uint (CA_BUS ca + inc))
      | STATION_DOCK => Returns (to_uint (CA_DOCK ca + inc))
      | STATION_BUOY | STATION_WAYPOINT => Returns (to_uint CA_NONE)
      end
    else
      match GetStationType m tile with
      | STATION_BUOY | STATION_WAYPOINT => Returns (to_uint CA_NONE)
      | _ => Returns (to_uint (CA_UNMODIFIED ca + inc))
      end.

(** Modelled from the spec: [TileArea::Expand] (tilearea.cpp is not part of
    the sources): the block grown by [rad] tiles on every side, which for a
    single tile is the axis-aligned square of side [2 * rad + 1] centred on
    it, kept within the map as [GetCatchmentRectUsingRadius] keeps its
    rectangle. *)
Definition TileArea_Expand (w : World) (ta : TileArea) (rad : Z) : TileArea :=
  let x := TileX (ta_tile ta) in
  let y := TileY (ta_tile ta) in
  let sx := Z.max (x - rad) 0 in
  let sy := Z.max (y - rad) 0 in
  let ex := Z.min (x + ta_w ta + rad) (MapSizeX w) in
  let ey := Z.min (y + ta_h ta + rad) (MapSizeY w) in
  mkTileArea (TileXY sx sy) (ex - sx) (ey - sy).

(** The index at which the search loop of [AddIndustryToDeliver] stops: the
    first slot that holds a cargo kind, or the length of the array. *)
Fixpoint first_accepted_index (l : list (option CargoID)) : nat :=
  match l with
  | [] => O
  | Some _ :: _ => O
  | None :: l' => S (first_accepted_index l')
  end.

Definition AddIndustryToDeliver (w : World) (this : StationID) (ind : IndustryID)
  : Outcome World :=
  st ← Station_Get w this;
  (* Don't check further if this industry is already in the list *)
  if bool_decide (ind ∈ industries_near st) then Returns w
  else
    i ← Industry_Get w ind;
    (* Include only industries that can accept cargo *)
    let cargo_index := first_accepted_index (accepts_cargo i) in
    if bool_decide (length (accepts_cargo i) ≤ cargo_index)%nat then Returns w
    else Returns (upd_station this
                    (fun st => set_industries_near ({[ind]} ∪ industries_near st) st) w).

Definition RemoveFromAllNearbyLists (w : World) (this : StationID) : World :=
  let w1 := with_towns
    ((fun t => mkTown (town_stations_near t ∖ {[this]})) <$> towns w) w in
  with_industries
    ((fun i => set_stations_near (stations_near i ∖ {[this]}) i) <$> industries w1) w1.

(** The loop "finding all station tiles" in the branch of a station that is
    bound to an industry: it only counts the tiles. *)
Definition count_station_tiles (w : World) (this : StationID) (ta : TileArea) : Z :=
  foldl (fun n tile =>
           if negb (IsTileType (tile_map w) tile MP_STATION) ||
              bool_decide (GetStationIndex (tile_map w) tile ≠ this)
           then n else n + 1)
        0 (TileArea_tiles ta).

(** The body of the loop "finding all station tiles" of the general case. *)
Definition catchment_tile_step (ca : CatchmentArea) (cfg : StationSettings)
    (this : StationID) (w : World) (tile : TileIndex) : Outcome World :=
  if negb (IsTileType (tile_map w) tile MP_STATION) ||
     bool_decide (GetStationIndex (tile_map w) tile ≠ this)
  then Returns w
  else
    let w1 := upd_station this
                (fun st => set_station_tiles (station_tiles st + 1) st) w in
    st ← Station_Get w1 this;
    r ← GetTileCatchmentRadius ca cfg (tile_map w1) tile st;
    if r =? CA_NONE then Returns w1
    else
      let ta2 := TileArea_Expand w1 (mkTileArea tile 1 1) r in
      Returns (foldl (fun w' tile2 =>
                        upd_station this
                          (fun st => set_catchment_tiles
                                       (Bitmap_SetTile tile2 (catchment_tiles st)) st) w')
                     w1 (TileArea_tiles ta2)).

(** The body of the loop "search catchment tiles for towns and
    industries". *)
Definition nearby_tile_step (cfg : StationSettings) (this : StationID)
    (w : World) (tile : TileIndex) : Outcome World :=
  w1 ← (if IsTileType (tile_map w) tile MP_HOUSE then
          let t := GetTownIndex (tile_map w) tile in
          _ ← Town_Get w t;
          Returns (upd_town t (fun t => mkTown ({[this]} ∪ town_stations_near t)) w)
        else Returns w);
  if IsTileType (tile_map w1) tile MP_INDUSTRY then
    let i := GetIndustryIndex (tile_map w1) tile in
    ind ← Industry_Get w1 i;
    (* Ignore industry if it has a neutral station. *)
    if negb (serve_neutral_industries cfg) &&
       bool_decide (neutral_station ind ≠ None)
    then Returns w1
    else
      let w2 := upd_industry i
                  (fun ind => set_stations_near ({[this]} ∪ stations_near ind) ind) w1 in
      (* Add if we can deliver to this industry as well *)
      AddIndustryToDeliver w2 this i
  else Returns w1.

(** The branch of [RecomputeCatchment] for a station that is associated
    with the industry [ind_id]. *)
Definition RecomputeCatchment_industry (w : World) (this : StationID)
    (st : Station) (ind_id : IndustryID) : Outcome World :=
  ind ← Industry_Get w ind_id;
  let w := upd_station this (set_catchment_tiles Bitmap_Initialize) w in
  let w := foldl (fun w' tile =>
             if IsTileType (tile_map w') tile MP_INDUSTRY &&
                bool_decide (GetIndustryIndex (tile_map w') tile = ind_id)
             then upd_station this
                    (fun st => set_catchment_tiles
                                 (Bitmap_SetTile tile (catchment_tiles st)) st) w'
             else w')
           w (TileArea_tiles (location ind)) in
  (* The industry's stations_near may have been computed before its neutral
     station was built so clear and re-add here. *)
  w ← for_each (fun w' s' =>
                  _ ← Station_Get w' s';
                  Returns (upd_station s'
                             (fun st => set_industries_near
                                          (industries_near st ∖ {[ind_id]}) st) w'))
               (elements (stations_near ind)) w;
  let w := upd_industry ind_id (set_stations_near ∅) w in
  let w := upd_industry ind_id
             (fun i => set_stations_near ({[this]} ∪ stations_near i) i) w in
  let w := upd_station this
             (fun st => set_industries_near ({[ind_id]} ∪ industries_near st) st) w in
  (* Loop finding all station tiles *)
  let ta := TileArea_corners (TileXY (left (rect st)) (top (rect st)))
                             (TileXY (right (rect st)) (bottom (rect st))) in
  Returns (upd_station this (set_station_tiles (count_station_tiles w this ta)) w).

(** The general case of [RecomputeCatchment]. *)
Definition RecomputeCatchment_tiles (ca : CatchmentArea) (cfg : StationSettings)
    (w : World) (this : StationID) (st : Station) : Outcome World :=
  let w := upd_station this (set_catchment_tiles Bitmap_Initialize) w in
  (* Loop finding all station tiles *)
  let ta := TileArea_corners (TileXY (left (rect st)) (top (rect st)))
                             (TileXY (right (rect st)) (bottom (rect st))) in
  let w := upd_station this (set_station_tiles 0) w in
  w ← for_each (catchment_tile_step ca cfg this) (TileArea_tiles ta) w;
  (* Search catchment tiles for towns and industries *)
  st' ← Station_Get w this;
  for_each (nearby_tile_step cfg this) (Bitmap_tiles (catchment_tiles st')) w.

(** [RecomputeCatchment]: [this] is the pool index of the station. *)
Definition RecomputeCatchment (ca : CatchmentArea) (cfg : StationSettings)
    (w : World) (this : StationID) (no_clear_nearby_lists : bool) : Outcome World :=
  _ ← Station_Get w this;
  let w := upd_station this (set_industries_near ∅) w in
  let w := if negb no_clear_nearby_lists then RemoveFromAllNearbyLists w this else w in
  st ← Station_Get w this;
  if IsEmpty (rect st) then
    Returns (upd_station this (set_catchment_tiles Bitmap_Reset) w)
  else
    match (if negb (serve_neutral_industries cfg) then industry st else None) with
    | Some ind_id => RecomputeCatchment_industry w this st ind_id
    | None => RecomputeCatchment_tiles ca cfg w this st
    end.

(** ** Teardown *)

(** Modelled from the spec: [RerouteCargo] (station_cmd.cpp is not part of
    the sources) moves the cargo waiting for a station that is no longer
    served; it touches neither the flow tables nor the link graphs, the
    only teardown state kept here. *)
Definition RerouteCargo (w : World) (st : StationID) (c : CargoID)
    (avoid avoid2 : StationID) : World := w.

(** Modelled from the spec: [LinkGraphSchedule::Unqueue]: the graph is taken
    off the scheduled processing. *)
Definition Unqueue (lg : LinkGraphID) (w : World) : World :=
  with_schedule (filter (fun l => l ≠ lg) (schedule w)) w.

(** The body of the loop over the nodes of the link graph [lg] in the
    destructor, for cargo [c]. *)
Definition destroy_node_step (this : StationID) (c : CargoID) (lg : LinkGraph)
    (w : World) (node : NodeID) : Outcome World :=
  me ← Station_Get w this;
  st_id ← match lg_nodes lg !! node with
          | Some s => Returns s
          | None => AssertFailed
          end;
  _ ← Station_Get w st_id;
  let w1 := upd_station st_id
              (fun st => set_flows c (FlowStatMap_erase this (ge_flows (goods st c))) st) w in
  if bool_decide (lg_last_update lg node (ge_node (goods me c)) ≠ INVALID_DATE) then
    let w2 := upd_station st_id
                (fun st => set_flows c
                             (FlowStatMap_DeleteFlows this (ge_flows (goods st c))) st) w1 in
    Returns (RerouteCargo w2 st_id c this st_id)
  else Returns w1.

(** The body of the loop over the cargo kinds in the destructor. *)
Definition destroy_cargo_step (this : StationID) (w : World) (c : CargoID)
  : Outcome World :=
  me ← Station_Get w this;
  let lg_id := ge_link_graph (goods me c) in
  match link_graphs w !! lg_id with
  | None => Returns w
  | Some lg =>
      w1 ← for_each (destroy_node_step this c lg)
                    (seq 0 (LinkGraph_Size lg)) w;
      let w2 := with_link_graphs
                  (alter (LinkGraph_RemoveNode (ge_node (goods me c))) lg_id
                         (link_graphs w1)) w1 in
      lg' ← pool_get (link_graphs w2) lg_id;
      if bool_decide (LinkGraph_Size lg' = 0%nat) then
        let w3 := Unqueue lg_id w2 in
        Returns (with_link_graphs (delete lg_id (link_graphs w3)) w3)
      else Returns w2
  end.

(** [Station::~Station]: of the state the destructor touches, the flow
    tables, the link graphs with their schedule and the nearby lists are
    kept here; vehicles, orders, windows, news and cargo packets are not.
    [CleaningPool] is the flag of the pool and [NUM_CARGO] the number of
    cargo kinds. *)
Definition Station_destructor (CleaningPool : bool) (NUM_CARGO : nat)
    (w : World) (this : StationID) : Outcome World :=
  if CleaningPool then Returns w
  else
    w1 ← for_each (destroy_cargo_step this) (seq 0 NUM_CARGO) w;
    (* Remove station from industries and towns that reference it. *)
    Returns (RemoveFromAllNearbyLists w1 this).

(** [delete st]: the destructor runs and the pool slot is freed. *)
Definition Station_delete (CleaningPool : bool) (NUM_CARGO : nat)
    (w : World) (this : StationID) : Outcome World :=
  w1 ← Station_destructor CleaningPool NUM_CARGO w this;
  Returns (with_stations (delete this (stations w1)) w1).

(** * Vocabulary of the specification *)

(** The minimal rect covering the rect [r] and a tile. *)
Definition cover (r : StationRect) (tile : TileIndex) : StationRect :=
  mkRect (Z.min (TileX tile) (left r)) (Z.min (TileY tile) (top r))
         (Z.max (TileX tile) (right r)) (Z.max (TileY tile) (bottom r)).

(** The width or the height of [r] is above the configured maximum spread. *)
Definition too_spread (cfg : StationSettings) (r : StationRect) : Prop :=
  right r - left r + 1 > station_spread cfg ∨
  bottom r - top r + 1 > station_spread cfg.

(** The catchment radius of a tile in the words of the spec: zero for a
    buoy or waypoint tile; otherwise the radius of the functional type of
    the tile (for an airport tile the radius of the airport specification),
    or the flat unmodified radius when modified catchment is switched off,
    incremented by the configured bonus. *)
Definition type_radius (ca : CatchmentArea) (ty : StationType) (airport : Z) : Z :=
  match ty with
  | STATION_RAIL => CA_TRAIN ca
  | STATION_AIRPORT => airport
  | STATION_TRUCK => CA_TRUCK ca
  | STATION_BUS => CA_BUS ca
  | STATION_OILRIG => CA_UNMODIFIED ca
  | STATION_DOCK => CA_DOCK ca
  | STATION_BUOY | STATION_WAYPOINT => 0
  end.

Definition is_functional (ty : StationType) : bool :=
  match ty with STATION_BUOY | STATION_WAYPOINT => false | _ => true end.

Definition tile_radius_spec (ca : CatchmentArea) (cfg : StationSettings)
    (ty : StationType) (airport : Z) : Z :=
  if is_functional ty then
    (if modified_catchment cfg then type_radius ca ty airport else CA_UNMODIFIED ca)
    + catchment_increase cfg
  else 0.

(** The radii and the bonus are small non-negative numbers (they are stored
    in bytes), so that no sum of a radius and the bonus leaves [uint]. *)
Definition radii_in_range (ca : CatchmentArea) (cfg : StationSettings) (airport : Z) : Prop :=
  0 <= catchment_increase cfg <= 255 ∧
  0 <= CA_BUS ca <= 255 ∧ 0 <= CA_TRUCK ca <= 255 ∧ 0 <= CA_TRAIN ca <= 255 ∧
  0 <= CA_DOCK ca <= 255 ∧ 0 <= CA_UNMODIFIED ca <= 255 ∧ 0 <= airport <= 255.

(** A tile of station [s], and a tile of industry [i]. *)
Definition station_tile_of (w : World) (s : StationID) (t : TileIndex) : Prop :=
  IsTileType (tile_map w) t MP_STATION = true ∧ GetStationIndex (tile_map w) t = s.
Definition industry_tile_of (w : World) (i : IndustryID) (t : TileIndex) : Prop :=
  IsTileType (tile_map w) t MP_INDUSTRY = true ∧ GetIndustryIndex (tile_map w) t = i.

(** The block of tiles of a rect. *)
Definition rect_area (r : StationRect) : TileArea :=
  TileArea_corners (TileXY (left r) (top r)) (TileXY (right r) (bottom r)).

(** The industry a station is exclusively linked to: the station is bound to
    an industry and the simulation does not let stations serve neutral
    industries generally. *)
Definition exclusive_industry (cfg : StationSettings) (st : Station) : option IndustryID :=
  if negb (serve_neutral_industries cfg) then industry st else None.

(** The industry accepts at least one cargo kind. *)
Definition accepts (ind : Industry) : Prop := ∃ c, Some c ∈ accepts_cargo ind.

(** The catchment of station [s] as the spec defines it: nothing for an
    empty rect; the tiles of the footprint of the exclusive industry that
    still belong to it; otherwise the union of the squares around the tiles
    of the station that have a non-zero radius. *)
Definition in_catchment (ca : CatchmentArea) (cfg : StationSettings) (w : World)
    (s : StationID) (t : TileIndex) : Prop :=
  ∃ st, stations w !! s = Some st ∧ IsEmpty (rect st) = false ∧
    match exclusive_industry cfg st with
    | Some i => ∃ ind, industries w !! i = Some ind ∧
                       t ∈ TileArea_tiles (location ind) ∧ industry_tile_of w i t
    | None => ∃ tile r, tile ∈ TileArea_tiles (rect_area (rect st)) ∧
                        station_tile_of w s tile ∧
                        GetTileCatchmentRadius ca cfg (tile_map w) tile st = Returns r ∧
                        r ≠ CA_NONE ∧
                        t ∈ TileArea_tiles (TileArea_Expand w (mkTileArea tile 1 1) r)
    end.

(** The walk over the catchment does not skip the industry: it has no
    neutral station of its own, or the simulation lets stations serve
    neutral industries. *)
Definition not_left_out (cfg : StationSettings) (ind : Industry) : Prop :=
  serve_neutral_industries cfg = true ∨ neutral_station ind = None.

(** Industry [i] has a tile in the catchment of [s] and is not left out for
    having a neutral station of its own. *)
Definition in_reach (ca : CatchmentArea) (cfg : StationSettings) (w : World)
    (s : StationID) (i : IndustryID) : Prop :=
  ∃ t ind, in_catchment ca cfg w s t ∧ industry_tile_of w i t ∧
           industries w !! i = Some ind ∧ not_left_out cfg ind.

(** The industries station [s] can deliver to, as the spec defines them. *)
Definition is_near (ca : CatchmentArea) (cfg : StationSettings) (w : World)
    (s : StationID) (i : IndustryID) : Prop :=
  ∃ st, stations w !! s = Some st ∧ IsEmpty (rect st) = false ∧
    match exclusive_industry cfg st with
    | Some i' => i = i'
    | None => in_reach ca cfg w s i ∧
              ∃ ind, industries w !! i = Some ind ∧ accepts ind
    end.

(** Station [s] has tiles and is exclusively linked to industry [i]. *)
Definition is_exclusive (cfg : StationSettings) (w : World)
    (s : StationID) (i : IndustryID) : Prop :=
  ∃ st, stations w !! s = Some st ∧ IsEmpty (rect st) = false ∧
        exclusive_industry cfg st = Some i.

(** Industry [i] is given station [s] as a station near it: it is the
    exclusive industry of [s], or [s] has none and [i] is in its reach. *)
Definition serves (ca : CatchmentArea) (cfg : StationSettings) (w : World)
    (s : StationID) (i : IndustryID) : Prop :=
  ∃ st, stations w !! s = Some st ∧ IsEmpty (rect st) = false ∧
    match exclusive_industry cfg st with
    | Some i' => i = i'
    | None => in_reach ca cfg w s i
    end.

(** What [RecomputeCatchment] reads but never writes. *)
Definition static_station (st : Station) : StationRect * option IndustryID * Z :=
  (rect st, industry st, airport_catchment st).
Definition static_industry (i : Industry)
  : TileArea * option StationID * list (option CargoID) :=
  (location i, neutral_station i, accepts_cargo i).

Definition same_static (w w' : World) : Prop :=
  tile_map w' = tile_map w ∧ MapSizeX w' = MapSizeX w ∧ MapSizeY w' = MapSizeY w ∧
  (∀ s, static_station <$> stations w' !! s = static_station <$> stations w !! s) ∧
  (∀ i, static_industry <$> industries w' !! i = static_industry <$> industries w !! i) ∧
  (∀ t, is_Some (towns w' !! t) ↔ is_Some (towns w !! t)).

(** The pool items the walk of [RecomputeCatchment] dereferences exist:
    the town of every house tile, the industry of every industry tile, the
    industry a station is bound to, and the stations in the nearby list of
    every industry. *)
Definition pools_valid (w : World) : Prop :=
  (∀ t, IsTileType (tile_map w) t MP_HOUSE = true →
        is_Some (towns w !! GetTownIndex (tile_map w) t)) ∧
  (∀ t, IsTileType (tile_map w) t MP_INDUSTRY = true →
        is_Some (industries w !! GetIndustryIndex (tile_map w) t)) ∧
  (∀ s st i, stations w !! s = Some st → industry st = Some i →
             is_Some (industries w !! i)) ∧
  (∀ i ind s, industries w !! i = Some ind → s ∈ stations_near ind →
              is_Some (stations w !! s)).

Definition near_backward (w : World) : Prop :=
  ∀ i ind s, industries w !! i = Some ind → s ∈ stations_near ind → accepts ind →
             ∃ st, stations w !! s = Some st ∧ i ∈ industries_near st.

(** ** Vocabulary of the proofs *)

(** The world with station [s] replaced. *)
Definition put_station (s : StationID) (st : Station) (w : World) : World :=
  with_stations (<[s := st]> (stations w)) w.

(** The effect of the walk over the catchment tiles [tiles] for station
    [s]: the station gains the industries in [tiles] it can deliver to, and
    the industries in [tiles] gain the station. *)
Definition walked (cfg : StationSettings) (s : StationID) (tiles : list TileIndex)
    (w w' : World) : Prop :=
  tile_map w' = tile_map w ∧ MapSizeX w' = MapSizeX w ∧ MapSizeY w' = MapSizeY w ∧
  link_graphs w' = link_graphs w ∧ schedule w' = schedule w ∧
  (∀ t, is_Some (towns w' !! t) ↔ is_Some (towns w !! t)) ∧
  (∃ st near', stations w !! s = Some st ∧
     stations w' = <[s := set_industries_near near' st]> (stations w) ∧
     ∀ i, i ∈ near' ↔
          i ∈ industries_near st ∨
          ∃ t ind, t ∈ tiles ∧ industry_tile_of w i t ∧ industries w !! i = Some ind ∧
                   not_left_out cfg ind ∧ accepts ind) ∧
  (∀ i, option_Forall2
          (fun ind ind' =>
             static_industry ind' = static_industry ind ∧
             ∀ x, x ∈ stations_near ind' ↔
                  x ∈ stations_near ind ∨
                  (x = s ∧ ∃ t, t ∈ tiles ∧ industry_tile_of w i t ∧ not_left_out cfg ind))
          (industries w !! i) (industries w' !! i)).

(** The nearby list of an industry once the station has been taken off it,
    which [RecomputeCatchment] does unless it is told not to. *)
Definition base_near (no_clear : bool) (s : StationID) (ind : Industry) : gset StationID :=
  if no_clear then stations_near ind else stations_near ind ∖ {[s]}.

(** The world [w'] that [RecomputeCatchment] makes of [w] for station [s]. *)
Definition recomputed (ca : CatchmentArea) (cfg : StationSettings) (no_clear : bool)
    (s : StationID) (w w' : World) : Prop :=
  tile_map w' = tile_map w ∧ MapSizeX w' = MapSizeX w ∧ MapSizeY w' = MapSizeY w ∧
  link_graphs w' = link_graphs w ∧ schedule w' = schedule w ∧
  (∀ t, is_Some (towns w' !! t) ↔ is_Some (towns w !! t)) ∧
  (∀ s', option_Forall2
           (fun st st' =>
              static_station st' = static_station st ∧
              if decide (s' = s) then
                (∀ t, t ∈ catchment_tiles st' ↔ in_catchment ca cfg w s t) ∧
                (∀ i, i ∈ industries_near st' ↔ is_near ca cfg w s i)
              else
                catchment_tiles st' = catchment_tiles st ∧
                ∀ i, i ∈ industries_near st' ↔
                     i ∈ industries_near st ∧
                     ¬ (is_exclusive cfg w s i ∧
                        ∃ ind, industries w !! i = Some ind ∧ s' ∈ stations_near ind))
           (stations w !! s') (stations w' !! s')) ∧
  (∀ i, option_Forall2
          (fun ind ind' =>
             static_industry ind' = static_industry ind ∧
             ∀ x, x ∈ stations_near ind' ↔
                  (x ∈ base_near no_clear s ind ∧ ¬ is_exclusive cfg w s i) ∨
                  (x = s ∧ serves ca cfg w s i))
          (industries w !! i) (industries w' !! i)).

(** The world after the first two statements of [RecomputeCatchment]. *)
Definition cleared (no_clear : bool) (s : StationID) (w : World) : World :=
  if negb no_clear
  then RemoveFromAllNearbyLists (upd_station s (set_industries_near ∅) w) s
  else upd_station s (set_industries_near ∅) w.


(** The settings with another radius bonus. *)
Definition with_catchment_increase (inc : Z) (cfg : StationSettings) : StationSettings :=
  mkSettings (station_spread cfg) (modified_catchment cfg) inc (serve_neutral_industries cfg).




(** ** The station seen through [BeforeAddTile] and [AfterRemoveTile] *)

(** The content of a tile counts as a tile of station [st_id] for
    [ScanForStationTiles]. *)
Definition tile_counts (st_id : StationID) (c : Tile) : bool :=
  (bool_decide (tile_type c = MP_STATION) || bool_decide (tile_type c = MP_TUNNELBRIDGE))
  && bool_decide (tile_m2 c = st_id).

(** The map together with the rect of the station. *)
Record RectState := mkRectState { rs_map : TileMap; rs_rect : StationRect }.

(** The two edits.  A tile is added to the station after a committing call
    of [BeforeAddTile] has succeeded; [AfterRemoveTile] is called after a
    tile of the station has been taken off the map.  [ok] says which tiles
    may be added. *)
Inductive rect_step (cfg : StationSettings) (st_id : StationID)
    (ok : TileIndex -> Prop) : RectState -> RectState -> Prop :=
  | step_add m r tile mode c r' :
      ok tile → mode ≠ ADD_TEST →
      BeforeAddTile cfg r tile mode = Returns (CommandCost_ok, r') →
      tile_counts st_id c = true →
      rect_step cfg st_id ok (mkRectState m r)
                (mkRectState (SetTileContent m tile c) r')
  | step_remove m r tile c res r' :
      is_station_tile_of m st_id tile = true →
      tile_counts st_id c = false →
      AfterRemoveTile (SetTileContent m tile c) st_id r tile = Some (res, r') →
      rect_step cfg st_id ok (mkRectState m r)
                (mkRectState (SetTileContent m tile c) r').

(** The states a station can be in: it starts without tiles and with the
    empty rect, and is edited through the two calls. *)
Inductive reachable (cfg : StationSettings) (st_id : StationID)
    (ok : TileIndex -> Prop) : RectState -> Prop :=
  | reach_init m :
      (∀ t, is_station_tile_of m st_id t = false) →
      reachable cfg st_id ok (mkRectState m MakeEmpty)
  | reach_step s s' :
      reachable cfg st_id ok s → rect_step cfg st_id ok s s' →
      reachable cfg st_id ok s'.

(** The station owns no tile. *)
Definition owns_no_tile (st_id : StationID) (s : RectState) : Prop :=
  ∀ t, is_station_tile_of (rs_map s) st_id t = false.

(** A tile lies within the rect. *)
Definition in_rect (r : StationRect) (t : TileIndex) : Prop :=
  left r <= TileX t <= right r ∧ top r <= TileY t <= bottom r.

(** *** The loop of [AfterRemoveTile] *)

(** A tile of the station on the map, and the columns and rows that hold
    one. *)
Definition owned (m : TileMap) (sid : StationID) (t : TileIndex) : Prop :=
  is_station_tile_of m sid t = true.
Definition all_in (m : TileMap) (sid : StationID) (r : StationRect) : Prop :=
  ∀ t, owned m sid t → in_rect r t.
Definition col_used (m : TileMap) (sid : StationID) (c : Z) : Prop :=
  ∃ t, owned m sid t ∧ TileX t = c.
Definition row_used (m : TileMap) (sid : StationID) (c : Z) : Prop :=
  ∃ t, owned m sid t ∧ TileY t = c.

(** The invariant of the loop: the rect holds every tile of the station,
    and each of its edges holds a tile of the station or is the edge the
    loop is working on. *)
Definition shrinking (m : TileMap) (sid : StationID) (r : StationRect) (x y : Z) : Prop :=
  all_in m sid r ∧ left r <= right r ∧ top r <= bottom r ∧
  (col_used m sid (left r) ∨ x = left r) ∧ (col_used m sid (right r) ∨ x = right r) ∧
  (row_used m sid (top r) ∨ y = top r) ∧ (row_used m sid (bottom r) ∨ y = bottom r).

(** What the rect is when the loop is left: emptied, the station having no
    tile, or the tight bounding box of the tiles of the station. *)
Definition settled (m : TileMap) (sid : StationID) (res : bool) (r : StationRect) : Prop :=
  if res then r = MakeEmpty ∧ ∀ t, ¬ owned m sid t
  else all_in m sid r ∧ left r <= right r ∧ top r <= bottom r ∧
       col_used m sid (left r) ∧ col_used m sid (right r) ∧
       row_used m sid (top r) ∧ row_used m sid (bottom r).

(** The span of the rect, which every pass round the loop makes smaller. *)
Definition span (r : StationRect) : Z := (right r - left r) + (bottom r - top r).

(** The invariant of the reachable states: no tile of the station has
    X coordinate 0, and the rect is classified empty with the station
    owning no tile, or is the tight bounding box of its tiles. *)
Definition rect_inv (sid : StationID) (s : RectState) : Prop :=
  (∀ t, owned (rs_map s) sid t → TileX t ≠ 0) ∧
  if IsEmpty (rs_rect s) then ∀ t, ¬ owned (rs_map s) sid t
  else settled (rs_map s) sid false (rs_rect s).

(** *** The teardown *)

(** The flow table [f] has no entry for origin [a], and sends no flow on to [a]. *)
Definition no_origin (a : StationID) (f : FlowStatMap) : Prop := f !! a = None.
Definition no_via (a : StationID) (f : FlowStatMap) : Prop :=
  ∀ o vias, f !! o = Some vias → a ∉ vias.

(** Two states of a station that differ at most in the flow table of cargo [c]. *)
Definition goods_frame (c : CargoID) (st st' : Station) : Prop :=
  (∀ c', ge_link_graph (goods st' c') = ge_link_graph (goods st c') ∧
         ge_node (goods st' c') = ge_node (goods st c')) ∧
  (∀ c', c' ≠ c → goods st' c' = goods st c').

(** The effect of the loop over the nodes [nodes] of the graph [lg]. *)
Definition nodes_done (this : StationID) (c : CargoID) (lg : LinkGraph)
    (dest : NodeID) (nodes : list NodeID) (w w' : World) : Prop :=
  tile_map w' = tile_map w ∧ MapSizeX w' = MapSizeX w ∧ MapSizeY w' = MapSizeY w ∧
  industries w' = industries w ∧ towns w' = towns w ∧
  link_graphs w' = link_graphs w ∧ schedule w' = schedule w ∧
  ∀ s, option_Forall2
         (fun st st' =>
            goods_frame c st st' ∧
            (no_origin this (ge_flows (goods st c)) → no_origin this (ge_flows (goods st' c))) ∧
            (no_via this (ge_flows (goods st c)) → no_via this (ge_flows (goods st' c))) ∧
            ∀ n, n ∈ nodes → lg_nodes lg !! n = Some s →
                 no_origin this (ge_flows (goods st' c)) ∧
                 (lg_last_update lg n dest ≠ INVALID_DATE →
                  no_via this (ge_flows (goods st' c))))
         (stations w !! s) (stations w' !! s).

(** The link graphs of the cargo kinds of station [a] hold stations that
    exist, and a link graph carries one cargo kind. *)
Definition graphs_valid (NUM_CARGO : nat) (w : World) (a : Station) : Prop :=
  (∀ c lg s, (c < NUM_CARGO)%nat →
             link_graphs w !! ge_link_graph (goods a c) = Some lg →
             s ∈ lg_nodes lg → is_Some (stations w !! s)) ∧
  (∀ c1 c2, (c1 < NUM_CARGO)%nat → (c2 < NUM_CARGO)%nat → c1 ≠ c2 →
            is_Some (link_graphs w !! ge_link_graph (goods a c1)) →
            ge_link_graph (goods a c1) ≠ ge_link_graph (goods a c2)).

(** The state of the teardown of station [this] once the cargo kinds [done]
    have been dealt with; [c] is the cargo kind and [lg] the link graph the
    claim is about. *)
Definition cargos_done (this : StationID) (a : Station) (c : CargoID) (lg : LinkGraph)
    (done : list CargoID) (w w' : World) : Prop :=
  let id := ge_link_graph (goods a c) in
  let node := ge_node (goods a c) in
  (∀ s, option_Forall2
          (fun st st' =>
             (∀ c', ge_link_graph (goods st' c') = ge_link_graph (goods st c') ∧
                    ge_node (goods st' c') = ge_node (goods st c')) ∧
             (∀ c', c' ∉ done → goods st' c' = goods st c') ∧
             (c ∈ done → ∀ n, lg_nodes lg !! n = Some s →
                no_origin this (ge_flows (goods st' c)) ∧
                (lg_last_update lg n node ≠ INVALID_DATE →
                 no_via this (ge_flows (goods st' c)))))
          (stations w !! s) (stations w' !! s)) ∧
  (∀ g, (∀ c', c' ∈ done → ge_link_graph (goods a c') ≠ g ∨
                            link_graphs w !! ge_link_graph (goods a c') = None) →
        link_graphs w' !! g = link_graphs w !! g) ∧
  (∀ g, g ∈ schedule w' → g ∈ schedule w) ∧
  (c ∈ done →
   if decide (LinkGraph_Size lg = 1%nat)
   then link_graphs w' !! id = None ∧ id ∉ schedule w'
   else link_graphs w' !! id = Some (LinkGraph_RemoveNode node lg)) ∧
  ((c ∈ done → LinkGraph_Size lg ≠ 1%nat) → id ∈ schedule w → id ∈ schedule w').


(** * Example worlds *)

Definition ex_ca : CatchmentArea := mkCatchmentArea 3 3 4 5 4.
Definition ex_cfg : StationSettings := mkSettings 12 true 0 false.
Definition no_goods : CargoID -> GoodsEntry := fun _ => mkGoods 0%N 0%nat ∅.

(** A rail station tile of station 1 at (10, 10), a tile of industry 2 two
    tiles east of it and a house of town 3 next to it. *)
Definition tile_is (t : TileIndex) (x y : Z) : bool := (TileX t =? x) && (TileY t =? y).

Definition ex_map : TileMap := fun t =>
  if tile_is t 10 10 then mkTile MP_STATION 1 STATION_RAIL
  else if tile_is t 12 10 then mkTile MP_INDUSTRY 2 STATION_RAIL
  else if tile_is t 9 9 then mkTile MP_HOUSE 3 STATION_RAIL
  else mkTile MP_CLEAR 0 STATION_RAIL.

Definition ex_station : Station :=
  mkStation (mkRect 10 10 10 10) ∅ ∅ None 0 0 no_goods.

(** Industry 2 accepts no cargo kind. *)
Definition ex_industry : Industry :=
  mkIndustry (mkTileArea (TileXY 12 10) 1 1) ∅ None [None; None].

Definition ex_world : World :=
  mkWorld ex_map 64 64 {[1%N := ex_station]} {[2%N := ex_industry]}
          {[3%N := mkTown ∅]} ∅ [].

(** The same world with station 1 bound to industry 2. *)
Definition ex_world_bound : World :=
  mkWorld ex_map 64 64
          {[1%N := mkStation (mkRect 10 10 10 10) ∅ ∅ (Some 2%N) 0 0 no_goods]}
          {[2%N := ex_industry]} {[3%N := mkTown ∅]} ∅ [].

(** Station 1 bound to industry 2, with the rect it has before its first
    tile is added. *)
Definition ex_world_unbuilt : World :=
  mkWorld ex_map 64 64
          {[1%N := mkStation MakeEmpty ∅ ∅ (Some 2%N) 5 0 no_goods]}
          {[2%N := ex_industry]} {[3%N := mkTown ∅]} ∅ [].

(** Two stations joined by a link graph for cargo 0: station 1 has node 0
    and station 2 node 1 of graph 5, the edge from node 1 to node 0 is up
    to date, and station 2 has flows from and via station 1. *)
Definition ex_graph : LinkGraph :=
  mkLinkGraph [1%N; 2%N]
    (fun from to => if decide (from = 1%nat ∧ to = 0%nat) then 100 else INVALID_DATE).

Definition ex_goods (node : NodeID) (f : FlowStatMap) : CargoID -> GoodsEntry :=
  fun c => if decide (c = 0%nat) then mkGoods 5%N node f else mkGoods 0%N 0%nat ∅.

Definition ex_station_A : Station :=
  mkStation (mkRect 10 10 10 10) ∅ ∅ None 1 0 (ex_goods 0%nat ∅).
Definition ex_station_B : Station :=
  mkStation (mkRect 20 20 20 20) ∅ ∅ None 1 0
            (ex_goods 1%nat {[1%N := {[3%N]}; 4%N := {[1%N; 2%N]}]}).

Definition ex_world_graph : World :=
  mkWorld (fun _ => mkTile MP_CLEAR 0 STATION_RAIL) 64 64
          {[1%N := ex_station_A; 2%N := ex_station_B]} ∅ ∅
          {[5%N := ex_graph]} [5%N].

(** The map without any tile of a station. *)
Definition ex_clear_map : TileMap := fun _ => mkTile MP_CLEAR 0 STATION_RAIL.

(** * The rest of station.cpp *)

(** ** StationRect *)

(** [AfterRemoveRect]: the two assertions, then [AfterRemoveTile] at the
    northern corner of the block and, unless the block is a single tile or
    the first call has emptied the rect, at the opposite corner.  As for
    [AfterRemoveTile] the result is [None] only if a loop runs out of
    passes. *)
Definition AfterRemoveRect (m : TileMap) (st_id : StationID)
    (r : StationRect) (ta : TileArea) : option (Outcome (bool * StationRect)) :=
  let tile := ta_tile ta in
  if negb (PtInExtendedRect r (TileX tile) (TileY tile) 0) then Some AssertFailed
  else if negb (PtInExtendedRect r (TileX tile + ta_w ta - 1)
                                 (TileY tile + ta_h ta - 1) 0) then Some AssertFailed
  else
    match AfterRemoveTile m st_id r tile with
    | None => None
    | Some (empty, r1) =>
        if bool_decide (ta_w ta ≠ 1) || bool_decide (ta_h ta ≠ 1) then
          if empty then Some (Returns (true, r1))
          else
            match AfterRemoveTile m st_id r1
                    (TILE_ADDXY tile (ta_w ta - 1) (ta_h ta - 1)) with
            | None => None
            | Some res => Some (Returns res)
            end
        else Some (Returns (empty, r1))
    end.

(** ** Catchment of the station as a whole *)

(** The further fields of [Station] that [GetCatchmentRadius] tests: the
    heads of the lists of bus and truck stops ([None] for [nullptr]) and
    the tiles of the rail station, the dock and the airport ([None] for
    [INVALID_TILE]). *)
Record StationFacilities := mkFacilities {
  bus_stops : option N;
  truck_stops : option N;
  train_station_tile : option TileIndex;
  ship_station_tile : option TileIndex;
  airport_tile : option TileIndex
}.

(** [std::max<uint>(ret, v)] under the guard [present]. *)
Definition max_if {A} (present : option A) (v ret : Z) : Z :=
  if bool_decide (present ≠ None) then Z.max ret (to_uint v) else ret.

Definition GetCatchmentRadius (ca : CatchmentArea) (cfg : StationSettings)
    (st : Station) (f : StationFacilities) : Z :=
  let ret := to_uint CA_NONE in
  let ret :=
    if modified_catchment cfg then
      let ret := max_if (bus_stops f) (CA_BUS ca) ret in
      let ret := max_if (truck_stops f) (CA_TRUCK ca) ret in
      let ret := max_if (train_station_tile f) (CA_TRAIN ca) ret in
      let ret := max_if (ship_station_tile f) (CA_DOCK ca) ret in
      max_if (airport_tile f) (airport_catchment st) ret
    else if bool_decide (bus_stops f ≠ None) || bool_decide (truck_stops f ≠ None) ||
            bool_decide (train_station_tile f ≠ None) ||
            bool_decide (ship_station_tile f ≠ None) ||
            bool_decide (airport_tile f ≠ None)
    then to_uint (CA_UNMODIFIED ca) else ret in
  if bool_decide (ret ≠ to_uint CA_NONE)
  then to_uint (ret + catchment_increase cfg) else ret.

(** Conversion of a [uint] to [int], as [std::max<int>] and [std::min<int>]
    do to their arguments. *)
Definition to_int (z : Z) : Z :=
  let u := z mod 2 ^ 32 in if u <? 2 ^ 31 then u else u - 2 ^ 32.

(** [MapMaxX()] and [MapMaxY()]: the largest tile coordinates of the map. *)
Definition MapMaxX (w : World) : Z := MapSizeX w - 1.
Definition MapMaxY (w : World) : Z := MapSizeY w - 1.

(** [GetCatchmentRectUsingRadius]; the result is a [Rect], the four bounds
    of which [StationRect] has as well.  The radius is a [uint], so the
    sums and differences are taken in [uint] before they are compared as
    [int]. *)
Definition GetCatchmentRectUsingRadius (w : World) (st : Station)
    (catchment_radius : Z) : Outcome StationRect :=
  if IsEmpty (rect st) then AssertFailed
  else Returns
    (mkRect (Z.max (to_int (left (rect st) - catchment_radius)) 0)
            (Z.max (to_int (top (rect st) - catchment_radius)) 0)
            (Z.min (to_int (right (rect st) + catchment_radius)) (to_int (MapMaxX w)))
            (Z.min (to_int (bottom (rect st) + catchment_radius)) (to_int (MapMaxY w)))).

(** [CatchmentCoversTown]: some tile of the catchment is a house of town
    [t]. *)
Definition CatchmentCoversTown (w : World) (st : Station) (t : TownID) : bool :=
  existsb (fun tile => IsTileType (tile_map w) tile MP_HOUSE &&
                       bool_decide (GetTownIndex (tile_map w) tile = t))
          (Bitmap_tiles (catchment_tiles st)).

(** [Pool::Iterate()]: the items of a pool in the order of their indices. *)
Definition Pool_Iterate {V} (p : gmap N V) : list N :=
  merge_sort N.le (elements (dom p)).

Definition RecomputeCatchmentForAll (ca : CatchmentArea) (cfg : StationSettings)
    (w : World) : Outcome World :=
  let w := with_towns ((fun _ => mkTown ∅) <$> towns w) w in
  let w := with_industries (set_stations_near ∅ <$> industries w) w in
  for_each (fun w' st => RecomputeCatchment ca cfg w' st true)
           (Pool_Iterate (stations w)) w.

(** [IsWithinRangeOfDockingTile].  [DistanceManhattan] is a function of
    map.cpp, which is not part of the sources: it is a parameter here.
    [xy] is the tile of the station sign and [docking_tiles] the list of
    the docking tiles of the station; [max_distance] is a [uint]. *)
Definition IsWithinRangeOfDockingTile (DistanceManhattan : TileIndex -> TileIndex -> Z)
    (cfg : StationSettings) (xy : TileIndex) (docking_tiles : list TileIndex)
    (tile : TileIndex) (max_distance : Z) : bool :=
  if DistanceManhattan xy tile >? to_uint (station_spread cfg + max_distance) then false
  else existsb (fun dock_tile => DistanceManhattan dock_tile tile <=? max_distance)
               docking_tiles.

(** ** The older station.cpp: the industries near a station *)




(** [GetCatchmentRadius] of the older station.cpp: no radius bonus, and the
    dock is the single tile [dock_tile], for which the field
    [ship_station_tile] stands here. *)
Definition GetCatchmentRadius_old (ca : CatchmentArea) (cfg : StationSettings)
    (st : Station) (f : StationFacilities) : Z :=
  let ret := to_uint CA_NONE in
  if modified_catchment cfg then
    let ret := max_if (bus_stops f) (CA_BUS ca) ret in
    let ret := max_if (truck_stops f) (CA_TRUCK ca) ret in
    let ret := max_if (train_station_tile f) (CA_TRAIN ca) ret in
    let ret := max_if (ship_station_tile f) (CA_DOCK ca) ret in
    max_if (airport_tile f) (airport_catchment st) ret
  else if bool_decide (bus_stops f ≠ None) || bool_decide (truck_stops f ≠ None) ||
          bool_decide (train_station_tile f ≠ None) ||
          bool_decide (ship_station_tile f ≠ None) ||
          bool_decide (airport_tile f ≠ None)
  then to_uint (CA_UNMODIFIED ca) else ret.

(** [GetCatchmentRect] of the older station.cpp: the radius is taken from
    [GetCatchmentRadius] and held in an [int]. *)
Definition GetCatchmentRect_old (ca : CatchmentArea) (cfg : StationSettings)
    (w : World) (st : Station) (f : StationFacilities) : Outcome StationRect :=
  if IsEmpty (rect st) then AssertFailed
  else
    let catchment_radius := to_int (GetCatchmentRadius_old ca cfg st f) in
    Returns
      (mkRect (Z.max (left (rect st) - catchment_radius) 0)
              (Z.max (top (rect st) - catchment_radius) 0)
              (Z.min (right (rect st) + catchment_radius) (to_int (MapMaxX w)))
              (Z.min (bottom (rect st) + catchment_radius) (to_int (MapMaxY w)))).

(** ** Vocabulary of the further properties *)

(** The rect of a single tile. *)
Definition rect_of_tile (tile : TileIndex) : StationRect :=
  mkRect (TileX tile) (TileY tile) (TileX tile) (TileY tile).

(** The test of [BeforeAddTile] on the dimensions of the new rect. *)
Definition exceeds (cfg : StationSettings) (r : StationRect) : bool :=
  (right r - left r + 1 >? station_spread cfg) ||
  (bottom r - top r + 1 >? station_spread cfg).

(** The rect [r'] lies within the rect [r]. *)
Definition within (r' r : StationRect) : Prop :=
  left r <= left r' ∧ right r' <= right r ∧ top r <= top r' ∧ bottom r' <= bottom r.


(** The station has the facility that tiles of the functional type [ty]
    belong to.  [GetCatchmentRadius] has no case for the tiles of an oil
    rig. *)
Definition facility_present (f : StationFacilities) (ty : StationType) : bool :=
  match ty with
  | STATION_RAIL => bool_decide (train_station_tile f ≠ None)
  | STATION_AIRPORT => bool_decide (airport_tile f ≠ None)
  | STATION_TRUCK => bool_decide (truck_stops f ≠ None)
  | STATION_BUS => bool_decide (bus_stops f ≠ None)
  | STATION_DOCK => bool_decide (ship_station_tile f ≠ None)
  | STATION_OILRIG => false
  | STATION_BUOY | STATION_WAYPOINT => true
  end.

(** The tile is a house of town [t]. *)
Definition house_of (m : TileMap) (t : TownID) (tile : TileIndex) : bool :=
  IsTileType m tile MP_HOUSE && bool_decide (GetTownIndex m tile = t).

(** The rect lies on the map, and the map is no larger than the largest map
    of the game. *)
Definition rect_in_map (w : World) (r : StationRect) : Prop :=
  0 <= left r ∧ right r <= MapMaxX w ∧ 0 <= top r ∧ bottom r <= MapMaxY w ∧
  MapSizeX w <= 2 ^ 20 ∧ MapSizeY w <= 2 ^ 20.

(** The town of a house tile gains the station. *)
Definition add_station (s : StationID) (t : Town) : Town :=
  mkTown ({[s]} ∪ town_stations_near t).

(** The nearby list of town [t] after the walk over the tiles [tiles]. *)
Definition town_after (m : TileMap) (s : StationID) (tiles : list TileIndex)
    (t : TownID) (tn : Town) : Town :=
  if existsb (house_of m t) tiles then add_station s tn else tn.

(** The tile is a station tile of station [s], as the loops of
    [RecomputeCatchment] count them. *)
Definition counted_tile (m : TileMap) (s : StationID) (tile : TileIndex) : bool :=
  IsTileType m tile MP_STATION && bool_decide (GetStationIndex m tile = s).

(** The state of [RecomputeCatchmentForAll] once the stations [done] have
    been dealt with, [w] being the world at the start: the nearby lists
    hold these stations only, each of them is on the list of every industry
    it lists itself, every industry that accepts cargo is listed by the
    stations on its list, the towns list the stations whose catchment holds
    one of their houses, and the catchment of each station is what
    [RecomputeCatchment] makes it. *)
Definition all_recomputed (ca : CatchmentArea) (cfg : StationSettings)
    (w : World) (done : list StationID) (w' : World) : Prop :=
  pools_valid w' ∧ same_static w w' ∧
  (∀ s st i, s ∈ done → stations w' !! s = Some st → i ∈ industries_near st →
             ∃ ind, industries w' !! i = Some ind ∧ s ∈ stations_near ind) ∧
  (∀ i ind x, industries w' !! i = Some ind → x ∈ stations_near ind → x ∈ done) ∧
  near_backward w' ∧
  (∀ t tn x, towns w' !! t = Some tn →
             x ∈ town_stations_near tn ↔
             x ∈ done ∧ ∃ st, stations w' !! x = Some st ∧
                              CatchmentCoversTown w' st t = true) ∧
  (∀ s st t, s ∈ done → stations w' !! s = Some st →
             t ∈ catchment_tiles st ↔ in_catchment ca cfg w s t).

(** Every node of every link graph stands for a station of the pool. *)
Definition nodes_valid (w : World) : Prop :=
  ∀ g lg x, link_graphs w !! g = Some lg → x ∈ lg_nodes lg → is_Some (stations w !! x).

(** What the loops of the destructor keep: the station itself and the
    stations of the pool, the validity of the link graphs, and the
    industries and towns. *)
Definition teardown_frame (this : StationID) (w w' : World) : Prop :=
  is_Some (stations w' !! this) ∧ nodes_valid w' ∧
  (∀ x, is_Some (stations w' !! x) ↔ is_Some (stations w !! x)) ∧
  industries w' = industries w ∧ towns w' = towns w ∧ tile_map w' = tile_map w.

(** The distance of the point [(x, y)] to the rect in the maximum norm:
    the larger of its distances along the two axes. *)
Definition rect_distance (r : StationRect) (x y : Z) : Z :=
  Z.max 0 (Z.max (Z.max (left r - x) (x - right r)) (Z.max (top r - y) (y - bottom r))).

(** ** Further examples *)

(** The facilities of a station with a rail station only. *)
Definition ex_facilities : StationFacilities :=
  mkFacilities None None (Some (TileXY 10 10)) None None.

(** [ex_world] with station 1 on the nearby lists of industry 2 and of
    town 3. *)
Definition ex_world_listed : World :=
  mkWorld ex_map 64 64 {[1%N := ex_station]}
          {[2%N := set_stations_near {[1%N; 7%N]} ex_industry]}
          {[3%N := mkTown {[1%N]}]} ∅ [].


(** ** Tactics for the example worlds *)

(** A pool lookup, and the truth or falsity of a decidable statement, by
    evaluation. *)
Ltac solve_is_Some := eexists; vm_compute; reflexivity.
Ltac compute_true := apply (proj1 (bool_decide_eq_true _)); vm_compute; reflexivity.
Ltac compute_false := apply (proj1 (bool_decide_eq_false _)); vm_compute; reflexivity.


(** * Properties *)

(** ** StationRect *)

Section StationRect_props.
Context (cfg : StationSettings).

Lemma PtInExtendedRect_true r x y :
  PtInExtendedRect r x y 0 = true ↔
  left r <= x <= right r ∧ top r <= y <= bottom r.
Proof. unfold PtInExtendedRect. rewrite !andb_true_iff, !Z.leb_le. lia. Qed.

Lemma IsEmpty_false r :
  IsEmpty r = false ↔ left r ≠ 0 ∧ left r <= right r ∧ top r <= bottom r.
Proof.
  unfold IsEmpty. rewrite !orb_false_iff, Z.eqb_neq, !Z.gtb_ltb, !Z.ltb_ge. lia.
Qed.

Lemma cover_inside r tile :
  PtInExtendedRect r (TileX tile) (TileY tile) 0 = true → cover r tile = r.
Proof.
  rewrite PtInExtendedRect_true. intros H. unfold cover. destruct r; simpl in *.
  f_equal; lia.
Qed.

Lemma too_spread_test r tile :
  too_spread cfg (cover r tile) →
  (right (cover r tile) - left (cover r tile) + 1 >? station_spread cfg)
  || (bottom (cover r tile) - top (cover r tile) + 1 >? station_spread cfg) = true.
Proof. unfold too_spread. rewrite orb_true_iff, !Z.gtb_ltb, !Z.ltb_lt. lia. Qed.

End StationRect_props.

(** C1 as stated fails: in [ADD_TRY] mode a tile that would make the rect too
    spread out stops at [assert(mode != ADD_TRY)]; no failure is returned. *)
Lemma BeforeAddTile_try_asserts :
  let cfg := mkSettings 12 true 0 false in
  let r := mkRect 5 5 6 6 in
  let tile := TileXY 40 5 in
  IsEmpty r = false ∧ too_spread cfg (cover r tile) ∧
  BeforeAddTile cfg r tile ADD_TRY = AssertFailed ∧
  ¬ (∃ r', BeforeAddTile cfg r tile ADD_TRY =
             Returns (CommandCost_error STR_ERROR_STATION_TOO_SPREAD_OUT, r')).
Proof.
  simpl. repeat split.
  - left. simpl. lia.
  - intros [r' H]. vm_compute in H. discriminate.
Qed.

(** C1, amended: for a non-empty rect and a tile outside it whose inclusion
    makes the width or the height exceed the maximum spread, [BeforeAddTile]
    returns the "too spread out" failure with the rect unchanged in
    [ADD_TEST] mode, stops at its assertion in [ADD_TRY] mode, and in
    [ADD_FORCE] mode succeeds with the minimal rect covering the old rect
    and the tile. *)
Theorem BeforeAddTile_spread_limit cfg r tile :
  IsEmpty r = false →
  PtInExtendedRect r (TileX tile) (TileY tile) 0 = false →
  too_spread cfg (cover r tile) →
  BeforeAddTile cfg r tile ADD_TEST =
    Returns (CommandCost_error STR_ERROR_STATION_TOO_SPREAD_OUT, r) ∧
  BeforeAddTile cfg r tile ADD_TRY = AssertFailed ∧
  BeforeAddTile cfg r tile ADD_FORCE = Returns (CommandCost_ok, cover r tile).
Proof.
  intros Hne Hout Hsp. apply too_spread_test in Hsp. unfold cover in Hsp.
  unfold BeforeAddTile. rewrite Hne, Hout. cbn [negb]. cbv zeta.
  rewrite Hsp. repeat split.
Qed.

(** [BeforeAddTile_spread_limit] at the rect (5,5)-(6,6), the tile (40, 5)
    and a maximum spread of 12. *)
Lemma BeforeAddTile_spread_limit_witness :
  let cfg := mkSettings 12 true 0 false in
  let r := mkRect 5 5 6 6 in
  let tile := TileXY 40 5 in
  BeforeAddTile cfg r tile ADD_TEST =
    Returns (CommandCost_error STR_ERROR_STATION_TOO_SPREAD_OUT, r) ∧
  BeforeAddTile cfg r tile ADD_TRY = AssertFailed ∧
  BeforeAddTile cfg r tile ADD_FORCE = Returns (CommandCost_ok, cover r tile).
Proof.
  apply (BeforeAddTile_spread_limit (mkSettings 12 true 0 false) (mkRect 5 5 6 6) (TileXY 40 5)).
  - reflexivity.
  - reflexivity.
  - left. simpl. lia.
Defined.

(** C2: a block wider than the maximum spread, offered in [ADD_TEST] mode
    next to a rect it would stretch beyond the spread, is accepted by
    [BeforeAddRect] (success, rect unchanged), although [BeforeAddTile]
    rejects the far corner of the very same block. *)
Lemma BeforeAddRect_oversized_block_accepted :
  let cfg := mkSettings 12 true 0 false in
  let r := mkRect 5 5 6 6 in
  BeforeAddRect cfg r (TileXY 5 5) 13 1 ADD_TEST = Returns (CommandCost_ok, r) ∧
  BeforeAddRect cfg r (TileXY 5 5) 13 1 ADD_TRY = Returns (CommandCost_ok, r) ∧
  BeforeAddTile cfg r (TILE_ADDXY (TileXY 5 5) (13 - 1) (1 - 1)) ADD_TEST =
    Returns (CommandCost_error STR_ERROR_STATION_TOO_SPREAD_OUT, r).
Proof. repeat split. Qed.

(** Whatever the block, if it is wider or higher than the maximum spread and
    the mode is not [ADD_FORCE], [BeforeAddRect] reports success and leaves
    the rect as it is. *)
Lemma BeforeAddRect_oversized cfg r tile w h mode :
  mode ≠ ADD_FORCE →
  w > station_spread cfg ∨ h > station_spread cfg →
  BeforeAddRect cfg r tile w h mode = Returns (CommandCost_ok, r).
Proof.
  intros Hm Hwh. unfold BeforeAddRect.
  rewrite bool_decide_eq_false_2 by done.
  replace ((w <=? station_spread cfg) && (h <=? station_spread cfg)) with false; [done|].
  symmetry. apply andb_false_iff. rewrite !Z.leb_gt. lia.
Qed.

(** ** Shrinking the rect *)

(** The tiles of a block. *)
Lemma elem_of_TileArea_tiles ta t :
  t ∈ TileArea_tiles ta ↔
  TileX (ta_tile ta) <= TileX t < TileX (ta_tile ta) + ta_w ta ∧
  TileY (ta_tile ta) <= TileY t < TileY (ta_tile ta) + ta_h ta.
Proof.
  unfold TileArea_tiles. rewrite list_elem_of_bind. split.
  - intros (y & (x & Ht & Hx)%list_elem_of_bind & Hy).
    apply list_elem_of_singleton in Ht. subst t.
    apply elem_of_seqZ in Hx, Hy. cbn. lia.
  - intros [Hx Hy]. exists (TileY t). split; [|apply elem_of_seqZ; lia].
    apply list_elem_of_bind. exists (TileX t). split; [|apply elem_of_seqZ; lia].
    apply list_elem_of_singleton. by destruct t.
Qed.

Lemma is_station_tile_of_counts m sid t :
  is_station_tile_of m sid t = tile_counts sid (m t).
Proof. reflexivity. Qed.

Lemma is_station_tile_of_set m sid t c t' :
  is_station_tile_of (SetTileContent m t c) sid t' =
  if decide (t' = t) then tile_counts sid c else is_station_tile_of m sid t'.
Proof.
  rewrite !is_station_tile_of_counts. unfold SetTileContent. by destruct (decide (t' = t)).
Qed.

Lemma ScanForStationTiles_true m sid l t r b :
  ScanForStationTiles m sid l t r b = true ↔
  ∃ tile, is_station_tile_of m sid tile = true ∧
          Z.min l r <= TileX tile <= Z.max l r ∧ Z.min t b <= TileY tile <= Z.max t b.
Proof.
  unfold ScanForStationTiles. rewrite existsb_exists. split.
  - intros (tile & Hin%list_elem_of_In%elem_of_TileArea_tiles & Hst).
    exists tile. split; [done|]. cbn in Hin. lia.
  - intros (tile & Hst & Hx & Hy). exists tile. split; [|done].
    apply list_elem_of_In, elem_of_TileArea_tiles. cbn. lia.
Qed.

Section shrink.
Context (m : TileMap) (sid : StationID).

Lemma scan_column r x :
  all_in m sid r → top r <= bottom r →
  ScanForStationTiles m sid x (top r) x (bottom r) = true ↔ col_used m sid x.
Proof.
  intros Hall Htb. rewrite ScanForStationTiles_true. split.
  - intros (t & Ho & Hx & _). exists t. split; [done|]. lia.
  - intros (t & Ho & Hx). exists t. split; [done|]. destruct (Hall t Ho). lia.
Qed.

Lemma scan_row r y :
  all_in m sid r → left r <= right r →
  ScanForStationTiles m sid (left r) y (right r) y = true ↔ row_used m sid y.
Proof.
  intros Hall Hlr. rewrite ScanForStationTiles_true. split.
  - intros (t & Ho & _ & Hy). exists t. split; [done|]. lia.
  - intros (t & Ho & Hy). exists t. split; [done|]. destruct (Hall t Ho). lia.
Qed.

Lemma not_col_used c t : ¬ col_used m sid c → owned m sid t → TileX t ≠ c.
Proof. intros Hn Ho Hx. apply Hn. by exists t. Qed.

Lemma not_row_used c t : ¬ row_used m sid c → owned m sid t → TileY t ≠ c.
Proof. intros Hn Ho Hy. apply Hn. by exists t. Qed.

Lemma AfterRemoveTile_body_shrinking r x y :
  shrinking m sid r x y →
  match AfterRemoveTile_body m sid r x y with
  | inl (res, r') => settled m sid res r'
  | inr (r', x', y') =>
      shrinking m sid r' x' y' ∧
      (right r' - left r') + (bottom r' - top r') < (right r - left r) + (bottom r - top r)
  end.
Proof.
  intros (Hall & Hlr & Htb & HL & HR & HT & HB).
  pose proof (scan_column r x Hall Htb) as Hsx.
  pose proof (scan_row r y Hall Hlr) as Hsy.
  unfold AfterRemoveTile_body.
  destruct (ScanForStationTiles m sid x (top r) x (bottom r)) eqn:Esx;
  destruct (ScanForStationTiles m sid (left r) y (right r) y) eqn:Esy;
  destruct (x =? left r) eqn:E1; destruct (x =? right r) eqn:E2;
  destruct (y =? top r) eqn:E3; destruct (y =? bottom r) eqn:E4;
  cbn [negb orb andb];
  rewrite ?Z.eqb_eq, ?Z.eqb_neq in *.
  all: try (assert (Hcx : col_used m sid x) by (by apply Hsx));
       try (assert (Hcx : ¬ col_used m sid x) by (rewrite <- Hsx; congruence));
       try (assert (Hry : row_used m sid y) by (by apply Hsy));
       try (assert (Hry : ¬ row_used m sid y) by (rewrite <- Hsy; congruence)).
  all: clear Hsx Hsy Esx Esy.
  all: cbn [left right top bottom].
  all: try match goal with
       | |- context [if ?c then _ else _] => destruct c eqn:Etest
       end.
  all: try (apply orb_true_iff in Etest; rewrite !Z.gtb_ltb, !Z.ltb_lt in Etest).
  all: try (apply orb_false_iff in Etest; rewrite !Z.gtb_ltb, !Z.ltb_ge in Etest).
  all: unfold shrinking; cbn [settled left right top bottom] in *.
  all: repeat match goal with |- _ ∧ _ => split end.
  all: try lia.
  all: try reflexivity.
  all: try assumption.
  all: try (intros t Ho; pose proof (Hall t Ho) as [? ?];
            try pose proof (not_col_used _ t Hcx Ho);
            try pose proof (not_row_used _ t Hry Ho);
            unfold in_rect; cbn; lia).
  all: try solve
    [ right; cbn; lia
    | left; match goal with
      | H : col_used m sid ?a |- col_used m sid ?b => replace b with a by lia; exact H
      | H : row_used m sid ?a |- row_used m sid ?b => replace b with a by lia; exact H
      | H : col_used m sid ?a ∨ _ |- col_used m sid ?b =>
          destruct H as [H|H]; [replace b with a by lia; exact H | exfalso; lia]
      | H : row_used m sid ?a ∨ _ |- row_used m sid ?b =>
          destruct H as [H|H]; [replace b with a by lia; exact H | exfalso; lia]
      end
    | match goal with
      | H : col_used m sid ?a |- col_used m sid ?b => replace b with a by lia; exact H
      | H : row_used m sid ?a |- row_used m sid ?b => replace b with a by lia; exact H
      | H : col_used m sid ?a ∨ _ |- col_used m sid ?b =>
          destruct H as [H|H]; [replace b with a by lia; exact H | exfalso; lia]
      | H : row_used m sid ?a ∨ _ |- row_used m sid ?b =>
          destruct H as [H|H]; [replace b with a by lia; exact H | exfalso; lia]
      end ].
Qed.

Lemma AfterRemoveTile_body_decreases r x y r' x' y' :
  AfterRemoveTile_body m sid r x y = inr (r', x', y') →
  0 <= span r' < span r.
Proof.
  unfold AfterRemoveTile_body, span.
  destruct (ScanForStationTiles m sid x (top r) x (bottom r));
  destruct (ScanForStationTiles m sid (left r) y (right r) y);
  destruct (x =? left r) eqn:E1; destruct (x =? right r) eqn:E2;
  destruct (y =? top r) eqn:E3; destruct (y =? bottom r) eqn:E4;
  cbn [negb orb andb]; try discriminate;
  rewrite ?Z.eqb_eq, ?Z.eqb_neq in *;
  cbn [left right top bottom];
  match goal with
  | |- context [if ?c then _ else _] => destruct c eqn:Etest
  end; try discriminate;
  apply orb_false_iff in Etest; rewrite !Z.gtb_ltb, !Z.ltb_ge in Etest;
  intros [= <- <- <-]; cbn; lia.
Qed.

Lemma AfterRemoveTile_loop_returns fuel r x y :
  span r < Z.of_nat fuel → (0 < fuel)%nat →
  ∃ res, AfterRemoveTile_loop fuel m sid r x y = Some res.
Proof.
  revert r x y. induction fuel as [|fuel IH]; intros r x y Hspan Hpos; [lia|].
  cbn [AfterRemoveTile_loop].
  destruct (AfterRemoveTile_body m sid r x y) as [res|[[r' x'] y']] eqn:Hbody; [eauto|].
  apply AfterRemoveTile_body_decreases in Hbody. apply IH; lia.
Qed.

Lemma AfterRemoveTile_loop_settled fuel r x y res r' :
  shrinking m sid r x y →
  AfterRemoveTile_loop fuel m sid r x y = Some (res, r') → settled m sid res r'.
Proof.
  revert r x y. induction fuel as [|fuel IH]; intros r x y Hinv; [discriminate|].
  cbn [AfterRemoveTile_loop].
  pose proof (AfterRemoveTile_body_shrinking r x y Hinv) as Hbody.
  destruct (AfterRemoveTile_body m sid r x y) as [[res0 r0]|[[r0 x0] y0]].
  - intros [= <- <-]. exact Hbody.
  - destruct Hbody as [Hinv' _]. by apply IH.
Qed.
End shrink.

(** [AfterRemoveTile] returns: its loop comes to an end for every rect and
    tile. *)
Lemma AfterRemoveTile_returns m sid r tile :
  ∃ res, AfterRemoveTile m sid r tile = Some res.
Proof.
  unfold AfterRemoveTile. apply AfterRemoveTile_loop_returns.
  - unfold span, AfterRemoveTile_fuel. lia.
  - unfold AfterRemoveTile_fuel. lia.
Qed.

Lemma BeforeAddTile_commit cfg r tile mode r' :
  mode ≠ ADD_TEST →
  BeforeAddTile cfg r tile mode = Returns (CommandCost_ok, r') →
  r' = if IsEmpty r then mkRect (TileX tile) (TileY tile) (TileX tile) (TileY tile)
       else cover r tile.
Proof.
  intros Hmode. unfold BeforeAddTile.
  rewrite (bool_decide_eq_true_2 _ Hmode).
  destruct (IsEmpty r); [by intros [= <-]|].
  destruct (PtInExtendedRect r (TileX tile) (TileY tile) 0) eqn:Hin; cbn [negb].
  - intros [= <-]. symmetry. destruct r as [l t rr b].
    apply andb_true_iff in Hin as [[[H1 H2]%andb_true_iff H3]%andb_true_iff H4].
    apply Z.leb_le in H1, H2, H3, H4. unfold cover. cbn in *. f_equal; lia.
  - match goal with |- context [if ?c then _ else _] => destruct c end.
    + destruct (bool_decide (mode ≠ ADD_TRY)); discriminate.
    + by intros [= <-].
Qed.

Lemma owned_set_counts m sid tile c t :
  tile_counts sid c = true →
  owned (SetTileContent m tile c) sid t ↔ t = tile ∨ owned m sid t.
Proof.
  intros Hc. unfold owned. rewrite is_station_tile_of_set.
  destruct (decide (t = tile)); [rewrite Hc|]; tauto.
Qed.

Lemma owned_set_not_counts m sid tile c t :
  tile_counts sid c = false →
  owned (SetTileContent m tile c) sid t ↔ t ≠ tile ∧ owned m sid t.
Proof.
  intros Hc. unfold owned. rewrite is_station_tile_of_set.
  destruct (decide (t = tile)); [rewrite Hc|]; split; try tauto; try discriminate.
Qed.

Lemma rect_step_inv cfg sid s s' :
  rect_step cfg sid (fun t => TileX t ≠ 0) s s' → rect_inv sid s → rect_inv sid s'.
Proof.
  intros Hstep [Hx Hinv]. destruct Hstep as [m r tile mode c r' Hok Hmode Hadd Hc
                                             |m r tile c res r' Hown Hc Hrem]; cbn in *.
  - apply BeforeAddTile_commit in Hadd; [|done]. split.
    { intros t [->|Ho]%owned_set_counts; [done | by apply Hx | done]. }
    cbn. destruct (IsEmpty r) eqn:He.
    + subst r'. unfold IsEmpty. cbn.
      replace (TileX tile =? 0) with false by (symmetry; by apply Z.eqb_neq).
      rewrite !Z.gtb_ltb, !Z.ltb_irrefl. cbn.
      assert (Hone : ∀ t, owned (SetTileContent m tile c) sid t → t = tile).
      { intros t [?|Ho]%owned_set_counts; [done| |done]. by destruct (Hinv t). }
      assert (Ht : owned (SetTileContent m tile c) sid tile) by (apply owned_set_counts; auto).
      split; [intros t Ho; apply Hone in Ho; subst; unfold in_rect; cbn; lia|].
      cbn. split; [lia|]. split; [lia|]. repeat split; by exists tile.
    + apply IsEmpty_false in He as (Hl & Hlr & Htb).
      destruct Hinv as (Hall & _ & _ & (tl & Htl & Hxl) & (tr & Htr & Hxr)
                        & (tt & Htt & Hyt) & (tb & Htb' & Hyb)).
      assert (Ht : owned (SetTileContent m tile c) sid tile) by (apply owned_set_counts; auto).
      assert (Hkeep : ∀ t, owned m sid t → owned (SetTileContent m tile c) sid t).
      { intros t Ho. apply owned_set_counts; auto. }
      subst r'. replace (IsEmpty (cover r tile)) with false.
      2:{ symmetry. apply IsEmpty_false. unfold cover. cbn. lia. }
      unfold cover. cbn.
      split.
      { intros t [->|Ho]%owned_set_counts; [unfold in_rect; cbn; lia | | done].
        destruct (Hall t Ho) as [? ?]. unfold in_rect. cbn. lia. }
      split; [lia|]. split; [lia|]. split; [|split; [|split]].
      * destruct (Z.min_spec (TileX tile) (left r)) as [[_ ->]|[_ ->]];
          [by exists tile | exists tl; auto].
      * destruct (Z.max_spec (TileX tile) (right r)) as [[_ ->]|[_ ->]];
          [exists tr; auto | by exists tile].
      * destruct (Z.min_spec (TileY tile) (top r)) as [[_ ->]|[_ ->]];
          [by exists tile | exists tt; auto].
      * destruct (Z.max_spec (TileY tile) (bottom r)) as [[_ ->]|[_ ->]];
          [exists tb; auto | by exists tile].
  - assert (Hx' : ∀ t, owned (SetTileContent m tile c) sid t → TileX t ≠ 0).
    { intros t [_ Ho]%owned_set_not_counts; [by apply Hx | done]. }
    split; [exact Hx'|]. cbn.
    destruct (IsEmpty r) eqn:He; [by destruct (Hinv tile)|].
    destruct Hinv as (Hall & Hlr & Htb & (tl & Htl & Hxl) & (tr & Htr & Hxr)
                      & (tt & Htt & Hyt) & (tb & Htb' & Hyb)).
    assert (Hkeep : ∀ t, owned m sid t → t = tile ∨ owned (SetTileContent m tile c) sid t).
    { intros t Ho. destruct (decide (t = tile)); [by left|]. right.
      by apply owned_set_not_counts. }
    assert (Hshr : shrinking (SetTileContent m tile c) sid r (TileX tile) (TileY tile)).
    { split; [intros t [_ Ho]%owned_set_not_counts; [by apply Hall | done]|].
      split; [done|]. split; [done|]. split; [|split; [|split]].
      - destruct (Hkeep tl Htl) as [->|?]; [by right | left; by exists tl].
      - destruct (Hkeep tr Htr) as [->|?]; [by right | left; by exists tr].
      - destruct (Hkeep tt Htt) as [->|?]; [by right | left; by exists tt].
      - destruct (Hkeep tb Htb') as [->|?]; [by right | left; by exists tb]. }
    pose proof (AfterRemoveTile_loop_settled _ _ _ _ _ _ _ _ Hshr Hrem) as Hset.
    destruct res; cbn in Hset.
    + destruct Hset as [-> Hnone]. done.
    + pose proof Hset as (_ & ? & ? & (t & Ht & Hxt) & _).
      replace (IsEmpty r') with false; [done|].
      symmetry. apply IsEmpty_false. pose proof (Hx' t Ht). lia.
Qed.

Lemma reachable_inv cfg sid s :
  reachable cfg sid (fun t => TileX t ≠ 0) s → rect_inv sid s.
Proof.
  induction 1 as [m Hnone|s s' _ IH Hstep].
  - split; cbn; intros t Ho; unfold owned in Ho; by rewrite Hnone in Ho.
  - by eapply rect_step_inv.
Qed.

(** C3, amended: in every state reached through [BeforeAddTile] (in a
    committing mode) and [AfterRemoveTile] in which no tile with X
    coordinate 0 is added, the rect is classified empty if and only if the
    station owns no tile. *)
Theorem rect_empty_iff_no_tiles cfg sid s :
  reachable cfg sid (fun t => TileX t ≠ 0) s →
  IsEmpty (rs_rect s) = true ↔ owns_no_tile sid s.
Proof.
  intros [_ Hinv]%reachable_inv. unfold owns_no_tile.
  destruct (IsEmpty (rs_rect s)).
  - split; [|done]. intros _ t. specialize (Hinv t). unfold owned in Hinv.
    by destruct (is_station_tile_of (rs_map s) sid t).
  - split; [done|]. intros Hnone.
    destruct Hinv as (_ & _ & _ & (t & Ht & _) & _). unfold owned in Ht.
    by rewrite Hnone in Ht.
Qed.

(** ** Catchment radius of a tile *)

Lemma to_uint_small z : 0 <= z < 2 ^ 32 → to_uint z = z.
Proof. intros H. unfold to_uint. apply Z.mod_small. exact H. Qed.

Lemma GetTileCatchmentRadius_eq ca cfg m tile st :
  IsTileType m tile MP_STATION = true →
  radii_in_range ca cfg (airport_catchment st) →
  GetTileCatchmentRadius ca cfg m tile st =
    Returns (tile_radius_spec ca cfg (GetStationType m tile) (airport_catchment st)).
Proof.
  intros Hty (Hinc & Hbus & Htruck & Htrain & Hdock & Hunm & Hair).
  unfold GetTileCatchmentRadius, tile_radius_spec, CA_NONE. rewrite Hty. cbn [negb].
  assert (Hz : to_uint 0 = 0) by reflexivity.
  destruct (modified_catchment cfg), (GetStationType m tile); cbn;
    rewrite ?Hz; try reflexivity; rewrite to_uint_small; try reflexivity; lia.
Qed.


(** C9: on a station tile, [GetTileCatchmentRadius] returns the radius the
    spec describes, a function of the functional type of the tile, of the
    radius of the station's airport specification and of the settings
    only. *)
Theorem GetTileCatchmentRadius_spec ca cfg m tile st :
  IsTileType m tile MP_STATION = true →
  radii_in_range ca cfg (airport_catchment st) →
  GetTileCatchmentRadius ca cfg m tile st =
    Returns (tile_radius_spec ca cfg (GetStationType m tile) (airport_catchment st)).
Proof. apply GetTileCatchmentRadius_eq. Qed.

(** [GetTileCatchmentRadius_spec] at an airport tile: radius 8 of the
    airport specification plus the bonus 2. *)
Lemma GetTileCatchmentRadius_spec_witness :
  let ca := mkCatchmentArea 3 3 4 5 4 in
  let cfg := mkSettings 12 true 2 false in
  let m : TileMap := fun _ => mkTile MP_STATION 7 STATION_AIRPORT in
  let st := mkStation (mkRect 3 3 3 3) ∅ ∅ None 0 8 (fun _ => mkGoods 0%N 0%nat ∅) in
  GetTileCatchmentRadius ca cfg m (TileXY 3 3) st = Returns 10.
Proof.
  apply (GetTileCatchmentRadius_spec (mkCatchmentArea 3 3 4 5 4)
           (mkSettings 12 true 2 false)
           (fun _ => mkTile MP_STATION 7 STATION_AIRPORT) (TileXY 3 3)
           (mkStation (mkRect 3 3 3 3) ∅ ∅ None 0 8 (fun _ => mkGoods 0%N 0%nat ∅))).
  - reflexivity.
  - unfold radii_in_range. simpl. lia.
Defined.

(** ** Pools and loops *)

Lemma pool_get_Some `{Countable K} {V} (p : gmap K V) k v :
  p !! k = Some v → pool_get p k = Returns v.
Proof. intros Hk. unfold pool_get. by rewrite Hk. Qed.

Lemma pool_get_Returns `{Countable K} {V} (p : gmap K V) k v :
  pool_get p k = Returns v → p !! k = Some v.
Proof. unfold pool_get. destruct (p !! k); [congruence | discriminate]. Qed.

Lemma stations_upd_station s f w s' :
  stations (upd_station s f w) !! s' =
  if decide (s = s') then f <$> stations w !! s else stations w !! s'.
Proof. unfold upd_station. cbn. apply lookup_alter. Qed.

Lemma stations_upd_station_eq s f w st :
  stations w !! s = Some st → stations (upd_station s f w) !! s = Some (f st).
Proof. intros Hs. rewrite stations_upd_station, decide_True by done. by rewrite Hs. Qed.

Lemma stations_upd_station_ne s f w s' :
  s ≠ s' → stations (upd_station s f w) !! s' = stations w !! s'.
Proof. intros Hs. by rewrite stations_upd_station, decide_False. Qed.

(** Two successive writes to one station are one write. *)
Lemma upd_station_compose s f g w :
  upd_station s f (upd_station s g w) = upd_station s (f ∘ g) w.
Proof.
  unfold upd_station, with_stations. cbn. f_equal.
  apply map_eq. intros j. destruct (decide (s = j)) as [->|Hne].
  - rewrite !lookup_alter_eq. by destruct (stations w !! j).
  - by rewrite !lookup_alter_ne.
Qed.

(** A loop whose body keeps an invariant over the items already visited
    returns, and the invariant holds of all its items at the end. *)
Lemma for_each_ind {A S : Type} (body : S → A → Outcome S)
    (P : list A → S → Prop) (l : list A) (s0 : S) :
  P [] s0 →
  (∀ pre a s, P pre s → a ∈ l → ∃ s', body s a = Returns s' ∧ P (pre ++ [a]) s') →
  ∃ s', for_each body l s0 = Returns s' ∧ P l s'.
Proof.
  revert P s0. induction l as [|a l IH]; intros P s0 H0 Hstep.
  - exists s0. done.
  - destruct (Hstep [] a s0 H0) as (s1 & Hb & H1); [apply list_elem_of_here|].
    cbn [for_each]. rewrite Hb. cbn.
    apply (IH (fun pre s => P (a :: pre) s) s1 H1).
    intros pre a' s Hp Hin.
    destruct (Hstep (a :: pre) a' s Hp) as (s' & ? & ?); [by apply list_elem_of_further|].
    exists s'. done.
Qed.

(** The same for a loop whose body always returns. *)
Lemma foldl_ind {A S : Type} (body : S → A → S)
    (P : list A → S → Prop) (l : list A) (s0 : S) :
  P [] s0 →
  (∀ pre a s, P pre s → a ∈ l → P (pre ++ [a]) (body s a)) →
  P l (foldl body s0 l).
Proof.
  revert P s0. induction l as [|a l IH]; intros P s0 H0 Hstep; [done|].
  cbn [foldl]. apply (IH (fun pre s => P (a :: pre) s)).
  - apply (Hstep [] a s0 H0), list_elem_of_here.
  - intros pre a' s Hp Hin. apply (Hstep (a :: pre) a' s Hp). by apply list_elem_of_further.
Qed.

(** ** RecomputeCatchment on a station without tiles *)

(** C10: on a station whose rect is empty, [RecomputeCatchment] returns with
    the catchment bitmap reset (no tile in it) and [industries_near]
    cleared, and leaves [station_tiles] at the value it had. *)
Theorem RecomputeCatchment_empty_rect ca cfg w this st no_clear :
  stations w !! this = Some st →
  IsEmpty (rect st) = true →
  ∃ w' st', RecomputeCatchment ca cfg w this no_clear = Returns w' ∧
            stations w' !! this = Some st' ∧
            catchment_tiles st' = ∅ ∧
            industries_near st' = ∅ ∧
            station_tiles st' = station_tiles st.
Proof.
  intros Hst Hempty. unfold RecomputeCatchment, Station_Get.
  rewrite (pool_get_Some _ _ _ Hst). cbn.
  set (w1 := if negb no_clear then _ else _).
  assert (H1 : stations w1 !! this = Some (set_industries_near ∅ st)).
  { subst w1. destruct no_clear; cbn; by rewrite lookup_alter_eq, Hst. }
  rewrite (pool_get_Some _ _ _ H1). cbn. rewrite Hempty.
  eexists _, _. split; [reflexivity|]. split.
  - by apply stations_upd_station_eq.
  - done.
Qed.

(** ** RecomputeCatchment in general *)

Lemma upd_station_put s f w st :
  stations w !! s = Some st → upd_station s f w = put_station s (f st) w.
Proof.
  intros Hs. unfold upd_station, put_station. f_equal.
  apply map_eq. intros j. rewrite lookup_alter, lookup_insert.
  case_decide; [by rewrite Hs | done].
Qed.

Lemma put_station_put s st st' w :
  put_station s st' (put_station s st w) = put_station s st' w.
Proof. unfold put_station, with_stations. cbn. f_equal. apply insert_insert_eq. Qed.

Lemma stations_put_station s st w : stations (put_station s st w) !! s = Some st.
Proof. cbn. apply lookup_insert_eq. Qed.

Lemma put_station_id s st w : stations w !! s = Some st → put_station s st w = w.
Proof.
  intros Hs. unfold put_station, with_stations. rewrite insert_id by done. by destruct w.
Qed.

Lemma GetTileCatchmentRadius_airport ca cfg m tile st st' :
  airport_catchment st = airport_catchment st' →
  GetTileCatchmentRadius ca cfg m tile st = GetTileCatchmentRadius ca cfg m tile st'.
Proof. intros H. unfold GetTileCatchmentRadius. by rewrite H. Qed.

Lemma catchment_tile_step_spec ca cfg s w tile st :
  stations w !! s = Some st →
  ∃ st', catchment_tile_step ca cfg s w tile = Returns (put_station s st' w) ∧
    static_station st' = static_station st ∧
    industries_near st' = industries_near st ∧
    (∀ t, t ∈ catchment_tiles st' ↔
          t ∈ catchment_tiles st ∨
          (station_tile_of w s tile ∧
           ∃ r, GetTileCatchmentRadius ca cfg (tile_map w) tile st = Returns r ∧
                r ≠ CA_NONE ∧
                t ∈ TileArea_tiles (TileArea_Expand w (mkTileArea tile 1 1) r))).
Proof.
  intros Hs. unfold catchment_tile_step.
  destruct (IsTileType (tile_map w) tile MP_STATION) eqn:Hty; cbn [negb orb].
  2:{ exists st. rewrite put_station_id by done. repeat split; auto.
      intros [? | [[? _] _]]; [done | congruence]. }
  destruct (bool_decide (GetStationIndex (tile_map w) tile ≠ s)) eqn:Hidx.
  { apply bool_decide_eq_true in Hidx.
    exists st. rewrite put_station_id by done. repeat split; auto.
    intros [? | [[_ ?] _]]; [done | congruence]. }
  apply bool_decide_eq_false in Hidx. apply dec_stable in Hidx.
  rewrite (upd_station_put _ _ _ _ Hs).
  set (st1 := set_station_tiles _ st).
  unfold Station_Get. rewrite (pool_get_Some _ _ _ (stations_put_station s st1 w)). cbn.
  change (tile_map (put_station s st1 w)) with (tile_map w).
  rewrite (GetTileCatchmentRadius_airport ca cfg (tile_map w) tile st1 st) by done.
  destruct (GetTileCatchmentRadius ca cfg (tile_map w) tile st) as [r|] eqn:Hr.
  2:{ unfold GetTileCatchmentRadius in Hr. rewrite Hty in Hr. cbn in Hr.
      by destruct (modified_catchment cfg), (GetStationType (tile_map w) tile). }
  cbn. destruct (r =? CA_NONE) eqn:Hr0.
  { apply Z.eqb_eq in Hr0. exists st1. repeat split; auto.
    intros [? | [_ (r' & Hr' & ? & _)]]; [done | congruence]. }
  apply Z.eqb_neq in Hr0.
  set (l := TileArea_tiles _).
  pose proof (foldl_ind
    (fun w' tile2 => upd_station s
       (fun st => set_catchment_tiles (Bitmap_SetTile tile2 (catchment_tiles st)) st) w')
    (fun pre w' => ∃ st', w' = put_station s st' w ∧
        static_station st' = static_station st ∧
        industries_near st' = industries_near st ∧
        ∀ t, t ∈ catchment_tiles st' ↔ t ∈ catchment_tiles st ∨ t ∈ pre)
    l (put_station s st1 w)) as Hfold.
  destruct Hfold as (st' & -> & Hstat & Hnear & Hcat).
  - exists st1. repeat split; auto. intros [?|?%elem_of_nil]; done.
  - intros pre a w' (st' & -> & Hstat & Hnear & Hcat) _.
    rewrite (upd_station_put _ _ _ _ (stations_put_station s st' w)), put_station_put.
    eexists. split; [reflexivity|]. repeat split; auto.
    + cbn. unfold Bitmap_SetTile. rewrite elem_of_union, elem_of_singleton, Hcat, elem_of_app, list_elem_of_singleton. tauto.
    + cbn. unfold Bitmap_SetTile. rewrite elem_of_union, elem_of_singleton, Hcat, elem_of_app, list_elem_of_singleton. tauto.
  - exists st'. repeat split; auto.
    + rewrite Hcat. intros [?|?]; [by left|]. right. split; [done|]. exists r. done.
    + rewrite Hcat. intros [?|[_ (r' & Hr' & _ & Ht)]]; [by left|]. right.
      assert (r' = r) as -> by congruence. exact Ht.
Qed.

Lemma catchment_loop_spec ca cfg s w l st :
  stations w !! s = Some st →
  ∃ st', for_each (catchment_tile_step ca cfg s) l w = Returns (put_station s st' w) ∧
    static_station st' = static_station st ∧
    industries_near st' = industries_near st ∧
    (∀ t, t ∈ catchment_tiles st' ↔
          t ∈ catchment_tiles st ∨
          ∃ tile r, tile ∈ l ∧ station_tile_of w s tile ∧
                GetTileCatchmentRadius ca cfg (tile_map w) tile st = Returns r ∧
                r ≠ CA_NONE ∧
                t ∈ TileArea_tiles (TileArea_Expand w (mkTileArea tile 1 1) r)).
Proof.
  intros Hs.
  destruct (for_each_ind (catchment_tile_step ca cfg s)
    (fun pre w' => ∃ st', w' = put_station s st' w ∧
        static_station st' = static_station st ∧
        industries_near st' = industries_near st ∧
        (∀ t, t ∈ catchment_tiles st' ↔
          t ∈ catchment_tiles st ∨
          ∃ tile r, tile ∈ pre ∧ station_tile_of w s tile ∧
                GetTileCatchmentRadius ca cfg (tile_map w) tile st = Returns r ∧
                r ≠ CA_NONE ∧
                t ∈ TileArea_tiles (TileArea_Expand w (mkTileArea tile 1 1) r)))
    l w) as (w' & Hret & st' & -> & Hrest).
  - exists st. rewrite put_station_id by done. repeat split; auto.
    intros [?|(? & ? & []%elem_of_nil & _)]. done.
  - intros pre a w1 (st1 & -> & Hstat & Hnear & Hcat) _.
    destruct (catchment_tile_step_spec ca cfg s (put_station s st1 w) a st1
                (stations_put_station _ _ _)) as (st2 & Hstep & Hstat2 & Hnear2 & Hcat2).
    rewrite put_station_put in Hstep. eexists. split; [exact Hstep|].
    exists st2. split; [done|]. split; [congruence|]. split; [congruence|].
    intros t. rewrite Hcat2, Hcat.
    change (tile_map (put_station s st1 w)) with (tile_map w).
    change (station_tile_of (put_station s st1 w) s a) with (station_tile_of w s a).
    change (TileArea_Expand (put_station s st1 w)) with (TileArea_Expand w).
    rewrite (GetTileCatchmentRadius_airport ca cfg (tile_map w) a st1 st)
      by (unfold static_station in Hstat; congruence).
    split.
    + intros [[?|(tile & r & Hin & ?)]|[? (r & ? & ? & ?)]].
      * by left.
      * right. exists tile, r. rewrite elem_of_app. tauto.
      * right. exists a, r. rewrite elem_of_app, list_elem_of_singleton. tauto.
    + intros [?|(tile & r & [Hin| ->%list_elem_of_singleton]%elem_of_app & ? & ? & ? & ?)].
      * by left; left.
      * left; right. exists tile, r. tauto.
      * right. split; [done|]. exists r. tauto.
  - exists st'. done.
Qed.

Lemma first_accepted_index_lt l :
  (first_accepted_index l < length l)%nat ↔ ∃ c, Some c ∈ l.
Proof.
  induction l as [|[c|] l IH]; cbn.
  - split; [lia|]. intros [c []%elem_of_nil].
  - split; [|lia]. intros _. exists c. apply list_elem_of_here.
  - rewrite <- Nat.succ_lt_mono, IH. split; intros [c Hc]; exists c.
    + by apply list_elem_of_further.
    + apply elem_of_cons in Hc as [?|?]; [discriminate | done].
Qed.

Lemma AddIndustryToDeliver_spec w s i st ind :
  stations w !! s = Some st → industries w !! i = Some ind →
  ∃ near', AddIndustryToDeliver w s i =
             Returns (put_station s (set_industries_near near' st) w) ∧
           ∀ i', i' ∈ near' ↔ i' ∈ industries_near st ∨ (i' = i ∧ accepts ind).
Proof.
  intros Hs Hi. unfold AddIndustryToDeliver, Station_Get, Industry_Get.
  rewrite (pool_get_Some _ _ _ Hs). cbn.
  assert (Hid : put_station s (set_industries_near (industries_near st) st) w = w).
  { apply put_station_id. rewrite Hs. by destruct st. }
  case_bool_decide as Hin.
  { exists (industries_near st). rewrite Hid. split; [done|].
    intros i'. split; [tauto|]. intros [?|[-> _]]; done. }
  rewrite (pool_get_Some _ _ _ Hi). cbn.
  case_bool_decide as Hacc.
  - exists (industries_near st). rewrite Hid. split; [done|].
    intros i'. split; [tauto|]. intros [?|[_ Ha]]; [done|].
    apply first_accepted_index_lt in Ha. lia.
  - exists ({[i]} ∪ industries_near st). rewrite (upd_station_put _ _ _ _ Hs). split; [done|].
    intros i'. rewrite elem_of_union, elem_of_singleton.
    assert (accepts ind) by (apply first_accepted_index_lt; lia). tauto.
Qed.

Lemma IsTileType_true m t ty : IsTileType m t ty = true ↔ tile_type (m t) = ty.
Proof. unfold IsTileType. apply bool_decide_eq_true. Qed.

Lemma set_industries_near_id st : set_industries_near (industries_near st) st = st.
Proof. by destruct st. Qed.

Lemma walked_nil cfg s w st : stations w !! s = Some st → walked cfg s [] w w.
Proof.
  intros Hs. repeat split; try done.
  - exists st, (industries_near st). split; [done|]. split.
    + by rewrite set_industries_near_id, insert_id.
    + intros i. split; [tauto|]. intros [?|(? & ? & []%elem_of_nil & _)]. done.
  - intros i. destruct (industries w !! i) as [ind|]; constructor. split; [done|].
    intros x. split; [tauto|]. intros [?|(_ & ? & []%elem_of_nil & _)]. done.
Qed.

Lemma walked_app cfg s l1 l2 w w1 w2 :
  walked cfg s l1 w w1 → walked cfg s l2 w1 w2 → walked cfg s (l1 ++ l2) w w2.
Proof.
  intros (Hm1 & Hx1 & Hy1 & Hg1 & Hq1 & Ht1 & (st & n1 & Hs & Hst1 & Hn1) & Hi1)
         (Hm2 & Hx2 & Hy2 & Hg2 & Hq2 & Ht2 & (st' & n2 & Hs' & Hst2 & Hn2) & Hi2).
  assert (Hind : ∀ i ind1, industries w1 !! i = Some ind1 →
            ∃ ind, industries w !! i = Some ind ∧
                   static_industry ind1 = static_industry ind).
  { intros i ind1 H1. specialize (Hi1 i). rewrite H1 in Hi1.
    inversion Hi1 as [ind ? [? _] Heq|]; subst. exists ind. done. }
  assert (Htile : ∀ i t, industry_tile_of w1 i t ↔ industry_tile_of w i t).
  { intros i t. unfold industry_tile_of. by rewrite Hm1. }
  assert (Hnlo : ∀ ind ind1, static_industry ind1 = static_industry ind →
            (not_left_out cfg ind1 ↔ not_left_out cfg ind) ∧ (accepts ind1 ↔ accepts ind)).
  { intros ind ind1 [= _ Hns Hac]. unfold not_left_out, accepts. by rewrite Hns, Hac. }
  rewrite Hst1, lookup_insert_eq in Hs'. injection Hs' as <-.
  repeat split; try congruence.
  - rewrite Ht2. apply Ht1.
  - rewrite Ht2. apply Ht1.
  - exists st, n2. split; [done|]. split.
    { rewrite Hst2, Hst1, insert_insert_eq. by destruct st. }
    intros i. rewrite Hn2. cbn. rewrite Hn1. split.
    + intros [[?|(t & ind & ? & ? & ? & ? & ?)]|(t & ind1 & ? & Hti & Hl1 & Hnl & Hacc)].
      * by left.
      * right. exists t, ind. rewrite elem_of_app. tauto.
      * right. destruct (Hind _ _ Hl1) as (ind & ? & Hstat).
        destruct (Hnlo _ _ Hstat). exists t, ind. rewrite elem_of_app.
        apply Htile in Hti. tauto.
    + intros [?|(t & ind & [?|?]%elem_of_app & Hti & Hl & Hnl & Hacc)].
      * by left; left.
      * left; right. exists t, ind. tauto.
      * right. specialize (Hi1 i). rewrite Hl in Hi1.
        inversion Hi1 as [? ind1 [Hstat _] Heq1 Heq2|]; subst.
        destruct (Hnlo _ _ Hstat). exists t, ind1. apply Htile in Hti. tauto.
  - intros i. specialize (Hi1 i). specialize (Hi2 i).
    destruct Hi1 as [ind ind1 [Hstat1 Hsn1]|]; inversion Hi2 as [? ind2 [Hstat2 Hsn2]|];
      subst; constructor.
    split; [congruence|]. intros x. rewrite Hsn2, Hsn1.
    destruct (Hnlo _ _ Hstat1) as [Hnl _].
    split.
    + intros [[?|[? (t & ? & ? & ?)]]|[? (t & ? & Hti & ?)]].
      * by left.
      * right. split; [done|]. exists t. rewrite elem_of_app. tauto.
      * right. split; [done|]. exists t. rewrite elem_of_app.
        pose proof (Htile i t). tauto.
    + intros [?|[? (t & [?|?]%elem_of_app & Hti & ?)]].
      * by left; left.
      * left; right. split; [done|]. exists t. tauto.
      * right. split; [done|]. exists t. pose proof (Htile i t). tauto.
Qed.

Lemma walked_nothing cfg s tile w w' st :
  stations w !! s = Some st →
  (∀ i ind, industry_tile_of w i tile → industries w !! i = Some ind →
            ¬ not_left_out cfg ind) →
  tile_map w' = tile_map w → MapSizeX w' = MapSizeX w → MapSizeY w' = MapSizeY w →
  link_graphs w' = link_graphs w → schedule w' = schedule w →
  (∀ t, is_Some (towns w' !! t) ↔ is_Some (towns w !! t)) →
  stations w' = stations w → industries w' = industries w →
  walked cfg s [tile] w w'.
Proof.
  intros Hs Hno ? ? ? ? ? ? Hst Hind. repeat split; try done.
  - by apply H4.
  - by apply H4.
  - exists st, (industries_near st). split; [done|]. split.
    + by rewrite Hst, set_industries_near_id, insert_id.
    + intros i. split; [tauto|].
      intros [?|(t & ind & ->%list_elem_of_singleton & ? & ? & ? & _)]; [done|].
      by destruct (Hno i ind).
  - intros i. rewrite Hind. destruct (industries w !! i) as [ind|] eqn:Hi; constructor.
    split; [done|]. intros x. split; [tauto|].
    intros [?|(_ & t & ->%list_elem_of_singleton & ? & ?)]; [done|].
    by destruct (Hno i ind).
Qed.

Lemma nearby_tile_step_spec cfg s w tile st :
  stations w !! s = Some st →
  (IsTileType (tile_map w) tile MP_HOUSE = true →
   is_Some (towns w !! GetTownIndex (tile_map w) tile)) →
  (IsTileType (tile_map w) tile MP_INDUSTRY = true →
   is_Some (industries w !! GetIndustryIndex (tile_map w) tile)) →
  ∃ w', nearby_tile_step cfg s w tile = Returns w' ∧ walked cfg s [tile] w w'.
Proof.
  intros Hs Hhouse Hindu. unfold nearby_tile_step.
  destruct (IsTileType (tile_map w) tile MP_HOUSE) eqn:Hh.
  { destruct (Hhouse eq_refl) as [t Ht]. unfold Town_Get.
    rewrite (pool_get_Some _ _ _ Ht). cbn.
    apply IsTileType_true in Hh.
    assert (Hni : IsTileType (tile_map w) tile MP_INDUSTRY = false).
    { apply bool_decide_eq_false. congruence. }
    rewrite Hni. eexists. split; [reflexivity|].
    eapply walked_nothing; try done.
    - intros i ind [Hti _]. congruence.
    - intros t'. cbn. apply lookup_alter_is_Some. }
  cbn. destruct (IsTileType (tile_map w) tile MP_INDUSTRY) eqn:Hi.
  2:{ eexists. split; [reflexivity|]. eapply walked_nothing; try done.
      intros i ind [Hti _]. congruence. }
  destruct (Hindu eq_refl) as [ind Hind]. unfold Industry_Get.
  rewrite (pool_get_Some _ _ _ Hind). cbn.
  set (i0 := GetIndustryIndex (tile_map w) tile) in *.
  destruct (negb (serve_neutral_industries cfg) &&
            bool_decide (neutral_station ind ≠ None)) eqn:Hskip.
  { eexists. split; [reflexivity|]. eapply walked_nothing; try done.
    intros i ind' [_ Hidx] Hl. fold i0 in Hidx. subst i. rewrite Hind in Hl.
    injection Hl as <-. apply andb_true_iff in Hskip as [Hserve Hn].
    apply bool_decide_eq_true in Hn. apply negb_true_iff in Hserve.
    intros [?|?]; congruence. }
  assert (Hnlo : not_left_out cfg ind).
  { apply andb_false_iff in Hskip as [Hserve|Hn].
    - left. by apply negb_false_iff in Hserve.
    - right. apply bool_decide_eq_false in Hn. by apply dec_stable in Hn. }
  set (w2 := upd_industry i0 _ w).
  set (ind2 := set_stations_near ({[s]} ∪ stations_near ind) ind).
  assert (Hind2 : industries w2 !! i0 = Some ind2).
  { subst w2. cbn. by rewrite lookup_alter_eq, Hind. }
  destruct (AddIndustryToDeliver_spec w2 s i0 st ind2 Hs Hind2) as (near' & Hret & Hnear).
  eexists. split; [exact Hret|].
  repeat split; try done.
  exists st, near'. split; [done|]. split; [done|].
  - intros i. rewrite Hnear. split.
    + intros [?|[-> Hacc]]; [by left|]. right. exists tile, ind.
      rewrite list_elem_of_singleton. repeat split; done.
    + intros [?|(t & ind' & ->%list_elem_of_singleton & [_ Hidx] & Hl & _ & Hacc)]; [by left|].
      fold i0 in Hidx. subst i. right. split; [done|].
      rewrite Hind in Hl. injection Hl as <-. exact Hacc.
  - intros i. cbn. rewrite lookup_alter. case_decide as Hii.
    + subst i. rewrite Hind. constructor. split; [done|]. intros x. cbn.
      rewrite elem_of_union, elem_of_singleton. split.
      * intros [->|?]; [|by left]. right. split; [done|]. exists tile.
        rewrite list_elem_of_singleton. repeat split; done.
      * intros [?|[-> _]]; tauto.
    + destruct (industries w !! i) as [ind'|]; constructor. split; [done|].
      intros x. split; [tauto|].
      intros [?|(_ & t & ->%list_elem_of_singleton & [_ Hidx] & _)]; [done|].
      fold i0 in Hidx. congruence.
Qed.

Lemma walked_tile_map cfg s l w w' : walked cfg s l w w' → tile_map w' = tile_map w.
Proof. by intros (? & _). Qed.

Lemma nearby_loop_spec cfg s w l st :
  stations w !! s = Some st →
  (∀ t, IsTileType (tile_map w) t MP_HOUSE = true →
        is_Some (towns w !! GetTownIndex (tile_map w) t)) →
  (∀ t, IsTileType (tile_map w) t MP_INDUSTRY = true →
        is_Some (industries w !! GetIndustryIndex (tile_map w) t)) →
  ∃ w', for_each (nearby_tile_step cfg s) l w = Returns w' ∧ walked cfg s l w w'.
Proof.
  intros Hs Hhouse Hindu.
  apply (for_each_ind (nearby_tile_step cfg s) (fun pre w' => walked cfg s pre w w')).
  - by eapply walked_nil.
  - intros pre a w1 Hw1 _.
    destruct Hw1 as (Hm & Hx & Hy & Hg & Hq & Ht & (st0 & n1 & Hs0 & Hst1 & Hn1) & Hi1).
    destruct (nearby_tile_step_spec cfg s w1 a (set_industries_near n1 st0))
      as (w2 & Hret & Hw2).
    + rewrite Hst1. apply lookup_insert_eq.
    + rewrite Hm. intros Hty. apply Ht. by apply Hhouse.
    + rewrite Hm. intros Hty. specialize (Hindu a Hty). specialize (Hi1 (GetIndustryIndex (tile_map w) a)).
      destruct Hindu as [ind Hind]. rewrite Hind in Hi1. inversion Hi1. eauto.
    + exists w2. split; [done|]. eapply walked_app; [|exact Hw2].
      repeat split; try done; [by apply Ht | by apply Ht |]. eauto 10.
Qed.

Lemma set_stations_near_id ind : set_stations_near (stations_near ind) ind = ind.
Proof. by destruct ind. Qed.

Lemma cleared_props b s w st :
  stations w !! s = Some st →
  tile_map (cleared b s w) = tile_map w ∧
  MapSizeX (cleared b s w) = MapSizeX w ∧ MapSizeY (cleared b s w) = MapSizeY w ∧
  link_graphs (cleared b s w) = link_graphs w ∧ schedule (cleared b s w) = schedule w ∧
  (∀ t, is_Some (towns (cleared b s w) !! t) ↔ is_Some (towns w !! t)) ∧
  stations (cleared b s w) = <[s := set_industries_near ∅ st]> (stations w) ∧
  (∀ i, industries (cleared b s w) !! i =
        (fun ind => set_stations_near (base_near b s ind) ind) <$> industries w !! i).
Proof.
  intros Hs. unfold cleared.
  assert (Hst : alter (set_industries_near ∅) s (stations w)
                = <[s := set_industries_near ∅ st]> (stations w)).
  { apply map_eq. intros j. rewrite lookup_alter, lookup_insert.
    case_decide; [by rewrite Hs | done]. }
  destruct b; cbn; repeat split; try done.
  - intros i. destruct (industries w !! i) as [ind|]; [|done]. cbn.
    by rewrite set_stations_near_id.
  - rewrite lookup_fmap. apply fmap_is_Some.
  - rewrite lookup_fmap. apply fmap_is_Some.
  - intros i. by rewrite lookup_fmap.
Qed.

Lemma RecomputeCatchment_unfold ca cfg w s b st :
  stations w !! s = Some st →
  RecomputeCatchment ca cfg w s b =
    if IsEmpty (rect st) then
      Returns (upd_station s (set_catchment_tiles Bitmap_Reset) (cleared b s w))
    else
      match exclusive_industry cfg st with
      | Some ind_id =>
          RecomputeCatchment_industry (cleared b s w) s (set_industries_near ∅ st) ind_id
      | None =>
          RecomputeCatchment_tiles ca cfg (cleared b s w) s (set_industries_near ∅ st)
      end.
Proof.
  intros Hs. unfold RecomputeCatchment, Station_Get.
  rewrite (pool_get_Some _ _ _ Hs). cbn.
  fold (cleared b s w).
  destruct (cleared_props b s w st Hs) as (_ & _ & _ & _ & _ & _ & Hst & _).
  assert (H0 : stations (cleared b s w) !! s = Some (set_industries_near ∅ st)).
  { rewrite Hst. apply lookup_insert_eq. }
  rewrite (pool_get_Some _ _ _ H0). cbn. reflexivity.
Qed.

Lemma in_catchment_tiles_iff ca cfg w s st t :
  stations w !! s = Some st → IsEmpty (rect st) = false →
  exclusive_industry cfg st = None →
  in_catchment ca cfg w s t ↔
  ∃ tile r, tile ∈ TileArea_tiles (rect_area (rect st)) ∧ station_tile_of w s tile ∧
            GetTileCatchmentRadius ca cfg (tile_map w) tile st = Returns r ∧
            r ≠ CA_NONE ∧
            t ∈ TileArea_tiles (TileArea_Expand w (mkTileArea tile 1 1) r).
Proof.
  intros Hs He Hx. unfold in_catchment. split.
  - intros (st' & Hs' & _ & H). rewrite Hs in Hs'. injection Hs' as <-.
    by rewrite Hx in H.
  - intros H. exists st. rewrite Hx. done.
Qed.

Lemma is_exclusive_None cfg w s st i :
  stations w !! s = Some st → exclusive_industry cfg st = None →
  ¬ is_exclusive cfg w s i.
Proof. intros Hs Hx (st' & Hs' & _ & Hx'). congruence. Qed.

Lemma RecomputeCatchment_tiles_recomputed ca cfg w s b st :
  pools_valid w →
  stations w !! s = Some st → IsEmpty (rect st) = false →
  exclusive_industry cfg st = None →
  ∃ w', RecomputeCatchment_tiles ca cfg (cleared b s w) s (set_industries_near ∅ st)
          = Returns w' ∧
        recomputed ca cfg b s w w'.
Proof.
  intros (Hvh & Hvi & _ & _) Hs He Hx.
  destruct (cleared_props b s w st Hs) as (Hm0 & Hx0 & Hy0 & Hg0 & Hq0 & Ht0 & Hst0 & Hi0).
  set (w0 := cleared b s w) in *. set (st0 := set_industries_near ∅ st).
  assert (Hs0 : stations w0 !! s = Some st0) by (rewrite Hst0; apply lookup_insert_eq).
  unfold RecomputeCatchment_tiles.
  rewrite (upd_station_put _ _ _ _ Hs0).
  rewrite (upd_station_put _ _ _ _ (stations_put_station _ _ _)), put_station_put.
  set (st_a := set_station_tiles 0 _).
  destruct (catchment_loop_spec ca cfg s (put_station s st_a w0)
              (TileArea_tiles (rect_area (rect st))) st_a (stations_put_station _ _ _))
    as (st_b & Hloop & Hstat_b & Hnear_b & Hcat_b).
  rewrite put_station_put in Hloop.
  change (TileArea_corners _ _) with (rect_area (rect st)).
  rewrite Hloop. cbn [mbind Outcome_bind].
  unfold Station_Get. rewrite (pool_get_Some _ _ _ (stations_put_station _ _ _)).
  cbn [mbind Outcome_bind].
  destruct (nearby_loop_spec cfg s (put_station s st_b w0)
              (Bitmap_tiles (catchment_tiles st_b)) st_b (stations_put_station _ _ _))
    as (w' & Hret & Hw).
  { cbn [tile_map put_station with_stations towns]. rewrite Hm0.
    intros t Ht. apply Ht0. by apply Hvh. }
  { cbn [tile_map put_station with_stations industries]. rewrite Hm0.
    intros t Ht. rewrite Hi0. apply fmap_is_Some. by apply Hvi. }
  exists w'. split; [exact Hret|].
  destruct Hw as (Hm & Hxx & Hyy & Hg & Hq & Ht & (st_b' & near' & Hsb & Hst' & Hnear') & Hind).
  rewrite stations_put_station in Hsb. injection Hsb as <-.
  cbn [tile_map MapSizeX MapSizeY link_graphs schedule towns stations industries
       put_station with_stations] in *.
  assert (Hcat : ∀ t, t ∈ catchment_tiles st_b ↔ in_catchment ca cfg w s t).
  { intros t. rewrite Hcat_b, (in_catchment_tiles_iff ca cfg w s st t Hs He Hx).
    cbn [catchment_tiles st_a st0 set_station_tiles set_catchment_tiles set_industries_near].
    unfold Bitmap_Initialize, station_tile_of, TileArea_Expand.
    cbn [tile_map MapSizeX MapSizeY put_station with_stations]. rewrite Hm0, Hx0, Hy0.
    setoid_rewrite (GetTileCatchmentRadius_airport ca cfg (tile_map w) _ st_a st eq_refl).
    split; [intros [[]%not_elem_of_empty|H]; exact H | intros H; right; exact H]. }
  assert (Htile : ∀ i t, industry_tile_of (put_station s st_b w0) i t ↔ industry_tile_of w i t).
  { intros i t. unfold industry_tile_of. cbn. by rewrite Hm0. }
  repeat split; try congruence.
  - rewrite Ht. apply Ht0.
  - rewrite Ht, Ht0. done.
  - intros s'. rewrite Hst', insert_insert_eq, Hst0, insert_insert_eq.
    destruct (decide (s' = s)) as [->|Hss].
    + rewrite lookup_insert_eq, Hs. constructor. split.
      { unfold static_station in *. cbn. injection Hstat_b as -> -> ->. done. }
      split; [exact Hcat|].
      intros i. rewrite Hnear', Hnear_b. cbn [industries_near st_a st0 set_station_tiles
        set_catchment_tiles set_industries_near].
      unfold is_near, in_reach. split.
      * intros [[]%not_elem_of_empty|(t & ind0 & Hin & Hti & Hl & Hnl & Hacc)].
        rewrite Hi0 in Hl. apply fmap_Some in Hl as (ind & Hl & ->).
        exists st. rewrite Hx. repeat split; try done.
        -- exists t, ind. apply elem_of_elements, Hcat in Hin. apply Htile in Hti. done.
        -- exists ind. done.
      * intros (st' & Hs' & _ & H). rewrite Hs in Hs'. injection Hs' as <-.
        rewrite Hx in H. destruct H as [(t & ind & Hin & Hti & Hl & Hnl) (ind' & Hl' & Hacc)].
        rewrite Hl in Hl'. injection Hl' as <-. right.
        exists t, (set_stations_near (base_near b s ind) ind).
        split; [by apply elem_of_elements, Hcat|]. split; [by apply Htile|].
        split; [by rewrite Hi0, Hl|]. done.
    + rewrite lookup_insert_ne by done.
      destruct (stations w !! s') as [st1|] eqn:Hs1; constructor. split; [done|].
      split; [done|]. intros i. split; [|tauto].
      intros Hin. split; [done|]. intros [Hex _].
      by apply (is_exclusive_None cfg w s st i).
  - intros i. specialize (Hind i). rewrite Hi0 in Hind.
    destruct (industries w !! i) as [ind|] eqn:Hl; cbn in Hind;
      inversion Hind as [? ind' [Hstat Hsn]|]; subst; constructor.
    split; [exact Hstat|]. intros x. rewrite Hsn. cbn [stations_near set_stations_near].
    unfold serves, in_reach. split.
    + intros [?|[-> (t & Hin & Hti & Hnl)]].
      * left. split; [done|]. by apply (is_exclusive_None cfg w s st i).
      * right. split; [done|]. exists st. rewrite Hx. repeat split; try done.
        exists t, ind. apply elem_of_elements, Hcat in Hin. apply Htile in Hti. done.
    + intros [[? _]|[-> (st' & Hs' & _ & H)]]; [by left|]. right. split; [done|].
      rewrite Hs in Hs'. injection Hs' as <-. rewrite Hx in H.
      destruct H as (t & ind1 & Hin & Hti & Hl' & Hnl).
      rewrite Hl in Hl'. injection Hl' as <-.
      exists t. split; [by apply elem_of_elements, Hcat|]. split; [by apply Htile|]. done.
Qed.

Lemma RecomputeCatchment_empty_recomputed ca cfg w s b st :
  stations w !! s = Some st → IsEmpty (rect st) = true →
  recomputed ca cfg b s w
    (upd_station s (set_catchment_tiles Bitmap_Reset) (cleared b s w)).
Proof.
  intros Hs He.
  destruct (cleared_props b s w st Hs) as (Hm0 & Hx0 & Hy0 & Hg0 & Hq0 & Ht0 & Hst0 & Hi0).
  assert (Hnc : ∀ t, ¬ in_catchment ca cfg w s t).
  { intros t (st' & Hs' & He' & _). congruence. }
  assert (Hnn : ∀ i, ¬ is_near ca cfg w s i).
  { intros i (st' & Hs' & He' & _). congruence. }
  assert (Hne : ∀ i, ¬ is_exclusive cfg w s i).
  { intros i (st' & Hs' & He' & _). congruence. }
  assert (Hns : ∀ i, ¬ serves ca cfg w s i).
  { intros i (st' & Hs' & He' & _). congruence. }
  repeat split; try done.
  - apply Ht0.
  - apply Ht0.
  - intros s'. cbn. rewrite Hst0. destruct (decide (s' = s)) as [->|Hss].
    + rewrite lookup_alter_eq, lookup_insert_eq, Hs. cbn. constructor.
      split; [done|]. split.
      * intros t. cbn. unfold Bitmap_Reset. split; [intros []%not_elem_of_empty|].
        intros H. by destruct (Hnc t).
      * intros i. cbn. split; [intros []%not_elem_of_empty|].
        intros H. by destruct (Hnn i).
    + rewrite lookup_alter_ne, lookup_insert_ne by done.
      destruct (stations w !! s'); constructor. split; [done|]. split; [done|].
      intros i. split; [|tauto]. intros Hin. split; [done|]. intros [Hex _].
      by destruct (Hne i).
  - intros i. cbn. rewrite Hi0. destruct (industries w !! i) as [ind|]; constructor.
    split; [done|]. intros x. cbn. split.
    + intros Hx. left. split; [done|]. apply Hne.
    + intros [[? _]|[_ H]]; [done|]. by destruct (Hns i).
Qed.

Lemma erase_loop_spec i0 l w :
  (∀ s', s' ∈ l → is_Some (stations w !! s')) →
  ∃ w', for_each (fun w' s' =>
                    _ ← Station_Get w' s';
                    Returns (upd_station s'
                               (fun st => set_industries_near
                                            (industries_near st ∖ {[i0]}) st) w'))
                 l w = Returns w' ∧
        tile_map w' = tile_map w ∧ MapSizeX w' = MapSizeX w ∧ MapSizeY w' = MapSizeY w ∧
        link_graphs w' = link_graphs w ∧ schedule w' = schedule w ∧
        towns w' = towns w ∧ industries w' = industries w ∧
        ∀ s', option_Forall2
                (fun st st' =>
                   static_station st' = static_station st ∧
                   catchment_tiles st' = catchment_tiles st ∧
                   ∀ i, i ∈ industries_near st' ↔
                        i ∈ industries_near st ∧ ¬ (i = i0 ∧ s' ∈ l))
                (stations w !! s') (stations w' !! s').
Proof.
  intros Hvalid.
  apply (for_each_ind _ (fun pre w' =>
        tile_map w' = tile_map w ∧ MapSizeX w' = MapSizeX w ∧ MapSizeY w' = MapSizeY w ∧
        link_graphs w' = link_graphs w ∧ schedule w' = schedule w ∧
        towns w' = towns w ∧ industries w' = industries w ∧
        ∀ s', option_Forall2
                (fun st st' =>
                   static_station st' = static_station st ∧
                   catchment_tiles st' = catchment_tiles st ∧
                   ∀ i, i ∈ industries_near st' ↔
                        i ∈ industries_near st ∧ ¬ (i = i0 ∧ s' ∈ pre))
                (stations w !! s') (stations w' !! s'))).
  - repeat split; try done. intros s'. destruct (stations w !! s'); constructor.
    split; [done|]. split; [done|]. intros i. split; [|tauto].
    intros ?. split; [done|]. intros [_ []%elem_of_nil].
  - intros pre a w1 (Hm & Hx & Hy & Hg & Hq & Ht & Hi & Hst) Ha.
    assert (is_Some (stations w1 !! a)) as [sta Hsta].
    { specialize (Hst a). destruct (Hvalid a Ha) as [x Hx']. rewrite Hx' in Hst.
      inversion Hst. eauto. }
    unfold Station_Get. rewrite (pool_get_Some _ _ _ Hsta). cbn.
    eexists. split; [reflexivity|]. repeat split; try done.
    intros s'. cbn. specialize (Hst s'). rewrite lookup_alter.
    destruct (decide (a = s')) as [->|Hne].
    + rewrite Hsta in *. inversion Hst as [st0 ? (Hstat & Hcat & Hnear)|]; subst.
      constructor. split; [done|]. split; [done|]. intros i. cbn.
      rewrite elem_of_difference, elem_of_singleton, Hnear, elem_of_app,
        list_elem_of_singleton.
      destruct (decide (i = i0)); tauto.
    + destruct Hst as [st0 st1 (Hstat & Hcat & Hnear)|]; constructor.
      split; [done|]. split; [done|]. intros i.
      rewrite Hnear, elem_of_app, list_elem_of_singleton. split.
      * intros [? Hno]. split; [done|]. intros [? [?|?]]; [tauto|done].
      * intros [? Hno]. split; [done|]. tauto.
Qed.

Lemma exclusive_industry_Some cfg st i :
  exclusive_industry cfg st = Some i ↔
  serve_neutral_industries cfg = false ∧ industry st = Some i.
Proof.
  unfold exclusive_industry. destruct (serve_neutral_industries cfg); cbn; split;
    try tauto; try (intros [? ?]; done); try discriminate.
Qed.

Lemma is_exclusive_iff cfg w s st i0 i :
  stations w !! s = Some st → IsEmpty (rect st) = false →
  exclusive_industry cfg st = Some i0 →
  is_exclusive cfg w s i ↔ i = i0.
Proof.
  intros Hs He Hx. split.
  - intros (st' & Hs' & _ & Hx'). congruence.
  - intros ->. exists st. done.
Qed.

Lemma elem_of_base_near b s ind x :
  x ≠ s → x ∈ base_near b s ind ↔ x ∈ stations_near ind.
Proof.
  intros Hne. unfold base_near. destruct b; [done|].
  rewrite elem_of_difference, elem_of_singleton. tauto.
Qed.

Lemma base_near_subseteq b s ind x : x ∈ base_near b s ind → x ∈ stations_near ind.
Proof. unfold base_near. destruct b; [done|]. by intros [? _]%elem_of_difference. Qed.

Lemma RecomputeCatchment_industry_recomputed ca cfg w s b st i0 :
  pools_valid w →
  stations w !! s = Some st → IsEmpty (rect st) = false →
  exclusive_industry cfg st = Some i0 →
  ∃ w', RecomputeCatchment_industry (cleared b s w) s (set_industries_near ∅ st) i0
          = Returns w' ∧
        recomputed ca cfg b s w w'.
Proof.
  intros (_ & _ & Hvs & Hvn) Hs He Hx.
  pose proof (proj1 (exclusive_industry_Some _ _ _) Hx) as [Hserve Hlink].
  destruct (Hvs s st i0 Hs Hlink) as [ind Hind].
  destruct (cleared_props b s w st Hs) as (Hm0 & Hx0 & Hy0 & Hg0 & Hq0 & Ht0 & Hst0 & Hi0).
  set (w0 := cleared b s w) in *. set (st0 := set_industries_near ∅ st).
  assert (Hs0 : stations w0 !! s = Some st0) by (rewrite Hst0; apply lookup_insert_eq).
  set (ind0 := set_stations_near (base_near b s ind) ind).
  assert (Hind0 : industries w0 !! i0 = Some ind0) by (by rewrite Hi0, Hind).
  unfold RecomputeCatchment_industry, Industry_Get.
  rewrite (pool_get_Some _ _ _ Hind0). cbn [mbind Outcome_bind].
  rewrite (upd_station_put _ _ _ _ Hs0).
  match goal with |- context [foldl ?f ?a ?l] => set (wb := foldl f a l) end.
  assert (Hwb : ∃ st_b, wb = put_station s st_b w0 ∧
            static_station st_b = static_station st ∧ industries_near st_b = ∅ ∧
            ∀ t, t ∈ catchment_tiles st_b ↔
                 t ∈ TileArea_tiles (location ind) ∧ industry_tile_of w i0 t).
  { subst wb. apply (foldl_ind _ (fun pre w1 => ∃ st_b, w1 = put_station s st_b w0 ∧
            static_station st_b = static_station st ∧ industries_near st_b = ∅ ∧
            ∀ t, t ∈ catchment_tiles st_b ↔ t ∈ pre ∧ industry_tile_of w i0 t)).
    - eexists. split; [reflexivity|]. split; [done|]. split; [done|].
      intros t. cbn. unfold Bitmap_Initialize.
      split; [intros []%not_elem_of_empty | intros [[]%elem_of_nil _]].
    - intros pre a w1 (st1 & -> & Hstat & Hnear & Hcat) _.
      cbn [tile_map put_station with_stations]. rewrite Hm0.
      destruct (IsTileType (tile_map w) a MP_INDUSTRY &&
                bool_decide (GetIndustryIndex (tile_map w) a = i0)) eqn:Hc.
      + apply andb_true_iff in Hc as [Hty Hidx]. apply bool_decide_eq_true in Hidx.
        rewrite (upd_station_put _ _ _ _ (stations_put_station _ _ _)), put_station_put.
        eexists. split; [reflexivity|]. split; [done|]. split; [done|].
        intros t. cbn. unfold Bitmap_SetTile.
        rewrite elem_of_union, elem_of_singleton, Hcat, elem_of_app, list_elem_of_singleton.
        split; [|tauto]. intros [->|?]; [|tauto]. split; [by right|]. by split.
      + exists st1. split; [done|]. split; [done|]. split; [done|].
        intros t. rewrite Hcat, elem_of_app, list_elem_of_singleton.
        split; [tauto|]. intros [[?| ->] Hti]; [tauto|]. destruct Hti as [Hty Hidx].
        rewrite Hty in Hc. cbn in Hc. apply bool_decide_eq_false in Hc. done. }
  destruct Hwb as (st_b & Hwb & Hstat_b & Hnear_b & Hcat_b). clearbody wb. subst wb.
  destruct (erase_loop_spec i0 (elements (stations_near ind0)) (put_station s st_b w0))
    as (wc & Hret & Hmc & Hxc & Hyc & Hgc & Hqc & Htc & Hic & Hstc).
  { intros s' Hin. apply elem_of_elements in Hin. cbn. rewrite Hst0, insert_insert_eq.
    destruct (decide (s' = s)) as [->|Hne]; [by rewrite lookup_insert_eq|].
    rewrite lookup_insert_ne by done. apply (Hvn i0 ind s' Hind).
    subst ind0. cbn in Hin. unfold base_near in Hin.
    destruct b; [done|]. by apply elem_of_difference in Hin as [? _]. }
  rewrite Hret. cbn [mbind Outcome_bind].
  eexists. split; [reflexivity|].
  cbn [tile_map MapSizeX MapSizeY link_graphs schedule towns stations industries
       put_station with_stations] in *.
  assert (Hexcl := is_exclusive_iff cfg w s st i0).
  repeat split; cbn; try congruence.
  - rewrite Htc. apply Ht0.
  - rewrite Htc. apply Ht0.
  - intros s'. specialize (Hstc s'). rewrite Hst0, insert_insert_eq in Hstc.
    destruct (decide (s' = s)) as [->|Hss].
    + rewrite !lookup_alter_eq. rewrite lookup_insert_eq in Hstc. rewrite Hs.
      inversion Hstc as [? st_c (Hstat_c & Hcat_c & Hnear_c)|]; subst. cbn. constructor.
      split; [unfold static_station in *; cbn; congruence|]. split.
      * intros t. cbn. rewrite Hcat_c, Hcat_b. unfold in_catchment. split.
        -- intros [? ?]. exists st. rewrite Hx. repeat split; try done. by exists ind.
        -- intros (st' & Hs' & _ & H). rewrite Hs in Hs'. injection Hs' as <-.
           rewrite Hx in H. destruct H as (ind' & Hl & ? & ?).
           assert (ind' = ind) as -> by congruence. done.
      * intros i. cbn. rewrite elem_of_union, elem_of_singleton, Hnear_c, Hnear_b.
        unfold is_near. split.
        -- intros [->|[[]%not_elem_of_empty _]]. exists st. by rewrite Hx.
        -- intros (st' & Hs' & _ & H). rewrite Hs in Hs'. injection Hs' as <-.
           rewrite Hx in H. by left.
    + rewrite !lookup_alter_ne by done. rewrite lookup_insert_ne in Hstc by done.
      destruct Hstc as [st1 st1' (Hstat_c & Hcat_c & Hnear_c)|]; constructor.
      split; [done|]. split; [done|]. intros i. rewrite Hnear_c, elem_of_elements.
      rewrite (Hexcl i Hs He Hx). subst ind0. cbn [stations_near set_stations_near].
      split.
      * intros [Hin Hno]. split; [done|]. intros [-> (ind' & Hl & Hin')].
        apply Hno. split; [done|]. assert (ind' = ind) as -> by congruence.
        by apply elem_of_base_near.
      * intros [Hin Hno]. split; [done|]. intros [-> Hin']. apply Hno. split; [done|].
        exists ind. split; [done|]. by apply elem_of_base_near in Hin'.
  - intros i. rewrite Hic. destruct (decide (i = i0)) as [->|Hii].
    + rewrite !lookup_alter_eq, Hind0, Hind. cbn. constructor. split; [done|].
      intros x. cbn. rewrite elem_of_union, elem_of_singleton.
      rewrite (Hexcl i0 Hs He Hx). unfold serves. split.
      * intros [->|[]%not_elem_of_empty]. right. split; [done|]. exists st. by rewrite Hx.
      * intros [[_ []]|[-> _]]; [done | by left].
    + rewrite !lookup_alter_ne, Hi0 by done.
      destruct (industries w !! i) as [ind'|]; constructor. split; [done|].
      intros x. cbn. rewrite (Hexcl i Hs He Hx). unfold serves. split.
      * intros Hin. left. done.
      * intros [[? _]|[_ (st' & Hs' & _ & H)]]; [done|].
        rewrite Hs in Hs'. injection Hs' as <-. rewrite Hx in H. done.
Qed.

(** [RecomputeCatchment] returns, with the world described by [recomputed]. *)
Lemma RecomputeCatchment_recomputed ca cfg w s b :
  pools_valid w → is_Some (stations w !! s) →
  ∃ w', RecomputeCatchment ca cfg w s b = Returns w' ∧ recomputed ca cfg b s w w'.
Proof.
  intros Hv [st Hs]. rewrite (RecomputeCatchment_unfold ca cfg w s b st Hs).
  destruct (IsEmpty (rect st)) eqn:He.
  - eexists. split; [reflexivity|]. by eapply RecomputeCatchment_empty_recomputed.
  - destruct (exclusive_industry cfg st) as [i0|] eqn:Hx.
    + by apply RecomputeCatchment_industry_recomputed.
    + by apply RecomputeCatchment_tiles_recomputed.
Qed.

Lemma recomputed_same_static ca cfg b s w w' :
  recomputed ca cfg b s w w' → same_static w w'.
Proof.
  intros (Hm & Hx & Hy & _ & _ & Ht & Hst & Hind). repeat split; try done.
  - intros s'. specialize (Hst s'). destruct Hst as [? ? [Hstat _]|]; cbn; congruence.
  - intros i. specialize (Hind i). destruct Hind as [? ? [Hstat _]|]; cbn; congruence.
  - apply Ht.
  - apply Ht.
Qed.

Lemma recomputed_station ca cfg b s w w' st :
  recomputed ca cfg b s w w' → stations w !! s = Some st →
  ∃ st', stations w' !! s = Some st' ∧
         static_station st' = static_station st ∧
         (∀ t, t ∈ catchment_tiles st' ↔ in_catchment ca cfg w s t) ∧
         (∀ i, i ∈ industries_near st' ↔ is_near ca cfg w s i).
Proof.
  intros (_ & _ & _ & _ & _ & _ & Hst & _) Hs. specialize (Hst s). rewrite Hs in Hst.
  inversion Hst as [? st' [Hstat H]|]; subst. rewrite decide_True in H by done.
  exists st'. tauto.
Qed.

Lemma same_static_sym w w' : same_static w w' → same_static w' w.
Proof.
  intros (Hm & Hx & Hy & Hst & Hind & Ht). repeat split; try done.
  - by apply Ht.
  - by apply Ht.
Qed.

Lemma same_static_station w w' s st :
  same_static w w' → stations w !! s = Some st →
  ∃ st', stations w' !! s = Some st' ∧ static_station st' = static_station st.
Proof.
  intros (_ & _ & _ & Hst & _) Hs. specialize (Hst s). rewrite Hs in Hst.
  destruct (stations w' !! s) as [st'|]; [|done]. exists st'. split; [done|].
  cbn in Hst. congruence.
Qed.

Lemma same_static_industry w w' i ind :
  same_static w w' → industries w !! i = Some ind →
  ∃ ind', industries w' !! i = Some ind' ∧ static_industry ind' = static_industry ind.
Proof.
  intros (_ & _ & _ & _ & Hind & _) Hi. specialize (Hind i). rewrite Hi in Hind.
  destruct (industries w' !! i) as [ind'|]; [|done]. exists ind'. split; [done|].
  cbn in Hind. congruence.
Qed.

Lemma exclusive_industry_static cfg st st' :
  static_station st' = static_station st →
  exclusive_industry cfg st' = exclusive_industry cfg st.
Proof. intros [= Hr Hi Ha]. unfold exclusive_industry. by rewrite Hi. Qed.

Lemma in_catchment_static ca cfg w w' s t :
  same_static w w' → in_catchment ca cfg w s t → in_catchment ca cfg w' s t.
Proof.
  intros Hss (st & Hs & He & H).
  destruct (same_static_station _ _ _ _ Hss Hs) as (st' & Hs' & Hstat).
  pose proof (exclusive_industry_static cfg _ _ Hstat) as Hx.
  pose proof Hstat as [= Hr Hlk Ha].
  pose proof Hss as (Hm & Hsx & Hsy & _).
  exists st'. rewrite Hx, Hr. split; [done|]. split; [done|].
  destruct (exclusive_industry cfg st) as [i|].
  - destruct H as (ind & Hi & Hin & Hti).
    destruct (same_static_industry w w' i ind) as (ind' & Hi' & [= Hloc Hn Hac]); [done..|].
    exists ind'. rewrite Hloc. unfold industry_tile_of. rewrite Hm. done.
  - destruct H as (tile & r & ? & ? & Hr' & ? & Hin). exists tile, r.
    unfold station_tile_of, TileArea_Expand. rewrite Hm, Hsx, Hsy.
    rewrite (GetTileCatchmentRadius_airport ca cfg (tile_map w) tile st' st Ha). done.
Qed.

Lemma is_near_static ca cfg w w' s i :
  same_static w w' → is_near ca cfg w s i → is_near ca cfg w' s i.
Proof.
  intros Hss (st & Hs & He & H).
  destruct (same_static_station _ _ _ _ Hss Hs) as (st' & Hs' & Hstat).
  pose proof (exclusive_industry_static cfg _ _ Hstat) as Hx.
  pose proof Hstat as [= Hr Hlk Ha].
  exists st'. rewrite Hx, Hr. split; [done|]. split; [done|].
  destruct (exclusive_industry cfg st) as [i'|]; [done|].
  destruct H as [(t & ind & Hin & Hti & Hi & Hnl) (ind1 & Hi1 & Hacc)].
  destruct (same_static_industry w w' i ind) as (ind' & Hi' & [= Hloc Hn Hac]); [done..|].
  assert (ind1 = ind) as -> by congruence.
  split.
  - exists t, ind'. split; [by eapply in_catchment_static|].
    pose proof Hss as (Hm & _). unfold industry_tile_of, not_left_out. rewrite Hm, Hn. done.
  - exists ind'. split; [done|]. unfold accepts. by rewrite Hac.
Qed.

Lemma recomputed_pools_valid ca cfg b s w w' :
  recomputed ca cfg b s w w' → is_Some (stations w !! s) →
  pools_valid w → pools_valid w'.
Proof.
  intros Hrec Hs (Hvh & Hvi & Hvs & Hvn).
  pose proof (recomputed_same_static _ _ _ _ _ _ Hrec) as Hss.
  pose proof (same_static_sym _ _ Hss) as Hss'.
  destruct Hrec as (Hm & _ & _ & _ & _ & Ht & Hst & Hind).
  assert (Hdom : ∀ s', is_Some (stations w !! s') → is_Some (stations w' !! s')).
  { intros s' [st Hst']. destruct (same_static_station _ _ _ _ Hss Hst') as (? & ? & _). eauto. }
  assert (Hdomi : ∀ i, is_Some (industries w !! i) → is_Some (industries w' !! i)).
  { intros i [ind Hi]. destruct (same_static_industry _ _ _ _ Hss Hi) as (? & ? & _). eauto. }
  repeat split.
  - intros t. rewrite Hm. intros Hty. apply Ht. by apply Hvh.
  - intros t. rewrite Hm. intros Hty. apply Hdomi. by apply Hvi.
  - intros s' st' i Hs' Hlink.
    destruct (same_static_station _ _ _ _ Hss' Hs') as (st & Hs0 & [= Hr Hi Ha]).
    apply Hdomi. apply (Hvs s' st i Hs0). congruence.
  - intros i ind' x Hi' Hin. specialize (Hind i). rewrite Hi' in Hind.
    destruct (industries w !! i) as [ind|] eqn:Hi0; inversion Hind as [? ? [_ Hsn]|]; subst.
    apply Hsn in Hin as [[Hin _]|[-> _]].
    + apply Hdom. apply (Hvn i ind x Hi0). by eapply base_near_subseteq.
    + by apply Hdom.
Qed.

Lemma tile_radius_spec_mono ca cfg b1 b2 ty a :
  radii_in_range ca (with_catchment_increase b1 cfg) a → b1 <= b2 →
  tile_radius_spec ca (with_catchment_increase b1 cfg) ty a ≠ 0 →
  tile_radius_spec ca (with_catchment_increase b1 cfg) ty a
    <= tile_radius_spec ca (with_catchment_increase b2 cfg) ty a ∧
  tile_radius_spec ca (with_catchment_increase b2 cfg) ty a ≠ 0.
Proof.
  intros (Hinc & Hbus & Htruck & Htrain & Hdock & Hunm & Hair) Hle.
  unfold tile_radius_spec. cbn in *.
  destruct (is_functional ty); [|done].
  destruct (modified_catchment cfg); [destruct ty; cbn|]; lia.
Qed.

Lemma TileArea_Expand_mono w tile r1 r2 t :
  r1 <= r2 →
  t ∈ TileArea_tiles (TileArea_Expand w (mkTileArea tile 1 1) r1) →
  t ∈ TileArea_tiles (TileArea_Expand w (mkTileArea tile 1 1) r2).
Proof.
  intros Hle. rewrite !elem_of_TileArea_tiles. unfold TileArea_Expand. cbn. lia.
Qed.

Lemma in_catchment_bonus_mono ca cfg w s st b1 b2 t :
  stations w !! s = Some st →
  radii_in_range ca (with_catchment_increase b1 cfg) (airport_catchment st) →
  radii_in_range ca (with_catchment_increase b2 cfg) (airport_catchment st) →
  b1 <= b2 →
  in_catchment ca (with_catchment_increase b1 cfg) w s t →
  in_catchment ca (with_catchment_increase b2 cfg) w s t.
Proof.
  intros Hs Hr1 Hr2 Hle (st' & Hs' & He & H). rewrite Hs in Hs'. injection Hs' as <-.
  exists st. split; [done|]. split; [done|].
  change (exclusive_industry (with_catchment_increase b2 cfg) st)
    with (exclusive_industry (with_catchment_increase b1 cfg) st).
  destruct (exclusive_industry (with_catchment_increase b1 cfg) st); [done|].
  destruct H as (tile & r & Hin & Hst & Hrad & Hr0 & Ht).
  pose proof Hst as [Hty _].
  rewrite (GetTileCatchmentRadius_eq _ _ _ _ _ Hty Hr1) in Hrad. injection Hrad as <-.
  destruct (tile_radius_spec_mono ca cfg b1 b2 (GetStationType (tile_map w) tile)
              (airport_catchment st) Hr1 Hle Hr0) as [Hmono Hne].
  eexists tile, _. split; [done|]. split; [done|].
  split; [by apply GetTileCatchmentRadius_eq|]. split; [done|].
  by eapply TileArea_Expand_mono.
Qed.

(** C7: a second call of [RecomputeCatchment] on the same station, made
    right after the first, returns and leaves the same catchment bitmap and
    the same [industries_near] as the first call did. *)
Theorem RecomputeCatchment_idempotent ca cfg w s b1 b2 :
  pools_valid w → is_Some (stations w !! s) →
  ∃ w1 w2 st1 st2,
    RecomputeCatchment ca cfg w s b1 = Returns w1 ∧
    RecomputeCatchment ca cfg w1 s b2 = Returns w2 ∧
    stations w1 !! s = Some st1 ∧ stations w2 !! s = Some st2 ∧
    catchment_tiles st2 = catchment_tiles st1 ∧
    industries_near st2 = industries_near st1.
Proof.
  intros Hv [st Hs].
  destruct (RecomputeCatchment_recomputed ca cfg w s b1 Hv) as (w1 & Hret1 & Hrec1); [eauto|].
  destruct (recomputed_station _ _ _ _ _ _ _ Hrec1 Hs) as (st1 & Hs1 & _ & Hcat1 & Hnear1).
  pose proof (recomputed_pools_valid _ _ _ _ _ _ Hrec1 (mk_is_Some _ _ Hs) Hv) as Hv1.
  destruct (RecomputeCatchment_recomputed ca cfg w1 s b2 Hv1) as (w2 & Hret2 & Hrec2); [eauto|].
  destruct (recomputed_station _ _ _ _ _ _ _ Hrec2 Hs1) as (st2 & Hs2 & _ & Hcat2 & Hnear2).
  pose proof (recomputed_same_static _ _ _ _ _ _ Hrec1) as Hss.
  exists w1, w2, st1, st2. repeat split; try done.
  - apply set_eq. intros t. rewrite Hcat2, Hcat1. split.
    + apply in_catchment_static. by apply same_static_sym.
    + by apply in_catchment_static.
  - apply set_eq. intros i. rewrite Hnear2, Hnear1. split.
    + apply is_near_static. by apply same_static_sym.
    + by apply is_near_static.
Qed.

(** C8: with two values [b1 <= b2] of the radius bonus and everything else
    equal, [RecomputeCatchment] returns under both, and every tile of the
    catchment bitmap computed under [b1] is in the bitmap computed under
    [b2]. *)
Theorem RecomputeCatchment_bonus_monotone ca cfg w s b st b1 b2 :
  pools_valid w → stations w !! s = Some st →
  radii_in_range ca (with_catchment_increase b1 cfg) (airport_catchment st) →
  radii_in_range ca (with_catchment_increase b2 cfg) (airport_catchment st) →
  b1 <= b2 →
  ∃ w1 w2 st1 st2,
    RecomputeCatchment ca (with_catchment_increase b1 cfg) w s b = Returns w1 ∧
    RecomputeCatchment ca (with_catchment_increase b2 cfg) w s b = Returns w2 ∧
    stations w1 !! s = Some st1 ∧ stations w2 !! s = Some st2 ∧
    ∀ t, t ∈ catchment_tiles st1 → t ∈ catchment_tiles st2.
Proof.
  intros Hv Hs Hr1 Hr2 Hle.
  destruct (RecomputeCatchment_recomputed ca (with_catchment_increase b1 cfg) w s b Hv)
    as (w1 & Hret1 & Hrec1); [eauto|].
  destruct (RecomputeCatchment_recomputed ca (with_catchment_increase b2 cfg) w s b Hv)
    as (w2 & Hret2 & Hrec2); [eauto|].
  destruct (recomputed_station _ _ _ _ _ _ _ Hrec1 Hs) as (st1 & Hs1 & _ & Hcat1 & _).
  destruct (recomputed_station _ _ _ _ _ _ _ Hrec2 Hs) as (st2 & Hs2 & _ & Hcat2 & _).
  exists w1, w2, st1, st2. repeat split; try done.
  intros t. rewrite Hcat1, Hcat2. by eapply in_catchment_bonus_mono.
Qed.

(** C5, amended: for a station with a non-empty rect that is exclusively
    linked to the industry [i] (bound to it, with the setting that lets
    stations serve neutral industries switched off), [RecomputeCatchment]
    returns with [industries_near] equal to exactly [{i}] and with the
    catchment bitmap holding exactly the tiles of the footprint of [i] that
    still belong to [i], whatever the radii and the bonus are. *)
Theorem RecomputeCatchment_exclusive_industry ca cfg w s b st i :
  pools_valid w → stations w !! s = Some st →
  IsEmpty (rect st) = false →
  serve_neutral_industries cfg = false → industry st = Some i →
  ∃ w' st' ind,
    RecomputeCatchment ca cfg w s b = Returns w' ∧
    stations w' !! s = Some st' ∧ industries w !! i = Some ind ∧
    industries_near st' = {[i]} ∧
    ∀ t, t ∈ catchment_tiles st' ↔
         t ∈ TileArea_tiles (location ind) ∧ industry_tile_of w i t.
Proof.
  intros Hv Hs He Hserve Hlink.
  assert (Hx : exclusive_industry cfg st = Some i) by (by apply exclusive_industry_Some).
  destruct (RecomputeCatchment_recomputed ca cfg w s b Hv) as (w' & Hret & Hrec); [eauto|].
  destruct (recomputed_station _ _ _ _ _ _ _ Hrec Hs) as (st' & Hs' & _ & Hcat & Hnear).
  destruct Hv as (_ & _ & Hvs & _). destruct (Hvs s st i Hs Hlink) as [ind Hind].
  exists w', st', ind. split; [done|]. split; [done|]. split; [done|]. split.
  - apply set_eq. intros i'. rewrite Hnear, elem_of_singleton. unfold is_near. split.
    + intros (st0 & Hs0 & _ & H). rewrite Hs in Hs0. injection Hs0 as <-.
      rewrite Hx in H. exact H.
    + intros ->. exists st. rewrite Hx. done.
  - intros t. rewrite Hcat. unfold in_catchment. split.
    + intros (st0 & Hs0 & _ & H). rewrite Hs in Hs0. injection Hs0 as <-.
      rewrite Hx in H. destruct H as (ind' & Hi' & ? & ?).
      assert (ind' = ind) as -> by congruence. done.
    + intros [? ?]. exists st. rewrite Hx. split; [done|]. split; [done|]. by exists ind.
Qed.

Lemma is_near_serves ca cfg w s i :
  pools_valid w → is_near ca cfg w s i →
  serves ca cfg w s i ∧ is_Some (industries w !! i).
Proof.
  intros (_ & _ & Hvs & _) (st & Hs & He & H). unfold serves.
  destruct (exclusive_industry cfg st) as [i'|] eqn:Hx.
  - subst i'. split.
    + exists st. by rewrite Hx.
    + apply exclusive_industry_Some in Hx as [_ Hlink]. by eapply Hvs.
  - destruct H as [Hreach (ind & Hi & _)]. split; [|eauto].
    exists st. by rewrite Hx.
Qed.

Lemma serves_is_near ca cfg w s i ind :
  serves ca cfg w s i → industries w !! i = Some ind → accepts ind →
  is_near ca cfg w s i.
Proof.
  intros (st & Hs & He & H) Hi Hacc. exists st. split; [done|]. split; [done|].
  destruct (exclusive_industry cfg st); [done|]. split; [done|]. by exists ind.
Qed.


(** ** Teardown of a station *)

Lemma no_origin_erase a f : no_origin a (FlowStatMap_erase a f).
Proof. apply lookup_delete_eq. Qed.

Lemma no_via_erase a b f : no_via a f → no_via a (FlowStatMap_erase b f).
Proof.
  intros H o vias Ho. unfold FlowStatMap_erase in Ho.
  apply lookup_delete_Some in Ho as [_ Ho]. by eapply H.
Qed.

Lemma no_origin_erase_keep a b f : no_origin a f → no_origin a (FlowStatMap_erase b f).
Proof.
  unfold no_origin, FlowStatMap_erase. intros H.
  apply lookup_delete_None. by right.
Qed.

Lemma no_via_DeleteFlows a f : no_via a (FlowStatMap_DeleteFlows a f).
Proof.
  intros o vias Ho. unfold FlowStatMap_DeleteFlows in Ho.
  apply map_lookup_filter_Some in Ho as [Ho _].
  rewrite lookup_fmap in Ho. apply fmap_Some in Ho as (v & _ & ->).
  rewrite elem_of_difference, elem_of_singleton. tauto.
Qed.

Lemma no_via_DeleteFlows_keep a b f : no_via a f → no_via a (FlowStatMap_DeleteFlows b f).
Proof.
  intros H o vias Ho. unfold FlowStatMap_DeleteFlows in Ho.
  apply map_lookup_filter_Some in Ho as [Ho _].
  rewrite lookup_fmap in Ho. apply fmap_Some in Ho as (v & Hv & ->).
  rewrite elem_of_difference. intros [? _]. by eapply H.
Qed.

Lemma no_origin_DeleteFlows a b f : no_origin a f → no_origin a (FlowStatMap_DeleteFlows b f).
Proof.
  unfold no_origin, FlowStatMap_DeleteFlows. intros H.
  apply map_lookup_filter_None. left. by rewrite lookup_fmap, H.
Qed.

Lemma goods_set_flows c f st c' :
  goods (set_flows c f st) c' =
  if decide (c' = c) then mkGoods (ge_link_graph (goods st c)) (ge_node (goods st c)) f
  else goods st c'.
Proof. reflexivity. Qed.

Lemma goods_frame_refl c st : goods_frame c st st.
Proof. split; done. Qed.

Lemma goods_frame_trans c st1 st2 st3 :
  goods_frame c st1 st2 → goods_frame c st2 st3 → goods_frame c st1 st3.
Proof.
  intros [H1 H1'] [H2 H2']. split.
  - intros c'. destruct (H1 c'), (H2 c'). split; congruence.
  - intros c' Hc. rewrite H2', H1'; done.
Qed.

Lemma goods_frame_set_flows c f st : goods_frame c st (set_flows c f st).
Proof.
  split; intros c'; [|intros Hc]; rewrite goods_set_flows; destruct (decide (c' = c));
    subst; done.
Qed.

Lemma flows_set_flows c f st : ge_flows (goods (set_flows c f st) c) = f.
Proof. rewrite goods_set_flows, decide_True by done. done. Qed.

Lemma destroy_nodes_spec this c lg me w nodes :
  stations w !! this = Some me →
  (∀ n, n ∈ nodes → ∃ s, lg_nodes lg !! n = Some s ∧ is_Some (stations w !! s)) →
  ∃ w', for_each (destroy_node_step this c lg) nodes w = Returns w' ∧
        nodes_done this c lg (ge_node (goods me c)) nodes w w'.
Proof.
  intros Hme Hvalid.
  apply (for_each_ind _ (fun pre w' => nodes_done this c lg (ge_node (goods me c)) pre w w')).
  - repeat split; try done. intros s. destruct (stations w !! s); constructor.
    split; [apply goods_frame_refl|]. split; [done|]. split; [done|].
    intros n []%elem_of_nil.
  - intros pre n w1 (Hm & Hx & Hy & Hi & Ht & Hg & Hq & Hst) Hn.
    destruct (Hvalid n Hn) as (s0 & Hs0 & [st0 Hst0]).
    unfold destroy_node_step, Station_Get.
    pose proof (Hst this) as Hthis. rewrite Hme in Hthis.
    inversion Hthis as [? me1 [[Hids _] _] Heq1 Heq2|]; subst. symmetry in Heq2.
    rewrite (pool_get_Some _ _ _ Heq2). cbn [mbind Outcome_bind]. rewrite Hs0.
    cbn [mbind Outcome_bind].
    pose proof (Hst s0) as Hs0'. rewrite Hst0 in Hs0'.
    inversion Hs0' as [? st1 (Hfr & Hno & Hnv & Hdone) Heq3 Heq4|]; subst. symmetry in Heq4.
    rewrite (pool_get_Some _ _ _ Heq4). cbn [mbind Outcome_bind].
    destruct (Hids c) as [_ Hnode]. rewrite Hnode.
    set (Fe := fun st => set_flows c (FlowStatMap_erase this (ge_flows (goods st c))) st).
    set (Fd := fun st => set_flows c (FlowStatMap_DeleteFlows this (ge_flows (goods st c))) st).
    set (live := bool_decide (lg_last_update lg n (ge_node (goods me c)) ≠ INVALID_DATE)).
    assert (∃ F, (if live
                  then Returns (RerouteCargo (upd_station s0 Fd (upd_station s0 Fe w1))
                                             s0 c this s0)
                  else Returns (upd_station s0 Fe w1))
                 = Returns (upd_station s0 F w1) ∧
                 (∀ st, goods_frame c st (F st) ∧
                        no_origin this (ge_flows (goods (F st) c)) ∧
                        (no_via this (ge_flows (goods st c)) →
                         no_via this (ge_flows (goods (F st) c))) ∧
                        (live = true → no_via this (ge_flows (goods (F st) c)))))
      as (F & -> & HF).
    { destruct live.
      - exists (Fd ∘ Fe). split; [by rewrite upd_station_compose|].
        intros st. subst Fd Fe. unfold compose. cbv beta.
        rewrite !flows_set_flows. split; [|split; [|split]].
        + eapply goods_frame_trans; apply goods_frame_set_flows.
        + apply no_origin_DeleteFlows, no_origin_erase.
        + intros _. apply no_via_DeleteFlows.
        + intros _. apply no_via_DeleteFlows.
      - exists Fe. split; [done|]. intros st. subst Fe. cbv beta.
        rewrite !flows_set_flows. split; [|split; [|split]].
        + apply goods_frame_set_flows.
        + apply no_origin_erase.
        + apply no_via_erase.
        + done. }
    eexists. split; [reflexivity|]. repeat split; try done.
    intros s. cbn. rewrite lookup_alter. specialize (Hst s).
    destruct (decide (s0 = s)) as [<-|Hne].
    + rewrite Heq4, Hst0 in *. cbn. constructor.
      destruct (HF st1) as (HF1 & HF2 & HF3 & HF4).
      split; [by eapply goods_frame_trans|]. split; [done|]. split; [tauto|].
      intros n' Hn' Hs'. split; [done|]. intros Hlive.
      apply elem_of_app in Hn' as [Hn'|Hn'%list_elem_of_singleton].
      * apply HF3. by apply (Hdone n').
      * subst n'. apply HF4. by apply bool_decide_eq_true.
    + destruct Hst as [st st' (Hfr' & Hno' & Hnv' & Hdone')|]; constructor.
      split; [done|]. split; [done|]. split; [done|].
      intros n' [Hn'|Hn'%list_elem_of_singleton]%elem_of_app Hs'; [by apply Hdone'|].
      subst n'. congruence.
Qed.

(** The loop invariant may also use the position of the item in the list. *)
Lemma for_each_ind_split {A S : Type} (body : S → A → Outcome S)
    (P : list A → S → Prop) (l : list A) (s0 : S) :
  P [] s0 →
  (∀ pre a suf s, l = pre ++ a :: suf → P pre s →
                  ∃ s', body s a = Returns s' ∧ P (pre ++ [a]) s') →
  ∃ s', for_each body l s0 = Returns s' ∧ P l s'.
Proof.
  revert P s0. induction l as [|a l IH]; intros P s0 H0 Hstep.
  - exists s0. done.
  - destruct (Hstep [] a l s0 eq_refl H0) as (s1 & Hb & H1).
    cbn [for_each]. rewrite Hb. cbn.
    apply (IH (fun pre s => P (a :: pre) s) s1 H1).
    intros pre a' suf s Hl Hp.
    destruct (Hstep (a :: pre) a' suf s) as (s' & ? & ?); [by rewrite Hl|done|].
    exists s'. done.
Qed.

Lemma Size_RemoveNode n lg :
  is_Some (lg_nodes lg !! n) →
  LinkGraph_Size (LinkGraph_RemoveNode n lg) = (LinkGraph_Size lg - 1)%nat.
Proof. intros H. unfold LinkGraph_Size, LinkGraph_RemoveNode. cbn. by apply length_delete. Qed.

Lemma destroy_cargos_spec NUM this a c lg w :
  stations w !! this = Some a → (c < NUM)%nat →
  link_graphs w !! ge_link_graph (goods a c) = Some lg →
  is_Some (lg_nodes lg !! ge_node (goods a c)) →
  graphs_valid NUM w a →
  ∃ w', for_each (destroy_cargo_step this) (seq 0 NUM) w = Returns w' ∧
        cargos_done this a c lg (seq 0 NUM) w w'.
Proof.
  intros Ha Hc Hlg Hnode [Hval Huniq].
  apply (for_each_ind_split _ (fun pre w1 => cargos_done this a c lg pre w w1)).
  { unfold cargos_done. split; [|split; [|split; [|split]]]; try done.
    - intros s. destruct (stations w !! s); constructor.
      split; [done|]. split; [done|]. intros []%elem_of_nil.
    - intros []%elem_of_nil. }
  intros pre c' suf w1 Hl (I1 & I2 & I3 & I4 & I5).
  assert (Hc' : (c' < NUM)%nat).
  { assert (c' ∈ seq 0 NUM) as Hin by (rewrite Hl, elem_of_app, elem_of_cons; tauto).
    apply elem_of_seq in Hin. lia. }
  assert (Hpre : ∀ c'', c'' ∈ pre → (c'' < NUM)%nat ∧ c'' ≠ c').
  { intros c'' Hin. split.
    - assert (c'' ∈ seq 0 NUM) as Hin' by (rewrite Hl, elem_of_app; tauto).
      apply elem_of_seq in Hin'. lia.
    - pose proof (NoDup_seq 0 NUM) as Hnd. rewrite Hl in Hnd.
      apply NoDup_app in Hnd as (_ & Hnd & _). intros ->. apply (Hnd c' Hin).
      apply list_elem_of_here. }
  pose proof (I1 this) as Hthis. rewrite Ha in Hthis.
  inversion Hthis as [? me1 (Hids & _ & _) Heq1 Heq2|]; subst. symmetry in Heq2.
  unfold destroy_cargo_step, Station_Get.
  rewrite (pool_get_Some _ _ _ Heq2). cbn [mbind Outcome_bind].
  destruct (Hids c') as [Hid' Hnode']. rewrite Hid', Hnode'.
  set (id' := ge_link_graph (goods a c')). set (id := ge_link_graph (goods a c)) in *.
  assert (Hsame : link_graphs w1 !! id' = link_graphs w !! id').
  { apply I2. intros c'' Hin. destruct (Hpre c'' Hin) as [? ?].
    destruct (link_graphs w !! ge_link_graph (goods a c'')) eqn:Hg; [left|by right].
    apply Huniq; eauto. }
  assert (Hdom : ∀ s, is_Some (stations w !! s) → is_Some (stations w1 !! s)).
  { intros s [st Hs]. specialize (I1 s). rewrite Hs in I1. inversion I1. eauto. }
  rewrite Hsame. destruct (link_graphs w !! id') as [lg'|] eqn:Hlg'.
  2:{ exists w1. split; [done|].
      assert (Hcc : c ≠ c') by (intros ->; subst id id'; congruence).
      split; [|split; [|split; [|split]]]; try done.
      - intros s. specialize (I1 s).
        destruct I1 as [st st1 (J1 & J2 & J3)|]; constructor. split; [done|]. split.
        + intros c'' Hnin. apply J2. intros ?. apply Hnin, elem_of_app. by left.
        + intros [Hin|Hin%list_elem_of_singleton]%elem_of_app; [by apply J3 | done].
      - intros g Hg. apply I2. intros c'' Hin. apply Hg, elem_of_app. by left.
      - intros [Hin|Hin%list_elem_of_singleton]%elem_of_app; [by apply I4 | done].
      - intros Hsz. apply I5. intros Hin. apply Hsz, elem_of_app. by left. }
  destruct (destroy_nodes_spec this c' lg' me1 w1 (seq 0 (LinkGraph_Size lg')) Heq2)
    as (w2 & Hret & (_ & _ & _ & _ & _ & Hg2 & Hq2 & Hst2)).
  { intros n Hn%elem_of_seq.
    destruct (lookup_lt_is_Some_2 (lg_nodes lg') n) as [s Hs]; [unfold LinkGraph_Size in Hn; lia|].
    exists s. split; [done|]. apply Hdom. apply (Hval c' lg' s Hc' Hlg').
    by eapply list_elem_of_lookup_2. }
  rewrite Hret. cbn [mbind Outcome_bind].
  set (lgr := LinkGraph_RemoveNode (ge_node (goods a c')) lg').
  assert (Hlgr : alter (LinkGraph_RemoveNode (ge_node (goods a c'))) id' (link_graphs w2) !! id'
                 = Some lgr).
  { rewrite lookup_alter_eq, Hg2, Hsame. done. }
  cbn [link_graphs with_link_graphs]. rewrite (pool_get_Some _ _ _ Hlgr).
  cbn [mbind Outcome_bind].
  (* the stations after the loop over the nodes *)
  assert (J1 : ∀ s, option_Forall2
          (fun st st' =>
             (∀ c', ge_link_graph (goods st' c') = ge_link_graph (goods st c') ∧
                    ge_node (goods st' c') = ge_node (goods st c')) ∧
             (∀ c'', c'' ∉ pre ++ [c'] → goods st' c'' = goods st c'') ∧
             (c ∈ pre ++ [c'] → ∀ n, lg_nodes lg !! n = Some s →
                no_origin this (ge_flows (goods st' c)) ∧
                (lg_last_update lg n (ge_node (goods a c)) ≠ INVALID_DATE →
                 no_via this (ge_flows (goods st' c)))))
          (stations w !! s) (stations w2 !! s)).
  { intros s. specialize (I1 s). specialize (Hst2 s).
    destruct I1 as [st st1 (K1 & K2 & K3)|]; inversion Hst2 as [? st2 ([L1 L1'] & _ & _ & L2)|];
      subst; constructor.
    split; [|split].
    - intros c''. destruct (K1 c''), (L1 c''). split; congruence.
    - intros c'' Hnin. rewrite L1', K2; [done| |].
      + intros ?. apply Hnin, elem_of_app. by left.
      + intros ->. apply Hnin, elem_of_app. right. apply list_elem_of_here.
    - intros [Hin|Hin%list_elem_of_singleton]%elem_of_app n Hn.
      + destruct (Hpre c Hin) as [_ Hne]. rewrite L1' by done. by apply K3.
      + subst c'. assert (lg' = lg) as -> by (subst id id'; congruence).
        destruct (Hids c) as [_ Hnd]. rewrite <- Hnd. apply L2; [|done].
        apply elem_of_seq. apply lookup_lt_Some in Hn. unfold LinkGraph_Size. lia. }
  assert (Hother : ∀ g, g ≠ id' →
            alter (LinkGraph_RemoveNode (ge_node (goods a c'))) id' (link_graphs w2) !! g
            = link_graphs w1 !! g).
  { intros g Hne. rewrite lookup_alter_ne by done. by rewrite Hg2. }
  assert (Hidne : c ≠ c' → id ≠ id').
  { intros Hne. apply Huniq; eauto. }
  assert (Hsz : c = c' → LinkGraph_Size lgr = (LinkGraph_Size lg - 1)%nat).
  { intros <-. assert (lg' = lg) as -> by (subst id id'; congruence).
    by apply Size_RemoveNode. }
  assert (Hpos : (0 < LinkGraph_Size lg)%nat).
  { apply lookup_lt_is_Some_1 in Hnode. unfold LinkGraph_Size. lia. }
  case_bool_decide as Hzero.
  - (* the graph is retired *)
    eexists. split; [reflexivity|].
    split; [exact J1|]. cbn [link_graphs schedule stations with_link_graphs Unqueue with_schedule].
    split; [|split; [|split]].
    + intros g Hg. assert (g ≠ id') as Hne.
      { destruct (Hg c') as [?|?]; [apply elem_of_app; right; apply list_elem_of_here|done|].
        subst id'. congruence. }
      rewrite lookup_delete_ne, Hother by done. apply I2.
      intros c'' Hin. apply Hg, elem_of_app. by left.
    + intros g [_ Hin]%list_elem_of_filter. rewrite Hq2 in Hin. by apply I3.
    + intros [Hin|Hin%list_elem_of_singleton]%elem_of_app.
      * destruct (Hpre c Hin) as [_ Hne]. specialize (I4 Hin).
        rewrite lookup_delete_ne, Hother by (intros Heq; apply (Hidne Hne); first [exact Heq | symmetry; exact Heq]).
        destruct (decide (LinkGraph_Size lg = 1%nat)); [|done].
        destruct I4 as [? Hns]. split; [done|].
        intros [_ Hin']%list_elem_of_filter. rewrite Hq2 in Hin'. done.
      * subst c'. rewrite Hsz in Hzero by done.
        rewrite decide_True by lia. split; [apply lookup_delete_eq|].
        intros [Hne _]%list_elem_of_filter. done.
    + intros Hsize Hin. apply list_elem_of_filter. rewrite Hq2.
      assert (c ≠ c') as Hne.
      { intros <-. rewrite Hsz in Hzero by done.
        apply Hsize; [apply elem_of_app; right; apply list_elem_of_here | lia]. }
      split; [by apply Hidne|]. apply I5; [|done].
      intros Hin'. apply Hsize, elem_of_app. by left.
  - eexists. split; [reflexivity|].
    split; [exact J1|]. cbn [link_graphs schedule stations with_link_graphs].
    split; [|split; [|split]].
    + intros g Hg. assert (g ≠ id') as Hne.
      { destruct (Hg c') as [?|?]; [apply elem_of_app; right; apply list_elem_of_here|done|].
        subst id'. congruence. }
      rewrite Hother by done. apply I2.
      intros c'' Hin. apply Hg, elem_of_app. by left.
    + intros g Hin. rewrite Hq2 in Hin. by apply I3.
    + intros [Hin|Hin%list_elem_of_singleton]%elem_of_app.
      * destruct (Hpre c Hin) as [_ Hne]. specialize (I4 Hin).
        rewrite Hother by (intros Heq; apply (Hidne Hne); first [exact Heq | symmetry; exact Heq]).
        destruct (decide (LinkGraph_Size lg = 1%nat)); [|done].
        destruct I4 as [? Hns]. split; [done|]. by rewrite Hq2.
      * subst c'. rewrite Hsz in Hzero by done.
        rewrite decide_False by lia.
        assert (lg' = lg) as -> by (subst id id'; congruence).
        subst id id' lgr. exact Hlgr.
    + intros Hsize Hin. rewrite Hq2. apply I5; [|done].
      intros Hin'. apply Hsize, elem_of_app. by left.
Qed.

(** The teardown of station [this], which has the node [ge_node (goods a c)]
    in the link graph [lg] of cargo [c]. *)
Lemma Station_delete_spec NUM w this a c lg :
  stations w !! this = Some a → (c < NUM)%nat →
  link_graphs w !! ge_link_graph (goods a c) = Some lg →
  is_Some (lg_nodes lg !! ge_node (goods a c)) →
  graphs_valid NUM w a →
  ∃ w', Station_delete false NUM w this = Returns w' ∧
    stations w' !! this = None ∧
    (∀ s st n, s ≠ this → stations w !! s = Some st → lg_nodes lg !! n = Some s →
       ∃ st', stations w' !! s = Some st' ∧
              no_origin this (ge_flows (goods st' c)) ∧
              (lg_last_update lg n (ge_node (goods a c)) ≠ INVALID_DATE →
               no_via this (ge_flows (goods st' c)))) ∧
    (if decide (LinkGraph_Size lg = 1%nat)
     then link_graphs w' !! ge_link_graph (goods a c) = None ∧
          ge_link_graph (goods a c) ∉ schedule w'
     else link_graphs w' !! ge_link_graph (goods a c)
            = Some (LinkGraph_RemoveNode (ge_node (goods a c)) lg) ∧
          (ge_link_graph (goods a c) ∈ schedule w' ↔
           ge_link_graph (goods a c) ∈ schedule w)).
Proof.
  intros Ha Hc Hlg Hnode Hvalid.
  destruct (destroy_cargos_spec NUM this a c lg w Ha Hc Hlg Hnode Hvalid)
    as (w1 & Hret & I1 & I2 & I3 & I4 & I5).
  unfold Station_delete, Station_destructor. rewrite Hret. cbn [mbind Outcome_bind].
  eexists. split; [reflexivity|].
  assert (Hcin : c ∈ seq 0 NUM) by (apply elem_of_seq; lia).
  cbn. split; [apply lookup_delete_eq|]. split.
  - intros s st n Hne Hs Hn. rewrite lookup_delete_ne by done.
    specialize (I1 s). rewrite Hs in I1. inversion I1 as [? st' (_ & _ & J)|]; subst.
    exists st'. split; [done|]. by apply J.
  - specialize (I4 Hcin). destruct (decide (LinkGraph_Size lg = 1%nat)); [done|].
    split; [done|]. split; [apply I3|]. by apply I5.
Qed.

(** C6, amended: destroying the station [this], which has a node in the
    link graph [lg] of cargo [c], when another station [other] of the graph
    has an up-to-date edge to that node, leaves [other] without any flow
    entry for origin [this] and without any flow sent on to [this] for
    cargo [c], and removes the node of [this] from the graph.  The graph
    itself stays in the pool and keeps its place in the schedule: it still
    holds the node of [other]. *)
Theorem Station_delete_link_graph NUM w this other a b c lg n :
  stations w !! this = Some a → stations w !! other = Some b → this ≠ other →
  (c < NUM)%nat →
  link_graphs w !! ge_link_graph (goods a c) = Some lg →
  lg_nodes lg !! ge_node (goods a c) = Some this →
  lg_nodes lg !! n = Some other →
  lg_last_update lg n (ge_node (goods a c)) ≠ INVALID_DATE →
  graphs_valid NUM w a →
  ∃ w' b',
    Station_delete false NUM w this = Returns w' ∧
    stations w' !! this = None ∧
    stations w' !! other = Some b' ∧
    no_origin this (ge_flows (goods b' c)) ∧ no_via this (ge_flows (goods b' c)) ∧
    link_graphs w' !! ge_link_graph (goods a c)
      = Some (LinkGraph_RemoveNode (ge_node (goods a c)) lg) ∧
    LinkGraph_Size (LinkGraph_RemoveNode (ge_node (goods a c)) lg)
      = (LinkGraph_Size lg - 1)%nat ∧
    (0 < LinkGraph_Size (LinkGraph_RemoveNode (ge_node (goods a c)) lg))%nat ∧
    (ge_link_graph (goods a c) ∈ schedule w' ↔ ge_link_graph (goods a c) ∈ schedule w).
Proof.
  intros Ha Hb Hne Hc Hlg Hnode Hn Hlive Hvalid.
  destruct (Station_delete_spec NUM w this a c lg Ha Hc Hlg (mk_is_Some _ _ Hnode) Hvalid)
    as (w' & Hret & Hgone & Hflows & Hgraph).
  destruct (Hflows other b n (not_eq_sym Hne) Hb Hn) as (b' & Hb' & Hno & Hnv).
  assert (Hsize : (2 <= LinkGraph_Size lg)%nat).
  { assert (ge_node (goods a c) ≠ n) as Hnn by (intros Heq; rewrite Heq in Hnode; congruence).
    apply lookup_lt_Some in Hnode, Hn. unfold LinkGraph_Size. lia. }
  rewrite decide_False in Hgraph by lia. destruct Hgraph as [Hg Hq].
  pose proof (Size_RemoveNode _ _ (mk_is_Some _ _ Hnode)) as Hsz.
  exists w', b'. repeat split; try done; try tauto; try lia.
Qed.

(** A link graph is retired only when it is left without any node: the
    teardown of the station of its only node unqueues and disposes it. *)
Lemma Station_delete_last_node NUM w this a c lg :
  stations w !! this = Some a → (c < NUM)%nat →
  link_graphs w !! ge_link_graph (goods a c) = Some lg →
  lg_nodes lg = [this] → ge_node (goods a c) = 0%nat →
  graphs_valid NUM w a →
  ∃ w', Station_delete false NUM w this = Returns w' ∧
        link_graphs w' !! ge_link_graph (goods a c) = None ∧
        ge_link_graph (goods a c) ∉ schedule w'.
Proof.
  intros Ha Hc Hlg Hnodes Hnode Hvalid.
  destruct (Station_delete_spec NUM w this a c lg Ha Hc Hlg) as (w' & Hret & _ & _ & Hgraph);
    [by rewrite Hnode, Hnodes | done |].
  exists w'. split; [done|].
  rewrite decide_True in Hgraph; [done|]. unfold LinkGraph_Size. by rewrite Hnodes.
Qed.

(** ** The example worlds *)


(** A lookup that succeeds in a pool with one item. *)
Lemma lookup_singleton_inv `{Countable K} {V} (k k' : K) (v v' : V) :
  ({[k := v]} : gmap K V) !! k' = Some v' → k' = k ∧ v' = v.
Proof. intros [? ?]%lookup_singleton_Some. done. Qed.

(** The example worlds hold no dangling reference. *)
Lemma pools_valid_example tm sx sy st lgs sch :
  (∀ t, tm t = ex_map t) →
  (industry st = None ∨ industry st = Some 2%N) →
  pools_valid (mkWorld tm sx sy {[1%N := st]} {[2%N := ex_industry]}
                       {[3%N := mkTown ∅]} lgs sch).
Proof.
  intros Htm Hlink. repeat split; cbn.
  - intros t. unfold IsTileType, GetTownIndex. rewrite Htm. unfold ex_map.
    destruct (tile_is t 10 10); [|destruct (tile_is t 12 10); [|destruct (tile_is t 9 9)]];
      cbn; intros Hty; try discriminate; solve_is_Some.
  - intros t. unfold IsTileType, GetIndustryIndex. rewrite Htm. unfold ex_map.
    destruct (tile_is t 10 10); [|destruct (tile_is t 12 10); [|destruct (tile_is t 9 9)]];
      cbn; intros Hty; try discriminate; solve_is_Some.
  - intros s st' i [-> ->]%lookup_singleton_inv Hi.
    destruct Hlink as [Hl|Hl]; rewrite Hl in Hi; [discriminate|].
    injection Hi as <-. solve_is_Some.
  - intros i ind s [-> ->]%lookup_singleton_inv Hin. cbn in Hin.
    by apply not_elem_of_empty in Hin.
Qed.



(** C3 as stated fails: committing a first tile with X coordinate 0 to the
    empty rect leaves a rect that [IsEmpty] classifies as empty ([left] is
    the sentinel 0), although the station now owns a tile. *)
Lemma rect_empty_with_tile_at_x0 :
  let s := mkRectState
             (SetTileContent ex_clear_map (TileXY 0 5) (mkTile MP_STATION 1 STATION_RAIL))
             (mkRect 0 5 0 5) in
  reachable ex_cfg 1%N (fun _ => True) s ∧
  IsEmpty (rs_rect s) = true ∧ ¬ owns_no_tile 1%N s.
Proof.
  cbn zeta. split; [|split].
  - eapply reach_step.
    + apply (reach_init ex_cfg 1%N (fun _ => True) ex_clear_map). reflexivity.
    + apply (step_add ex_cfg 1%N (fun _ => True) ex_clear_map MakeEmpty (TileXY 0 5)
               ADD_FORCE (mkTile MP_STATION 1 STATION_RAIL) (mkRect 0 5 0 5));
        [exact I | discriminate | reflexivity | reflexivity].
  - reflexivity.
  - intros Hnone. specialize (Hnone (TileXY 0 5)). vm_compute in Hnone. discriminate.
Qed.

(** The state after the first tile (3, 4) of station 1 has been added. *)
Lemma rect_empty_iff_no_tiles_witness :
  let s := mkRectState
             (SetTileContent ex_clear_map (TileXY 3 4) (mkTile MP_STATION 1 STATION_RAIL))
             (mkRect 3 4 3 4) in
  reachable ex_cfg 1%N (fun t => TileX t ≠ 0) s ∧
  (IsEmpty (rs_rect s) = true ↔ owns_no_tile 1%N s).
Proof.
  cbn zeta.
  assert (Hreach : reachable ex_cfg 1%N (fun t => TileX t ≠ 0)
            (mkRectState
               (SetTileContent ex_clear_map (TileXY 3 4) (mkTile MP_STATION 1 STATION_RAIL))
               (mkRect 3 4 3 4))).
  { eapply reach_step.
    - apply (reach_init ex_cfg 1%N (fun t => TileX t ≠ 0) ex_clear_map). reflexivity.
    - apply (step_add ex_cfg 1%N (fun t => TileX t ≠ 0) ex_clear_map MakeEmpty (TileXY 3 4)
               ADD_TRY (mkTile MP_STATION 1 STATION_RAIL) (mkRect 3 4 3 4));
        [simpl; lia | discriminate | reflexivity | reflexivity]. }
  split; [exact Hreach|]. exact (rect_empty_iff_no_tiles ex_cfg 1%N _ Hreach).
Defined.





(** C5 as stated fails: for a station that is bound to industry 2 but has
    the empty rect, [RecomputeCatchment] returns before it looks at the
    industry, and [industries_near] is left empty, not [{2}]. *)
Lemma exclusive_station_without_rect :
  let st := mkStation MakeEmpty ∅ ∅ (Some 2%N) 5 0 no_goods in
  stations ex_world_unbuilt !! 1%N = Some st ∧
  serve_neutral_industries ex_cfg = false ∧ industry st = Some 2%N ∧
  ∃ w' st', RecomputeCatchment ex_ca ex_cfg ex_world_unbuilt 1%N false = Returns w' ∧
            stations w' !! 1%N = Some st' ∧
            industries_near st' = ∅ ∧ industries_near st' ≠ {[2%N]}.
Proof.
  cbn zeta. split; [vm_compute; reflexivity|]. split; [reflexivity|]. split; [reflexivity|].
  eexists _, _. split; [vm_compute; reflexivity|]. split; [vm_compute; reflexivity|].
  split; [reflexivity|]. compute_false.
Qed.

(** [RecomputeCatchment_exclusive_industry] at station 1 of
    [ex_world_bound]. *)
Lemma RecomputeCatchment_exclusive_industry_witness :
  let st := mkStation (mkRect 10 10 10 10) ∅ ∅ (Some 2%N) 0 0 no_goods in
  pools_valid ex_world_bound ∧ stations ex_world_bound !! 1%N = Some st ∧
  IsEmpty (rect st) = false ∧ serve_neutral_industries ex_cfg = false ∧
  industry st = Some 2%N ∧
  ∃ w' st' ind,
    RecomputeCatchment ex_ca ex_cfg ex_world_bound 1%N false = Returns w' ∧
    stations w' !! 1%N = Some st' ∧ industries ex_world_bound !! 2%N = Some ind ∧
    industries_near st' = {[2%N]} ∧
    ∀ t, t ∈ catchment_tiles st' ↔
         t ∈ TileArea_tiles (location ind) ∧ industry_tile_of ex_world_bound 2%N t.
Proof.
  cbn zeta.
  assert (Hv : pools_valid ex_world_bound) by (apply pools_valid_example; [done | by right]).
  split; [exact Hv|]. split; [vm_compute; reflexivity|]. split; [reflexivity|].
  split; [reflexivity|]. split; [reflexivity|].
  apply (RecomputeCatchment_exclusive_industry ex_ca ex_cfg ex_world_bound 1%N false
           (mkStation (mkRect 10 10 10 10) ∅ ∅ (Some 2%N) 0 0 no_goods) 2%N Hv);
    [vm_compute; reflexivity | reflexivity | reflexivity | reflexivity].
Defined.

(** [RecomputeCatchment_idempotent] at station 1 of [ex_world]. *)
Lemma RecomputeCatchment_idempotent_witness :
  pools_valid ex_world ∧ is_Some (stations ex_world !! 1%N) ∧
  ∃ w1 w2 st1 st2,
    RecomputeCatchment ex_ca ex_cfg ex_world 1%N false = Returns w1 ∧
    RecomputeCatchment ex_ca ex_cfg w1 1%N false = Returns w2 ∧
    stations w1 !! 1%N = Some st1 ∧ stations w2 !! 1%N = Some st2 ∧
    catchment_tiles st2 = catchment_tiles st1 ∧
    industries_near st2 = industries_near st1.
Proof.
  assert (Hv : pools_valid ex_world) by (apply pools_valid_example; [done | by left]).
  assert (Hs : is_Some (stations ex_world !! 1%N)) by solve_is_Some.
  split; [exact Hv|]. split; [exact Hs|].
  exact (RecomputeCatchment_idempotent ex_ca ex_cfg ex_world 1%N false false Hv Hs).
Defined.

(** [RecomputeCatchment_bonus_monotone] at station 1 of [ex_world], for
    the bonus values 0 and 2. *)
Lemma RecomputeCatchment_bonus_monotone_witness :
  pools_valid ex_world ∧ stations ex_world !! 1%N = Some ex_station ∧
  radii_in_range ex_ca (with_catchment_increase 0 ex_cfg) (airport_catchment ex_station) ∧
  radii_in_range ex_ca (with_catchment_increase 2 ex_cfg) (airport_catchment ex_station) ∧
  0 <= 2 ∧
  ∃ w1 w2 st1 st2,
    RecomputeCatchment ex_ca (with_catchment_increase 0 ex_cfg) ex_world 1%N false
      = Returns w1 ∧
    RecomputeCatchment ex_ca (with_catchment_increase 2 ex_cfg) ex_world 1%N false
      = Returns w2 ∧
    stations w1 !! 1%N = Some st1 ∧ stations w2 !! 1%N = Some st2 ∧
    ∀ t, t ∈ catchment_tiles st1 → t ∈ catchment_tiles st2.
Proof.
  assert (Hv : pools_valid ex_world) by (apply pools_valid_example; [done | by left]).
  assert (Hs : stations ex_world !! 1%N = Some ex_station) by (vm_compute; reflexivity).
  assert (Hr0 : radii_in_range ex_ca (with_catchment_increase 0 ex_cfg)
                  (airport_catchment ex_station)) by (unfold radii_in_range; simpl; lia).
  assert (Hr2 : radii_in_range ex_ca (with_catchment_increase 2 ex_cfg)
                  (airport_catchment ex_station)) by (unfold radii_in_range; simpl; lia).
  assert (Hle : 0 <= 2) by lia.
  split; [exact Hv|]. split; [exact Hs|]. split; [exact Hr0|]. split; [exact Hr2|].
  split; [exact Hle|].
  exact (RecomputeCatchment_bonus_monotone ex_ca ex_cfg ex_world 1%N false ex_station 0 2
           Hv Hs Hr0 Hr2 Hle).
Defined.

(** [RecomputeCatchment_empty_rect] at station 1 of [ex_world_unbuilt],
    whose [station_tiles] stays at 5. *)
Lemma RecomputeCatchment_empty_rect_witness :
  let st := mkStation MakeEmpty ∅ ∅ (Some 2%N) 5 0 no_goods in
  stations ex_world_unbuilt !! 1%N = Some st ∧ IsEmpty (rect st) = true ∧
  ∃ w' st', RecomputeCatchment ex_ca ex_cfg ex_world_unbuilt 1%N false = Returns w' ∧
            stations w' !! 1%N = Some st' ∧
            catchment_tiles st' = ∅ ∧ industries_near st' = ∅ ∧
            station_tiles st' = station_tiles st.
Proof.
  cbn zeta. split; [vm_compute; reflexivity|]. split; [reflexivity|].
  apply (RecomputeCatchment_empty_rect ex_ca ex_cfg ex_world_unbuilt 1%N
           (mkStation MakeEmpty ∅ ∅ (Some 2%N) 5 0 no_goods) false);
    [vm_compute; reflexivity | reflexivity].
Defined.

(** The link graphs of [ex_world_graph] are well formed. *)
Lemma graphs_valid_example : graphs_valid 2 ex_world_graph ex_station_A.
Proof.
  split.
  - intros c lg s Hc Hlg Hs. destruct c as [|[|c]]; [| |lia].
    + vm_compute in Hlg. injection Hlg as <-. cbn in Hs.
      apply elem_of_cons in Hs as [->|Hs]; [solve_is_Some|].
      apply list_elem_of_singleton in Hs as ->. solve_is_Some.
    + vm_compute in Hlg. discriminate.
  - intros c1 c2 Hc1 Hc2 Hne [lg Hlg].
    destruct c1 as [|[|c1]]; [| |lia].
    + destruct c2 as [|[|c2]]; [done| |lia]. vm_compute. discriminate.
    + vm_compute in Hlg. discriminate.
Qed.

(** C6 as stated fails: stations 1 and 2 are the only two nodes of graph 5;
    after station 1 is destroyed the graph is still in the pool, with the
    node of station 2, and still queued in the schedule. *)
Lemma two_node_graph_not_retired :
  lg_nodes ex_graph = [1%N; 2%N] ∧
  link_graphs ex_world_graph !! 5%N = Some ex_graph ∧
  ∃ w' lg', Station_delete false 2 ex_world_graph 1%N = Returns w' ∧
            link_graphs w' !! 5%N = Some lg' ∧ lg_nodes lg' = [2%N] ∧
            5%N ∈ schedule w'.
Proof.
  split; [reflexivity|]. split; [vm_compute; reflexivity|].
  eexists _, _. split; [vm_compute; reflexivity|]. split; [vm_compute; reflexivity|].
  split; [reflexivity|]. compute_true.
Qed.

(** [Station_delete_link_graph] at stations 1 and 2 of [ex_world_graph]. *)
Lemma Station_delete_link_graph_witness :
  stations ex_world_graph !! 1%N = Some ex_station_A ∧
  stations ex_world_graph !! 2%N = Some ex_station_B ∧ 1%N ≠ 2%N ∧ (0 < 2)%nat ∧
  link_graphs ex_world_graph !! ge_link_graph (goods ex_station_A 0%nat) = Some ex_graph ∧
  lg_nodes ex_graph !! ge_node (goods ex_station_A 0%nat) = Some 1%N ∧
  lg_nodes ex_graph !! 1%nat = Some 2%N ∧
  lg_last_update ex_graph 1%nat (ge_node (goods ex_station_A 0%nat)) ≠ INVALID_DATE ∧
  graphs_valid 2 ex_world_graph ex_station_A ∧
  ∃ w' b',
    Station_delete false 2 ex_world_graph 1%N = Returns w' ∧
    stations w' !! 1%N = None ∧
    stations w' !! 2%N = Some b' ∧
    no_origin 1%N (ge_flows (goods b' 0%nat)) ∧ no_via 1%N (ge_flows (goods b' 0%nat)) ∧
    link_graphs w' !! ge_link_graph (goods ex_station_A 0%nat)
      = Some (LinkGraph_RemoveNode (ge_node (goods ex_station_A 0%nat)) ex_graph) ∧
    LinkGraph_Size (LinkGraph_RemoveNode (ge_node (goods ex_station_A 0%nat)) ex_graph)
      = (LinkGraph_Size ex_graph - 1)%nat ∧
    (0 < LinkGraph_Size (LinkGraph_RemoveNode (ge_node (goods ex_station_A 0%nat)) ex_graph))%nat ∧
    (ge_link_graph (goods ex_station_A 0%nat) ∈ schedule w' ↔
     ge_link_graph (goods ex_station_A 0%nat) ∈ schedule ex_world_graph).
Proof.
  assert (H1 : stations ex_world_graph !! 1%N = Some ex_station_A) by (vm_compute; reflexivity).
  assert (H2 : stations ex_world_graph !! 2%N = Some ex_station_B) by (vm_compute; reflexivity).
  assert (H3 : (1%N : StationID) ≠ 2%N) by discriminate.
  assert (H4 : (0 < 2)%nat) by lia.
  assert (H5 : link_graphs ex_world_graph !! ge_link_graph (goods ex_station_A 0%nat)
               = Some ex_graph) by (vm_compute; reflexivity).
  assert (H6 : lg_nodes ex_graph !! ge_node (goods ex_station_A 0%nat) = Some 1%N)
    by reflexivity.
  assert (H7 : lg_nodes ex_graph !! 1%nat = Some 2%N) by reflexivity.
  assert (H8 : lg_last_update ex_graph 1%nat (ge_node (goods ex_station_A 0%nat))
               ≠ INVALID_DATE) by (vm_compute; discriminate).
  pose proof graphs_valid_example as H9.
  repeat (split; [assumption|]).
  exact (Station_delete_link_graph 2 ex_world_graph 1%N 2%N ex_station_A ex_station_B
           0%nat ex_graph 1%nat H1 H2 H3 H4 H5 H6 H7 H8 H9).
Defined.

(** * Further properties of station.cpp *)

(** ** More on [BeforeAddTile] and [BeforeAddRect] *)

Lemma exceeds_true cfg r : exceeds cfg r = true ↔ too_spread cfg r.
Proof.
  unfold exceeds, too_spread. rewrite orb_true_iff, !Z.gtb_ltb, !Z.ltb_lt. lia.
Qed.

Lemma exceeds_false cfg r : exceeds cfg r = false ↔ ¬ too_spread cfg r.
Proof. rewrite <- exceeds_true. by destruct (exceeds cfg r). Qed.

(** [BeforeAddTile] by cases. *)
Lemma BeforeAddTile_eq cfg r tile mode :
  BeforeAddTile cfg r tile mode =
  if IsEmpty r then
    Returns (CommandCost_ok, if decide (mode = ADD_TEST) then r else rect_of_tile tile)
  else if PtInExtendedRect r (TileX tile) (TileY tile) 0 then Returns (CommandCost_ok, r)
  else if exceeds cfg (cover r tile) then
    match mode with
    | ADD_TEST => Returns (CommandCost_error STR_ERROR_STATION_TOO_SPREAD_OUT, r)
    | ADD_TRY => AssertFailed
    | ADD_FORCE => Returns (CommandCost_ok, cover r tile)
    end
  else Returns (CommandCost_ok, if decide (mode = ADD_TEST) then r else cover r tile).
Proof.
  unfold BeforeAddTile, exceeds, cover, rect_of_tile. cbn [left top right bottom].
  destruct (IsEmpty r); [by destruct mode|].
  destruct (PtInExtendedRect r (TileX tile) (TileY tile) 0); cbn [negb]; [done|].
  match goal with |- context [(?a >? ?b) || (?c >? ?d)] =>
    destruct ((a >? b) || (c >? d)) end; by destruct mode.
Qed.

Lemma IsEmpty_rect_of_tile tile : TileX tile ≠ 0 → IsEmpty (rect_of_tile tile) = false.
Proof. intros Hx. apply IsEmpty_false. cbn. lia. Qed.

Lemma IsEmpty_cover r tile :
  IsEmpty r = false → TileX tile ≠ 0 → IsEmpty (cover r tile) = false.
Proof. rewrite !IsEmpty_false. unfold cover. cbn. lia. Qed.

Lemma PtIn_rect_of_tile tile :
  PtInExtendedRect (rect_of_tile tile) (TileX tile) (TileY tile) 0 = true.
Proof. apply PtInExtendedRect_true. cbn. lia. Qed.

Lemma PtIn_cover r tile :
  PtInExtendedRect (cover r tile) (TileX tile) (TileY tile) 0 = true.
Proof. apply PtInExtendedRect_true. unfold cover. cbn. lia. Qed.

(** [ADD_TEST] returns, with the rect as it was, and its success is the
    success of [ADD_TRY]. *)
Lemma BeforeAddTile_test_returns cfg r tile :
  ∃ c, BeforeAddTile cfg r tile ADD_TEST = Returns (c, r).
Proof.
  rewrite BeforeAddTile_eq.
  destruct (IsEmpty r); [eauto|].
  destruct (PtInExtendedRect r (TileX tile) (TileY tile) 0); [eauto|].
  destruct (exceeds cfg (cover r tile)); eauto.
Qed.

Lemma BeforeAddTile_try_of_test cfg r tile r0 :
  BeforeAddTile cfg r tile ADD_TEST = Returns (CommandCost_ok, r0) →
  ∃ r1, BeforeAddTile cfg r tile ADD_TRY = Returns (CommandCost_ok, r1).
Proof.
  rewrite !BeforeAddTile_eq.
  destruct (IsEmpty r); [eauto|].
  destruct (PtInExtendedRect r (TileX tile) (TileY tile) 0); [eauto|].
  destruct (exceeds cfg (cover r tile)); [done|eauto].
Qed.

(** X1: [ADD_TEST] leaves the rect as it is and tells what a committing
    call does.  Either it succeeds, and then [ADD_TRY] and [ADD_FORCE]
    succeed and leave one and the same rect; or it returns the "too spread
    out" failure, and then [ADD_TRY] stops at the assertion while
    [ADD_FORCE] succeeds with the rect that covers the old rect and the
    tile. *)
Theorem BeforeAddTile_test_then_try cfg r tile :
  (∃ r', BeforeAddTile cfg r tile ADD_TEST = Returns (CommandCost_ok, r) ∧
         BeforeAddTile cfg r tile ADD_TRY = Returns (CommandCost_ok, r') ∧
         BeforeAddTile cfg r tile ADD_FORCE = Returns (CommandCost_ok, r')) ∨
  (BeforeAddTile cfg r tile ADD_TEST =
     Returns (CommandCost_error STR_ERROR_STATION_TOO_SPREAD_OUT, r) ∧
   BeforeAddTile cfg r tile ADD_TRY = AssertFailed ∧
   BeforeAddTile cfg r tile ADD_FORCE = Returns (CommandCost_ok, cover r tile)).
Proof.
  rewrite !BeforeAddTile_eq.
  destruct (IsEmpty r); [left; eexists; cbn; eauto|].
  destruct (PtInExtendedRect r (TileX tile) (TileY tile) 0); [left; eexists; eauto|].
  destruct (exceeds cfg (cover r tile)); [right; eauto | left; eexists; cbn; eauto].
Qed.

(** X2: a tile with a non-zero X coordinate that has been committed lies
    within the rect, the rect is not classified empty, and offering the same
    tile again, in whatever mode, succeeds and leaves the rect as it is. *)
Theorem BeforeAddTile_again cfg r tile mode mode' r' :
  mode ≠ ADD_TEST → TileX tile ≠ 0 →
  BeforeAddTile cfg r tile mode = Returns (CommandCost_ok, r') →
  IsEmpty r' = false ∧
  PtInExtendedRect r' (TileX tile) (TileY tile) 0 = true ∧
  BeforeAddTile cfg r' tile mode' = Returns (CommandCost_ok, r').
Proof.
  intros Hmode Hx. rewrite BeforeAddTile_eq.
  assert (Hgoal : IsEmpty r' = false →
                  PtInExtendedRect r' (TileX tile) (TileY tile) 0 = true →
                  IsEmpty r' = false ∧
                  PtInExtendedRect r' (TileX tile) (TileY tile) 0 = true ∧
                  BeforeAddTile cfg r' tile mode' = Returns (CommandCost_ok, r')).
  { intros He Hin. rewrite BeforeAddTile_eq, He, Hin. done. }
  destruct (IsEmpty r) eqn:He.
  { rewrite decide_False by done. intros [= <-].
    apply Hgoal; [by apply IsEmpty_rect_of_tile | apply PtIn_rect_of_tile]. }
  destruct (PtInExtendedRect r (TileX tile) (TileY tile) 0) eqn:Hin.
  { intros [= <-]. by apply Hgoal. }
  destruct (exceeds cfg (cover r tile)).
  - destruct mode; try done. intros [= <-].
    apply Hgoal; [by apply IsEmpty_cover | apply PtIn_cover].
  - rewrite decide_False by done. intros [= <-].
    apply Hgoal; [by apply IsEmpty_cover | apply PtIn_cover].
Qed.

Lemma BeforeAddTile_again_witness :
  IsEmpty (mkRect 5 5 8 6) = false ∧
  PtInExtendedRect (mkRect 5 5 8 6) (TileX (TileXY 8 5)) (TileY (TileXY 8 5)) 0 = true ∧
  BeforeAddTile ex_cfg (mkRect 5 5 8 6) (TileXY 8 5) ADD_TEST =
    Returns (CommandCost_ok, mkRect 5 5 8 6).
Proof.
  apply (BeforeAddTile_again ex_cfg (mkRect 5 5 6 6) (TileXY 8 5) ADD_TRY ADD_TEST);
    [done | done | reflexivity].
Defined.

(** With X coordinate 0 it is otherwise: the rect that has been stretched to
    such a tile is classified empty, and the next tile replaces it. *)
Lemma BeforeAddTile_x0_collapses :
  BeforeAddTile ex_cfg (mkRect 5 5 6 6) (TileXY 0 5) ADD_TRY =
    Returns (CommandCost_ok, mkRect 0 5 6 6) ∧
  BeforeAddTile ex_cfg (mkRect 0 5 6 6) (TileXY 3 5) ADD_TRY =
    Returns (CommandCost_ok, mkRect 3 5 3 5).
Proof. done. Qed.

(** X3: [ADD_TRY] keeps the rect within the maximum spread.  With a
    spread of at least one tile and a rect that, unless empty, is within the
    spread, a call of [BeforeAddTile] in [ADD_TRY] mode that returns reports
    success (it never returns a failure) and leaves a rect within the
    spread. *)
Theorem BeforeAddTile_keeps_spread cfg r tile c r' :
  1 <= station_spread cfg →
  (IsEmpty r = false → ¬ too_spread cfg r) →
  BeforeAddTile cfg r tile ADD_TRY = Returns (c, r') →
  c = CommandCost_ok ∧ ¬ too_spread cfg r'.
Proof.
  intros Hs Hr. rewrite BeforeAddTile_eq.
  destruct (IsEmpty r) eqn:He.
  { rewrite decide_False by done. intros [= <- <-]. split; [done|].
    unfold too_spread, rect_of_tile. cbn. lia. }
  destruct (PtInExtendedRect r (TileX tile) (TileY tile) 0).
  { intros [= <- <-]. auto. }
  destruct (exceeds cfg (cover r tile)) eqn:Hex; [done|].
  rewrite decide_False by done. intros [= <- <-]. split; [done|]. by apply exceeds_false.
Qed.

Lemma BeforeAddTile_keeps_spread_witness :
  CommandCost_ok = CommandCost_ok ∧ ¬ too_spread ex_cfg (mkRect 5 5 8 6).
Proof.
  apply (BeforeAddTile_keeps_spread ex_cfg (mkRect 5 5 6 6) (TileXY 8 5)).
  - cbn. lia.
  - intros _. unfold too_spread. cbn. lia.
  - reflexivity.
Defined.

(** ** BeforeAddRect *)

Lemma IsEmpty_true r :
  IsEmpty r = true ↔ left r = 0 ∨ right r < left r ∨ bottom r < top r.
Proof.
  unfold IsEmpty. rewrite !orb_true_iff, Z.eqb_eq, !Z.gtb_ltb, !Z.ltb_lt. tauto.
Qed.

Lemma PtInExtendedRect_false r x y :
  PtInExtendedRect r x y 0 = false ↔
  ¬ (left r <= x <= right r ∧ top r <= y <= bottom r).
Proof.
  rewrite <- PtInExtendedRect_true. by destruct (PtInExtendedRect r x y 0).
Qed.

(** Along one axis: if of the two ends [x <= a] of a block that fits the
    spread [S] the first lies in the interval from [l] to [rr] or stretches
    it to at most [S], and the second stretches it to at most [S], then so
    do both together. *)
Lemma fits_1d l rr x a S :
  l <= rr → x <= a → a - x + 1 <= S →
  l <= x <= rr ∨ x `max` rr - x `min` l + 1 <= S →
  a `max` rr - a `min` l + 1 <= S →
  a `max` (x `max` rr) - a `min` (x `min` l) + 1 <= S.
Proof. lia. Qed.

(** The outcome of a successful [ADD_TEST] call on a rect that is not
    empty. *)
Lemma BeforeAddTile_test_ok cfg r tile r0 :
  IsEmpty r = false →
  BeforeAddTile cfg r tile ADD_TEST = Returns (CommandCost_ok, r0) →
  in_rect r tile ∨ ¬ too_spread cfg (cover r tile).
Proof.
  intros He. rewrite BeforeAddTile_eq, He.
  destruct (PtInExtendedRect r (TileX tile) (TileY tile) 0) eqn:Hin.
  { left. by apply PtInExtendedRect_true. }
  destruct (exceeds cfg (cover r tile)) eqn:Hex; [done|]. right. by apply exceeds_false.
Qed.

Lemma cover_two_fits cfg r tile w h :
  left r <= right r → top r <= bottom r →
  1 <= w <= station_spread cfg → 1 <= h <= station_spread cfg →
  in_rect r tile ∨ ¬ too_spread cfg (cover r tile) →
  ¬ too_spread cfg (cover r (TILE_ADDXY tile (w - 1) (h - 1))) →
  ¬ too_spread cfg (cover (cover r tile) (TILE_ADDXY tile (w - 1) (h - 1))).
Proof.
  intros Hlr Htb Hw Hh H1 H2. destruct tile as [x y], r as [l t rr b].
  unfold too_spread, in_rect, cover, TILE_ADDXY, TileXY, TileX, TileY in *.
  cbn [left top right bottom fst snd] in *.
  pose proof (fits_1d l rr x (x + (w - 1)) (station_spread cfg)) as Hx.
  pose proof (fits_1d t b y (y + (h - 1)) (station_spread cfg)) as Hy.
  assert (Hx1 : l <= x <= rr ∨ x `max` rr - x `min` l + 1 <= station_spread cfg)
    by (destruct H1; [left|right]; lia).
  assert (Hy1 : t <= y <= b ∨ y `max` b - y `min` t + 1 <= station_spread cfg)
    by (destruct H1; [left|right]; lia).
  assert (Hx2 : (x + (w - 1)) `max` rr - (x + (w - 1)) `min` l + 1 <= station_spread cfg)
    by lia.
  assert (Hy2 : (y + (h - 1)) `max` b - (y + (h - 1)) `min` t + 1 <= station_spread cfg)
    by lia.
  specialize (Hx ltac:(lia) ltac:(lia) ltac:(lia) Hx1 Hx2).
  specialize (Hy ltac:(lia) ltac:(lia) ltac:(lia) Hy1 Hy2).
  lia.
Qed.

(** X4: for a block of at least one tile, a successful [ADD_TEST] call of
    [BeforeAddRect] is followed by a successful [ADD_TRY] call: the
    committing call does not stop at the assertion of [BeforeAddTile],
    although it tests the far corner against the rect that the first corner
    has already stretched. *)
Theorem BeforeAddRect_test_then_try cfg r tile w h r0 :
  1 <= w → 1 <= h →
  BeforeAddRect cfg r tile w h ADD_TEST = Returns (CommandCost_ok, r0) →
  ∃ r', BeforeAddRect cfg r tile w h ADD_TRY = Returns (CommandCost_ok, r').
Proof.
  intros Hw Hh. unfold BeforeAddRect.
  rewrite !bool_decide_eq_false_2 by done. cbn [orb].
  destruct ((w <=? station_spread cfg) && (h <=? station_spread cfg)) eqn:Hfit; [|eauto].
  apply andb_true_iff in Hfit as [Hws%Z.leb_le Hhs%Z.leb_le].
  destruct (BeforeAddTile_test_returns cfg r tile) as [c1 Ht1]. rewrite Ht1.
  destruct c1; cbn [Succeeded]; [|done].
  destruct (BeforeAddTile_try_of_test cfg r tile r Ht1) as [r1 Hy1].
  rewrite Hy1. cbn [Succeeded].
  apply BeforeAddTile_commit in Hy1; [|done].
  set (c2 := TILE_ADDXY tile (w - 1) (h - 1)) in *.
  intros Ht2. rewrite BeforeAddTile_eq.
  destruct (IsEmpty r1) eqn:He1; [eauto|].
  destruct (PtInExtendedRect r1 _ _ 0) eqn:Hin2; [eauto|].
  destruct (exceeds cfg (cover r1 c2)) eqn:Hex2; [|eauto].
  exfalso. apply exceeds_true in Hex2. revert Hex2.
  destruct (IsEmpty r) eqn:He.
  - subst r1. apply PtInExtendedRect_false in Hin2.
    unfold c2, too_spread, cover, rect_of_tile, TILE_ADDXY, TileXY, TileX, TileY in *.
    cbn [left top right bottom fst snd] in *. lia.
  - subst r1. pose proof He as (_ & ? & ?)%IsEmpty_false.
    apply cover_two_fits; [lia | lia | lia | lia | |].
    + by eapply BeforeAddTile_test_ok.
    + destruct (BeforeAddTile_test_ok cfg r c2 r0 He Ht2) as [Hin|Hfits]; [|done].
      apply PtInExtendedRect_false in Hin2. exfalso. apply Hin2.
      unfold in_rect, cover in *. cbn [left top right bottom]. lia.
Qed.

Lemma BeforeAddRect_test_then_try_witness :
  ∃ r', BeforeAddRect ex_cfg (mkRect 5 5 6 6) (TileXY 7 4) 3 2 ADD_TRY =
          Returns (CommandCost_ok, r').
Proof.
  apply (BeforeAddRect_test_then_try ex_cfg (mkRect 5 5 6 6) (TileXY 7 4) 3 2
           (mkRect 5 5 6 6)); [lia | lia | reflexivity].
Defined.

(** X5: a committed block lies within the rect.  For a block of at least
    one tile whose first corner has a positive X coordinate, and which fits
    the spread or is forced, a successful committing call of [BeforeAddRect]
    leaves a rect that is not classified empty and holds every tile of the
    block and, if the old rect was not empty, every tile of the old rect. *)
Theorem BeforeAddRect_covers_block cfg r tile w h mode r' :
  mode ≠ ADD_TEST → 1 <= w → 1 <= h → 0 < TileX tile →
  mode = ADD_FORCE ∨ (w <= station_spread cfg ∧ h <= station_spread cfg) →
  BeforeAddRect cfg r tile w h mode = Returns (CommandCost_ok, r') →
  IsEmpty r' = false ∧
  (∀ t, t ∈ TileArea_tiles (mkTileArea tile w h) → in_rect r' t) ∧
  (IsEmpty r = false → ∀ t, in_rect r t → in_rect r' t).
Proof.
  intros Hmode Hw Hh Hx Hfit. unfold BeforeAddRect.
  replace (bool_decide (mode = ADD_FORCE) ||
           ((w <=? station_spread cfg) && (h <=? station_spread cfg))) with true.
  2:{ symmetry. destruct Hfit as [->|[? ?]]; [done|].
      apply orb_true_iff. right. apply andb_true_iff. by rewrite !Z.leb_le. }
  destruct (BeforeAddTile cfg r tile mode) as [[ret r1]|] eqn:H1; [|done].
  destruct ret; cbn [Succeeded]; [|done].
  intros H2.
  apply BeforeAddTile_commit in H1; [|done].
  apply BeforeAddTile_commit in H2; [|done].
  assert (He1 : IsEmpty r1 = false).
  { subst r1. destruct (IsEmpty r) eqn:He;
      [apply (IsEmpty_rect_of_tile tile) | apply IsEmpty_cover]; (done || lia). }
  rewrite He1 in H2. subst r'.
  split.
  { apply IsEmpty_false in He1. apply IsEmpty_false.
    unfold cover, TILE_ADDXY, TileXY, TileX, TileY in *. cbn [left top right bottom fst snd] in *.
    lia. }
  split.
  - intros t Ht%elem_of_TileArea_tiles. cbn [ta_tile ta_w ta_h] in Ht.
    assert (Hc1 : in_rect r1 tile).
    { subst r1. destruct (IsEmpty r); unfold in_rect, cover; cbn; lia. }
    unfold in_rect, cover, TILE_ADDXY, TileXY, TileX, TileY in *.
    cbn [left top right bottom fst snd] in *. lia.
  - intros He t Ht. rewrite He in H1. subst r1.
    unfold in_rect, cover, TILE_ADDXY, TileXY, TileX, TileY in *.
    cbn [left top right bottom fst snd] in *. lia.
Qed.

Lemma BeforeAddRect_covers_block_witness :
  IsEmpty (mkRect 5 4 9 6) = false ∧
  (∀ t, t ∈ TileArea_tiles (mkTileArea (TileXY 7 4) 3 2) → in_rect (mkRect 5 4 9 6) t) ∧
  (IsEmpty (mkRect 5 5 6 6) = false →
   ∀ t, in_rect (mkRect 5 5 6 6) t → in_rect (mkRect 5 4 9 6) t).
Proof.
  apply (BeforeAddRect_covers_block ex_cfg (mkRect 5 5 6 6) (TileXY 7 4) 3 2 ADD_TRY);
    [done | lia | lia | cbn; lia | right; cbn; lia | reflexivity].
Defined.

(** A block whose first corner has X coordinate 0, committed to the empty
    rect, leaves the rect of its far corner alone. *)
Lemma BeforeAddRect_x0_far_corner :
  BeforeAddRect ex_cfg MakeEmpty (TileXY 0 5) 3 2 ADD_TRY =
    Returns (CommandCost_ok, mkRect 2 6 2 6).
Proof. reflexivity. Qed.

(** ** More on [AfterRemoveTile], and [AfterRemoveRect] *)

Lemma scan_false_column m sid x r t :
  ScanForStationTiles m sid x (top r) x (bottom r) = false →
  owned m sid t → in_rect r t → TileX t ≠ x.
Proof.
  intros Hs Ho [_ Hy] Hx. apply not_true_iff_false in Hs. apply Hs.
  apply ScanForStationTiles_true. exists t. split; [done|]. lia.
Qed.

Lemma scan_false_row m sid y r t :
  ScanForStationTiles m sid (left r) y (right r) y = false →
  owned m sid t → in_rect r t → TileY t ≠ y.
Proof.
  intros Hs Ho [Hx _] Hy. apply not_true_iff_false in Hs. apply Hs.
  apply ScanForStationTiles_true. exists t. split; [done|]. lia.
Qed.

(** One pass of the loop drops no tile of the station from the rect and
    does not widen the rect. *)
Lemma AfterRemoveTile_body_keeps m sid r x y :
  match AfterRemoveTile_body m sid r x y with
  | inl (res, r') =>
      (∀ t, owned m sid t → in_rect r t → res = false) ∧
      (res = false → r' = r) ∧ (res = true → r' = MakeEmpty)
  | inr (r', x', y') =>
      (∀ t, owned m sid t → in_rect r t → in_rect r' t) ∧ within r' r
  end.
Proof.
  pose proof (scan_false_column m sid x r) as Hcol.
  pose proof (scan_false_row m sid y r) as Hrow.
  unfold AfterRemoveTile_body.
  destruct (ScanForStationTiles m sid x (top r) x (bottom r));
  destruct (ScanForStationTiles m sid (left r) y (right r) y);
  destruct (x =? left r) eqn:E1; destruct (x =? right r) eqn:E2;
  destruct (y =? top r) eqn:E3; destruct (y =? bottom r) eqn:E4;
  cbn [negb orb andb];
  rewrite ?Z.eqb_eq, ?Z.eqb_neq in *;
  cbn [left right top bottom];
  try match goal with
  | |- context [if ?c then _ else _] => destruct c eqn:Etest
  end;
  try (apply orb_true_iff in Etest; rewrite !Z.gtb_ltb, !Z.ltb_lt in Etest);
  try (apply orb_false_iff in Etest; rewrite !Z.gtb_ltb, !Z.ltb_ge in Etest).
  all: unfold within; cbn [left right top bottom].
  all: repeat match goal with |- _ ∧ _ => split end; try done; try lia.
  all: try (intros t Ho Hin;
            try pose proof (Hcol t eq_refl Ho Hin);
            try pose proof (Hrow t eq_refl Ho Hin);
            destruct Hin as [? ?]; unfold in_rect; cbn [left right top bottom];
            try lia; exfalso; lia).
Qed.

Lemma within_refl r : within r r.
Proof. unfold within. lia. Qed.

Lemma within_trans r1 r2 r3 : within r1 r2 → within r2 r3 → within r1 r3.
Proof. unfold within. lia. Qed.

Lemma AfterRemoveTile_loop_keeps m sid fuel r x y res r' :
  AfterRemoveTile_loop fuel m sid r x y = Some (res, r') →
  (∀ t, owned m sid t → in_rect r t → res = false ∧ in_rect r' t) ∧
  (res = false → within r' r) ∧ (res = true → r' = MakeEmpty).
Proof.
  revert r x y. induction fuel as [|fuel IH]; intros r x y; [discriminate|].
  cbn [AfterRemoveTile_loop].
  pose proof (AfterRemoveTile_body_keeps m sid r x y) as Hbody.
  destruct (AfterRemoveTile_body m sid r x y) as [[res0 r0]|[[r0 x0] y0]].
  - intros [= <- <-]. destruct Hbody as (Hk & Hf & Ht). split; [|split].
    + intros t Ho Hin. pose proof (Hk t Ho Hin) as Hres. split; [done|].
      by rewrite (Hf Hres).
    + intros Hres. rewrite (Hf Hres). apply within_refl.
    + done.
  - intros Hloop. destruct Hbody as [Hk Hw].
    destruct (IH _ _ _ Hloop) as (Hk' & Hw' & Ht'). split; [|split].
    + intros t Ho Hin. apply Hk'; [done|]. by apply Hk.
    + intros Hres. eapply within_trans; eauto.
    + done.
Qed.

(** X6: [AfterRemoveTile] returns for every rect and tile, and it only
    ever shrinks the rect past rows and columns without a tile of the
    station: when it returns [true] the rect is the empty rect, when it
    returns [false] the rect lies within the old one, and a tile of the
    station that was within the old rect is still within the rect (so that
    with such a tile the call returns [false]). *)
Theorem AfterRemoveTile_keeps_tiles m sid r tile :
  ∃ res r', AfterRemoveTile m sid r tile = Some (res, r') ∧
    (res = true → r' = MakeEmpty) ∧
    (res = false → within r' r) ∧
    (∀ t, is_station_tile_of m sid t = true → in_rect r t →
          res = false ∧ in_rect r' t).
Proof.
  destruct (AfterRemoveTile_returns m sid r tile) as [[res r'] Hret].
  exists res, r'. split; [done|].
  destruct (AfterRemoveTile_loop_keeps _ _ _ _ _ _ _ _ Hret) as (Hk & Hw & Ht).
  done.
Qed.

(** X7: [AfterRemoveTile] restores the tight bounding box.  If the rect
    is the tight bounding box of the tiles of the station and a tile then
    stops being a tile of the station, the call at that tile returns [false]
    with the tight bounding box of the tiles that are left, or returns
    [true] with the empty rect when no tile is left. *)
Theorem AfterRemoveTile_tight m sid r tile c :
  settled m sid false r → tile_counts sid c = false →
  ∃ res r', AfterRemoveTile (SetTileContent m tile c) sid r tile = Some (res, r') ∧
            settled (SetTileContent m tile c) sid res r'.
Proof.
  intros (Hall & Hlr & Htb & (tl & Htl & Hxl) & (tr & Htr & Hxr)
          & (tt & Htt & Hyt) & (tb & Htb' & Hyb)) Hc.
  destruct (AfterRemoveTile_returns (SetTileContent m tile c) sid r tile) as [[res r'] Hret].
  exists res, r'. split; [done|].
  assert (Hkeep : ∀ t, owned m sid t → t = tile ∨ owned (SetTileContent m tile c) sid t).
  { intros t Ho. destruct (decide (t = tile)); [by left|]. right.
    by apply owned_set_not_counts. }
  eapply AfterRemoveTile_loop_settled; [|exact Hret].
  split; [intros t [_ Ho]%owned_set_not_counts; [by apply Hall | done]|].
  split; [done|]. split; [done|]. split; [|split; [|split]].
  - destruct (Hkeep tl Htl) as [->|?]; [by right | left; by exists tl].
  - destruct (Hkeep tr Htr) as [->|?]; [by right | left; by exists tr].
  - destruct (Hkeep tt Htt) as [->|?]; [by right | left; by exists tt].
  - destruct (Hkeep tb Htb') as [->|?]; [by right | left; by exists tb].
Qed.

(** *** AfterRemoveRect *)

Section shrink_to.
Context (m : TileMap) (sid : StationID) (x2 y2 : Z).


End shrink_to.

(** [AfterRemoveRect] returns, and it stops at an assertion exactly when a
    corner of the block lies outside the rect. *)
Lemma AfterRemoveRect_returns m sid r ta :
  let c1 := ta_tile ta in
  let c2 := TILE_ADDXY (ta_tile ta) (ta_w ta - 1) (ta_h ta - 1) in
  if decide (in_rect r c1 ∧ in_rect r c2)
  then ∃ res, AfterRemoveRect m sid r ta = Some (Returns res)
  else AfterRemoveRect m sid r ta = Some AssertFailed.
Proof.
  cbv zeta. unfold AfterRemoveRect.
  destruct (PtInExtendedRect r (TileX (ta_tile ta)) (TileY (ta_tile ta)) 0) eqn:H1;
    cbn [negb].
  2:{ apply PtInExtendedRect_false in H1. rewrite decide_False; [done|].
      intros [? _]. done. }
  destruct (PtInExtendedRect r (TileX (ta_tile ta) + ta_w ta - 1)
              (TileY (ta_tile ta) + ta_h ta - 1) 0) eqn:H2; cbn [negb].
  2:{ apply PtInExtendedRect_false in H2. rewrite decide_False; [done|].
      intros [_ Hc2]. apply H2. unfold in_rect, TILE_ADDXY in Hc2. cbn in Hc2. lia. }
  apply PtInExtendedRect_true in H1, H2. rewrite decide_True.
  2:{ split; [done|]. unfold in_rect, TILE_ADDXY. cbn. lia. }
  destruct (AfterRemoveTile_returns m sid r (ta_tile ta)) as [[e1 r1] ->].
  destruct (bool_decide (ta_w ta ≠ 1) || bool_decide (ta_h ta ≠ 1)); [|eauto].
  destruct e1; [eauto|].
  destruct (AfterRemoveTile_returns m sid r1
              (TILE_ADDXY (ta_tile ta) (ta_w ta - 1) (ta_h ta - 1))) as [res ->].
  eauto.
Qed.

(** X8: [AfterRemoveRect] stops at one of its two assertions exactly when
    a corner of the block lies outside the rect; in every other case it
    returns. *)
Theorem AfterRemoveRect_asserts m sid r ta :
  (AfterRemoveRect m sid r ta = Some AssertFailed ∧
   ¬ (in_rect r (ta_tile ta) ∧
      in_rect r (TILE_ADDXY (ta_tile ta) (ta_w ta - 1) (ta_h ta - 1)))) ∨
  ((∃ res, AfterRemoveRect m sid r ta = Some (Returns res)) ∧
   in_rect r (ta_tile ta) ∧
   in_rect r (TILE_ADDXY (ta_tile ta) (ta_w ta - 1) (ta_h ta - 1))).
Proof.
  pose proof (AfterRemoveRect_returns m sid r ta) as H. cbv zeta in H.
  destruct (decide _) as [Hin|Hout]; [right|left]; tauto.
Qed.


(** ** The catchment radius and rectangle of a station *)

Lemma to_uint_max a b : 0 <= a < 2 ^ 32 → 0 <= b < 2 ^ 32 → 0 <= Z.max a b < 2 ^ 32.
Proof. lia. Qed.

Lemma max_if_bounds {A} (p : option A) v ret :
  0 <= v <= 255 → 0 <= ret <= 255 →
  ret <= max_if p v ret <= 255 ∧ (p ≠ None → v <= max_if p v ret).
Proof.
  intros Hv Hr. unfold max_if. rewrite (to_uint_small v) by lia.
  case_bool_decide; split; try lia; done.
Qed.

(** X10: the radius of the station bounds the radius of its tiles.  With
    radii and bonus in the range of a byte, when the radius that
    [GetCatchmentRadius] gives is not zero, it is at least the radius that
    [GetTileCatchmentRadius] gives for a tile whose facility the station has
    (rail, airport, truck, bus, dock; buoy and waypoint tiles have radius
    zero; for the tiles of an oil rig [GetCatchmentRadius] has no case). *)
Theorem GetCatchmentRadius_bounds_tile ca cfg m tile st f r :
  radii_in_range ca cfg (airport_catchment st) →
  facility_present f (GetStationType m tile) = true →
  GetCatchmentRadius ca cfg st f ≠ 0 →
  GetTileCatchmentRadius ca cfg m tile st = Returns r →
  r <= GetCatchmentRadius ca cfg st f.
Proof.
  intros (Hinc & Hbus & Htruck & Htrain & Hdock & Hun & Hair) Hfac Hnz.
  unfold GetTileCatchmentRadius.
  destruct (IsTileType m tile MP_STATION); cbn [negb]; [|done].
  revert Hnz. unfold GetCatchmentRadius. cbv zeta.
  change (to_uint CA_NONE) with 0.
  destruct (modified_catchment cfg).
  - destruct (max_if_bounds (bus_stops f) (CA_BUS ca) 0) as [B1 B1']; [lia..|].
    set (r1 := max_if (bus_stops f) (CA_BUS ca) 0) in *.
    destruct (max_if_bounds (truck_stops f) (CA_TRUCK ca) r1) as [B2 B2']; [lia..|].
    set (r2 := max_if (truck_stops f) (CA_TRUCK ca) r1) in *.
    destruct (max_if_bounds (train_station_tile f) (CA_TRAIN ca) r2) as [B3 B3']; [lia..|].
    set (r3 := max_if (train_station_tile f) (CA_TRAIN ca) r2) in *.
    destruct (max_if_bounds (ship_station_tile f) (CA_DOCK ca) r3) as [B4 B4']; [lia..|].
    set (r4 := max_if (ship_station_tile f) (CA_DOCK ca) r3) in *.
    destruct (max_if_bounds (airport_tile f) (airport_catchment st) r4) as [B5 B5']; [lia..|].
    set (r5 := max_if (airport_tile f) (airport_catchment st) r4) in *.
    case_bool_decide as Hr5; [|done]. intros _.
    rewrite (to_uint_small (r5 + _)) by lia.
    destruct (GetStationType m tile); cbn [facility_present] in Hfac.
    all: try discriminate Hfac.
    all: try apply bool_decide_eq_true in Hfac.
    all: intros [= <-].
    all: rewrite ?to_uint_small by (unfold CA_NONE; lia); unfold CA_NONE.
    all: try specialize (B1' Hfac); try specialize (B2' Hfac); try specialize (B3' Hfac);
      try specialize (B4' Hfac); try specialize (B5' Hfac); lia.
  - match goal with
    | |- context [if ?c then to_uint (CA_UNMODIFIED ca) else _] => destruct c
    end.
    + rewrite (to_uint_small (CA_UNMODIFIED ca)) by lia.
      case_bool_decide as Hz; intros Hnz; [|by destruct Hz].
      rewrite !to_uint_small by lia.
      destruct (GetStationType m tile); intros [= <-];
        rewrite ?to_uint_small by (unfold CA_NONE; lia); unfold CA_NONE; lia.
    + by rewrite bool_decide_eq_false_2 by (intros H; by apply H).
Qed.

Lemma to_int_small z : - 2 ^ 31 <= z < 2 ^ 31 → to_int z = z.
Proof.
  intros Hz. unfold to_int. cbv zeta.
  destruct (Z.ltb_spec (z mod 2 ^ 32) (2 ^ 31)) as [H|H].
  - destruct (Z.le_gt_cases 0 z).
    + apply Z.mod_small. lia.
    + exfalso. replace z with ((z + 2 ^ 32) + (-1) * 2 ^ 32) in H by lia.
      rewrite Z.mod_add in H by lia. rewrite Z.mod_small in H by lia. lia.
  - destruct (Z.le_gt_cases 0 z).
    + rewrite Z.mod_small in H by lia. lia.
    + replace z with ((z + 2 ^ 32) + (-1) * 2 ^ 32) at 1 by lia.
      rewrite Z.mod_add by lia. rewrite Z.mod_small by lia. lia.
Qed.

(** [GetCatchmentRectUsingRadius] on a rect on the map and a radius that
    does not wrap round. *)
Lemma GetCatchmentRectUsingRadius_eq w st R :
  IsEmpty (rect st) = false → rect_in_map w (rect st) → 0 <= R <= 2 ^ 30 →
  GetCatchmentRectUsingRadius w st R =
  Returns (mkRect (Z.max (left (rect st) - R) 0) (Z.max (top (rect st) - R) 0)
                  (Z.min (right (rect st) + R) (MapMaxX w))
                  (Z.min (bottom (rect st) + R) (MapMaxY w))).
Proof.
  intros He (Hl & Hr & Ht & Hb & Hsx & Hsy) HR. unfold GetCatchmentRectUsingRadius.
  rewrite He. apply IsEmpty_false in He. unfold MapMaxX, MapMaxY in *.
  rewrite !to_int_small by lia. done.
Qed.

(** X11: for a rect on the map that is not empty and a radius that does
    not wrap round, [GetCatchmentRectUsingRadius] returns the rect grown by
    the radius on every side and cut off at the edges of the map: the result
    holds the rect, lies on the map, and holds exactly the tiles of the map
    that are within the radius of the rect along both axes. *)
Theorem GetCatchmentRectUsingRadius_in_map w st R :
  IsEmpty (rect st) = false → rect_in_map w (rect st) → 0 <= R <= 2 ^ 30 →
  ∃ ret, GetCatchmentRectUsingRadius w st R = Returns ret ∧
         within (rect st) ret ∧ rect_in_map w ret ∧
         (∀ t, in_rect ret t ↔
               0 <= TileX t <= MapMaxX w ∧ 0 <= TileY t <= MapMaxY w ∧
               left (rect st) - R <= TileX t <= right (rect st) + R ∧
               top (rect st) - R <= TileY t <= bottom (rect st) + R).
Proof.
  intros He Hin HR. rewrite GetCatchmentRectUsingRadius_eq by done.
  eexists. split; [reflexivity|].
  destruct Hin as (Hl & Hr & Ht & Hb & Hsx & Hsy). apply IsEmpty_false in He.
  unfold within, rect_in_map, in_rect. cbn [left top right bottom].
  split; [lia|]. split; [lia|]. intros t. lia.
Qed.

(** ... and stops at its assertion on the empty rect. *)
Lemma GetCatchmentRectUsingRadius_empty w st R :
  IsEmpty (rect st) = true → GetCatchmentRectUsingRadius w st R = AssertFailed.
Proof. intros He. unfold GetCatchmentRectUsingRadius. by rewrite He. Qed.



(** ** Towns near a station *)

(** What holds of the items already visited, for a loop that returns. *)
Lemma for_each_inv {A S : Type} (body : S → A → Outcome S)
    (P : list A → S → Prop) (l : list A) (s0 s' : S) :
  P [] s0 →
  (∀ pre a s s1, P pre s → body s a = Returns s1 → P (pre ++ [a]) s1) →
  for_each body l s0 = Returns s' → P l s'.
Proof.
  revert P s0. induction l as [|a l IH]; intros P s0 H0 Hstep; cbn [for_each].
  - by intros [= <-].
  - destruct (body s0 a) as [s1|] eqn:Hb; [|done]. cbn.
    apply (IH (fun pre s => P (a :: pre) s)).
    + by apply (Hstep [] a s0 s1).
    + intros pre a' s s2 Hp Hb'. by apply (Hstep (a :: pre) a' s s2).
Qed.

(** [AddIndustryToDeliver] writes to the station only. *)
Lemma AddIndustryToDeliver_frame w s i w' :
  AddIndustryToDeliver w s i = Returns w' →
  tile_map w' = tile_map w ∧ towns w' = towns w ∧ industries w' = industries w.
Proof.
  unfold AddIndustryToDeliver, Station_Get, Industry_Get.
  destruct (pool_get (stations w) s) as [st|]; [|done]. cbn.
  case_bool_decide; [by intros [= <-]|].
  destruct (pool_get (industries w) i) as [ind|]; [|done]. cbn.
  case_bool_decide; by intros [= <-].
Qed.

Lemma nearby_tile_step_towns cfg s w tile w' :
  nearby_tile_step cfg s w tile = Returns w' →
  tile_map w' = tile_map w ∧
  towns w' = if IsTileType (tile_map w) tile MP_HOUSE
             then alter (add_station s) (GetTownIndex (tile_map w) tile) (towns w)
             else towns w.
Proof.
  unfold nearby_tile_step.
  set (w1 := if IsTileType (tile_map w) tile MP_HOUSE then _ else _).
  assert (H1 : w1 = AssertFailed ∨ ∃ w1', w1 = Returns w1' ∧ tile_map w1' = tile_map w ∧
            towns w1' = if IsTileType (tile_map w) tile MP_HOUSE
                        then alter (add_station s) (GetTownIndex (tile_map w) tile) (towns w)
                        else towns w).
  { subst w1. destruct (IsTileType (tile_map w) tile MP_HOUSE); [|right; eauto].
    unfold Town_Get. destruct (pool_get (towns w) _); [|by left]. right. cbn. eauto. }
  destruct H1 as [->|(w1' & -> & Hm & Ht)]; [done|]. cbn.
  destruct (IsTileType (tile_map w1') tile MP_INDUSTRY); [|intros [= <-]; done].
  unfold Industry_Get. destruct (pool_get (industries w1') _) as [ind|]; [|done]. cbn.
  match goal with |- context [if ?c then _ else _] => destruct c end.
  { intros [= <-]. done. }
  intros (Hm' & Ht' & _)%AddIndustryToDeliver_frame. cbn in Hm', Ht'. split; congruence.
Qed.

Lemma add_station_idemp s tn : add_station s (add_station s tn) = add_station s tn.
Proof.
  unfold add_station. cbn. f_equal. apply set_eq. intros x.
  rewrite !elem_of_union. tauto.
Qed.

Lemma nearby_loop_towns cfg s l w w' :
  for_each (nearby_tile_step cfg s) l w = Returns w' →
  tile_map w' = tile_map w ∧
  ∀ t, towns w' !! t = town_after (tile_map w) s l t <$> towns w !! t.
Proof.
  apply (for_each_inv _ (fun pre w1 =>
    tile_map w1 = tile_map w ∧
    ∀ t, towns w1 !! t = town_after (tile_map w) s pre t <$> towns w !! t)).
  - split; [done|]. intros t. unfold town_after. cbn. by destruct (towns w !! t).
  - intros pre a w1 w2 [Hm Ht] (Hm2 & Ht2)%nearby_tile_step_towns.
    split; [congruence|]. intros t. rewrite Ht2, Hm.
    unfold town_after. rewrite existsb_app. cbn [existsb]. rewrite orb_false_r.
    unfold house_of at 2.
    destruct (IsTileType (tile_map w) a MP_HOUSE); cbn [andb].
    2:{ rewrite orb_false_r. apply Ht. }
    destruct (decide (GetTownIndex (tile_map w) a = t)) as [<-|Hne].
    + rewrite lookup_alter_eq, Ht, bool_decide_eq_true_2, orb_true_r by done.
      unfold town_after. destruct (towns w !! _) as [tn|]; [|done]. cbn.
      destruct (existsb _ pre); [by rewrite add_station_idemp | done].
    + rewrite lookup_alter_ne, bool_decide_eq_false_2, orb_false_r by done. apply Ht.
Qed.

(** *** What the loops of [RecomputeCatchment] leave alone *)

Lemma count_station_tiles_eq w s ta :
  count_station_tiles w s ta =
  Z.of_nat (length (List.filter (counted_tile (tile_map w) s) (TileArea_tiles ta))).
Proof.
  unfold count_station_tiles.
  generalize (TileArea_tiles ta). intros l.
  assert (H : ∀ n, foldl (fun n tile =>
             if negb (IsTileType (tile_map w) tile MP_STATION) ||
                bool_decide (GetStationIndex (tile_map w) tile ≠ s)
             then n else n + 1) n l =
           n + Z.of_nat (length (List.filter (counted_tile (tile_map w) s) l))).
  { induction l as [|a l IH]; intros n; cbn [foldl List.filter]; [cbn; lia|].
    rewrite IH. unfold counted_tile at 2.
    destruct (IsTileType (tile_map w) a MP_STATION); cbn [negb orb andb]; [|lia].
    destruct (decide (GetStationIndex (tile_map w) a = s)) as [Heq|Hne].
    - rewrite bool_decide_eq_false_2, bool_decide_eq_true_2 by (done || (intros H; by apply H)).
      cbn [length]. lia.
    - rewrite bool_decide_eq_true_2, bool_decide_eq_false_2 by done. lia. }
  rewrite H. lia.
Qed.

Lemma SetTile_loop_frame s l w :
  tile_map (foldl (fun w' tile2 =>
              upd_station s (fun st => set_catchment_tiles
                                         (Bitmap_SetTile tile2 (catchment_tiles st)) st) w')
            w l) = tile_map w ∧
  ∀ st, stations w !! s = Some st →
    ∃ st', stations (foldl (fun w' tile2 =>
              upd_station s (fun st => set_catchment_tiles
                                         (Bitmap_SetTile tile2 (catchment_tiles st)) st) w')
            w l) !! s = Some st' ∧ station_tiles st' = station_tiles st.
Proof.
  apply (foldl_ind _ (fun _ w1 => tile_map w1 = tile_map w ∧
    ∀ st, stations w !! s = Some st →
          ∃ st', stations w1 !! s = Some st' ∧ station_tiles st' = station_tiles st)).
  - split; [done|]. eauto.
  - intros pre a w1 [Hm Hs] _. split; [done|]. intros st Hst.
    destruct (Hs st Hst) as (st1 & Hs1 & Hn). eexists. split.
    + by apply stations_upd_station_eq.
    + done.
Qed.

Lemma catchment_tile_step_tiles ca cfg s w tile w1 st :
  stations w !! s = Some st →
  catchment_tile_step ca cfg s w tile = Returns w1 →
  tile_map w1 = tile_map w ∧
  ∃ st1, stations w1 !! s = Some st1 ∧
         station_tiles st1 =
           if counted_tile (tile_map w) s tile then station_tiles st + 1
           else station_tiles st.
Proof.
  intros Hs. unfold catchment_tile_step, counted_tile.
  destruct (IsTileType (tile_map w) tile MP_STATION); cbn [negb orb andb].
  2:{ intros [= <-]. eauto. }
  destruct (decide (GetStationIndex (tile_map w) tile = s)) as [Heq|Hne].
  2:{ rewrite bool_decide_eq_true_2, bool_decide_eq_false_2 by done. intros [= <-]. eauto. }
  rewrite bool_decide_eq_false_2, bool_decide_eq_true_2 by (done || (intros H; by apply H)).
  set (w0 := upd_station s _ w).
  assert (Hs0 : stations w0 !! s = Some (set_station_tiles (station_tiles st + 1) st))
    by (subst w0; by rewrite (stations_upd_station_eq _ _ _ _ Hs)).
  unfold Station_Get. rewrite (pool_get_Some _ _ _ Hs0). cbn.
  destruct (GetTileCatchmentRadius _ _ _ _ _) as [r|]; [|done]. cbn.
  destruct (r =? CA_NONE).
  { intros [= <-]. eauto. }
  intros [= <-].
  destruct (SetTile_loop_frame s
              (TileArea_tiles (TileArea_Expand w0 (mkTileArea tile 1 1) r)) w0) as [Hm Hst].
  split; [by rewrite Hm|]. destruct (Hst _ Hs0) as (st1 & ? & ?). eauto.
Qed.

Lemma catchment_loop_tiles ca cfg s l w w' st :
  stations w !! s = Some st →
  for_each (catchment_tile_step ca cfg s) l w = Returns w' →
  ∃ st', stations w' !! s = Some st' ∧
         station_tiles st' =
           station_tiles st + Z.of_nat (length (List.filter (counted_tile (tile_map w) s) l)).
Proof.
  intros Hs Hloop.
  apply (for_each_inv _ (fun pre w1 => tile_map w1 = tile_map w ∧
    ∃ st', stations w1 !! s = Some st' ∧
           station_tiles st' =
             station_tiles st +
             Z.of_nat (length (List.filter (counted_tile (tile_map w) s) pre))))
    in Hloop.
  - by destruct Hloop.
  - split; [done|]. exists st. split; [done|]. cbn. lia.
  - intros pre a w1 w2 (Hm & st1 & Hs1 & Hn) Hstep.
    destruct (catchment_tile_step_tiles _ _ _ _ _ _ _ Hs1 Hstep) as (Hm2 & st2 & Hs2 & Hn2).
    split; [congruence|]. exists st2. split; [done|].
    rewrite Hn2, Hm, List.filter_app, length_app. cbn [List.filter].
    destruct (counted_tile (tile_map w) s a); cbn [length]; lia.
Qed.

(** One step of the walk over the catchment leaves the count and the
    catchment of the station as they are. *)
Lemma nearby_tile_step_station cfg s w tile w' st :
  stations w !! s = Some st →
  nearby_tile_step cfg s w tile = Returns w' →
  ∃ st', stations w' !! s = Some st' ∧ station_tiles st' = station_tiles st ∧
         catchment_tiles st' = catchment_tiles st.
Proof.
  intros Hs. unfold nearby_tile_step.
  set (w1 := if IsTileType (tile_map w) tile MP_HOUSE then _ else _).
  assert (H1 : w1 = AssertFailed ∨ ∃ w1', w1 = Returns w1' ∧ stations w1' = stations w).
  { subst w1. destruct (IsTileType (tile_map w) tile MP_HOUSE); [|right; eauto].
    unfold Town_Get. destruct (pool_get (towns w) _); [|by left]. right. cbn. eauto. }
  destruct H1 as [->|(w1' & -> & Hst)]; [done|]. cbn.
  destruct (IsTileType (tile_map w1') tile MP_INDUSTRY).
  2:{ intros [= <-]. rewrite Hst. eauto. }
  unfold Industry_Get. destruct (pool_get (industries w1') _) as [ind|]; [|done]. cbn.
  match goal with |- context [if ?c then _ else _] => destruct c end.
  { intros [= <-]. rewrite Hst. eauto. }
  unfold AddIndustryToDeliver, Station_Get, Industry_Get.
  cbn [stations upd_industry with_industries]. rewrite Hst.
  rewrite (pool_get_Some _ _ _ Hs). cbn.
  case_bool_decide; [intros [= <-]; cbn; rewrite Hst; eauto|].
  destruct (pool_get _ _) as [ind'|]; [|done]. cbn.
  case_bool_decide; intros [= <-]; cbn; rewrite ?Hst; [eauto|].
  rewrite lookup_alter_eq, Hs. cbn. eauto.
Qed.

Lemma nearby_loop_station cfg s l w w' st :
  stations w !! s = Some st →
  for_each (nearby_tile_step cfg s) l w = Returns w' →
  ∃ st', stations w' !! s = Some st' ∧ station_tiles st' = station_tiles st ∧
         catchment_tiles st' = catchment_tiles st.
Proof.
  intros Hs.
  apply (for_each_inv _ (fun _ w1 =>
    ∃ st', stations w1 !! s = Some st' ∧ station_tiles st' = station_tiles st ∧
           catchment_tiles st' = catchment_tiles st)).
  - eauto.
  - intros pre a w1 w2 (st1 & Hs1 & Hn1 & Hc1) Hstep.
    destruct (nearby_tile_step_station _ _ _ _ _ _ Hs1 Hstep) as (st2 & ? & ? & ?).
    exists st2. split; [done|]. split; congruence.
Qed.

(** The general case: the count, and the towns. *)
Lemma RecomputeCatchment_tiles_effect ca cfg w0 s st_arg st0 w' :
  stations w0 !! s = Some st0 →
  RecomputeCatchment_tiles ca cfg w0 s st_arg = Returns w' →
  tile_map w' = tile_map w0 ∧
  ∃ st', stations w' !! s = Some st' ∧
    station_tiles st' =
      Z.of_nat (length (List.filter (counted_tile (tile_map w0) s)
                          (TileArea_tiles (rect_area (rect st_arg))))) ∧
    ∀ t, towns w' !! t =
         town_after (tile_map w0) s (Bitmap_tiles (catchment_tiles st')) t <$> towns w0 !! t.
Proof.
  intros Hs0. unfold RecomputeCatchment_tiles.
  rewrite (upd_station_put _ _ _ _ Hs0).
  rewrite (upd_station_put _ _ _ _ (stations_put_station _ _ _)), put_station_put.
  set (st_a := set_station_tiles 0 _).
  change (TileArea_corners _ _) with (rect_area (rect st_arg)).
  destruct (catchment_loop_spec ca cfg s (put_station s st_a w0)
              (TileArea_tiles (rect_area (rect st_arg))) st_a (stations_put_station _ _ _))
    as (st_b & Hloop & _).
  destruct (catchment_loop_tiles _ _ _ _ _ _ _ (stations_put_station s st_a w0) Hloop)
    as (st_b' & Hsb & Hcount).
  rewrite put_station_put in Hloop, Hsb. rewrite stations_put_station in Hsb.
  injection Hsb as <-.
  rewrite Hloop. cbn [mbind Outcome_bind].
  unfold Station_Get. rewrite (pool_get_Some _ _ _ (stations_put_station _ _ _)).
  cbn [mbind Outcome_bind]. intros Hwalk.
  destruct (nearby_loop_towns _ _ _ _ _ Hwalk) as [Hm Ht].
  destruct (nearby_loop_station _ _ _ _ _ _ (stations_put_station _ _ _) Hwalk)
    as (st' & Hs' & Hn' & Hc').
  split; [done|]. exists st'. split; [done|]. split.
  - rewrite Hn', Hcount. cbn. lia.
  - intros t. rewrite Hc'. apply Ht.
Qed.

(** The branch of a station bound to an industry: the count, and the
    towns. *)
Lemma RecomputeCatchment_industry_effect w0 s st_arg i st0 w' :
  stations w0 !! s = Some st0 →
  RecomputeCatchment_industry w0 s st_arg i = Returns w' →
  tile_map w' = tile_map w0 ∧ towns w' = towns w0 ∧
  ∃ st', stations w' !! s = Some st' ∧
    station_tiles st' =
      Z.of_nat (length (List.filter (counted_tile (tile_map w0) s)
                          (TileArea_tiles (rect_area (rect st_arg))))).
Proof.
  intros Hs0. unfold RecomputeCatchment_industry, Industry_Get.
  destruct (pool_get (industries w0) i) as [ind|]; [|done]. cbn [mbind Outcome_bind].
  match goal with |- context [foldl ?f ?a ?l] => set (wb := foldl f a l) end.
  assert (Hwb : tile_map wb = tile_map w0 ∧ towns wb = towns w0 ∧
                is_Some (stations wb !! s)).
  { subst wb. apply (foldl_ind _ (fun _ w1 =>
      tile_map w1 = tile_map w0 ∧ towns w1 = towns w0 ∧ is_Some (stations w1 !! s))).
    - split; [done|]. split; [done|]. rewrite stations_upd_station_eq with (st := st0); eauto.
    - intros pre a w1 (Hm & Ht & [st1 Hs1]) _.
      destruct (_ && _); [|eauto].
      split; [done|]. split; [done|]. erewrite stations_upd_station_eq; eauto. }
  destruct Hwb as (Hmb & Htb & Hsb).
  match goal with |- context [for_each ?f ?l wb] =>
    destruct (for_each f l wb) as [wc|] eqn:Hloop end; [|done].
  cbn [mbind Outcome_bind].
  apply (for_each_inv _ (fun _ w1 =>
      tile_map w1 = tile_map w0 ∧ towns w1 = towns w0 ∧ is_Some (stations w1 !! s)))
    in Hloop.
  2:{ done. }
  2:{ intros pre a w1 w2 (Hm & Ht & [st1 Hs1]). unfold Station_Get.
      destruct (pool_get (stations w1) a); [|done]. cbn. intros [= <-].
      split; [done|]. split; [done|]. cbn. rewrite lookup_alter.
      case_decide; [subst; rewrite Hs1|rewrite Hs1]; eauto. }
  destruct Hloop as (Hmc & Htc & [st_c Hsc]).
  intros [= <-]. cbn [tile_map towns upd_station upd_industry with_stations with_industries].
  split; [done|]. split; [done|].
  eexists. split.
  { cbn. rewrite !lookup_alter_eq, Hsc. cbn. reflexivity. }
  cbn [station_tiles set_station_tiles].
  rewrite count_station_tiles_eq. cbn [tile_map upd_station upd_industry with_stations
    with_industries]. by rewrite Hmc.
Qed.

Lemma cleared_towns b s w t :
  towns (cleared b s w) !! t =
  (fun tn => if b then tn else mkTown (town_stations_near tn ∖ {[s]})) <$> towns w !! t.
Proof.
  unfold cleared. destruct b; cbn.
  - by destruct (towns w !! t).
  - by rewrite lookup_fmap.
Qed.

(** X13: on a station whose rect is not empty, [RecomputeCatchment] leaves
    in [station_tiles] the number of the tiles within the rect that are
    station tiles of this station; the loop of the general case and the loop
    of the case of a station bound to an industry count the same tiles. *)
Theorem RecomputeCatchment_station_tiles ca cfg w s b st :
  pools_valid w → stations w !! s = Some st → IsEmpty (rect st) = false →
  ∃ w' st', RecomputeCatchment ca cfg w s b = Returns w' ∧
    stations w' !! s = Some st' ∧
    station_tiles st' =
      Z.of_nat (length (List.filter (counted_tile (tile_map w) s)
                          (TileArea_tiles (rect_area (rect st))))).
Proof.
  intros Hv Hs He.
  destruct (RecomputeCatchment_recomputed ca cfg w s b Hv (mk_is_Some _ _ Hs))
    as (w' & Hret & _).
  exists w'. pose proof Hret as Hret'.
  rewrite (RecomputeCatchment_unfold ca cfg w s b st Hs), He in Hret'.
  destruct (cleared_props b s w st Hs) as (Hm0 & _ & _ & _ & _ & _ & Hst0 & _).
  assert (Hs0 : stations (cleared b s w) !! s = Some (set_industries_near ∅ st))
    by (rewrite Hst0; apply lookup_insert_eq).
  destruct (exclusive_industry cfg st) as [i0|].
  - destruct (RecomputeCatchment_industry_effect _ _ _ _ _ _ Hs0 Hret')
      as (_ & _ & st' & Hs' & Hn).
    exists st'. rewrite Hm0 in Hn. done.
  - destruct (RecomputeCatchment_tiles_effect _ _ _ _ _ _ _ Hs0 Hret')
      as (_ & st' & Hs' & Hn & _).
    exists st'. rewrite Hm0 in Hn. done.
Qed.

Lemma existsb_false {A} (f : A → bool) l :
  (∀ x, x ∈ l → f x = false) → existsb f l = false.
Proof.
  intros H. apply not_true_iff_false. intros (x & Hin%list_elem_of_In & Hf)%existsb_exists.
  rewrite (H x Hin) in Hf. done.
Qed.

(** The towns after [RecomputeCatchment]. *)
Lemma RecomputeCatchment_towns_inv ca cfg w s b st w' :
  pools_valid w → stations w !! s = Some st →
  RecomputeCatchment ca cfg w s b = Returns w' →
  ∃ st', stations w' !! s = Some st' ∧
    ∀ t, option_Forall2
           (fun tn tn' =>
              ∀ x, x ∈ town_stations_near tn' ↔
                   (x = s ∧ CatchmentCoversTown w' st' t = true) ∨
                   (x ∈ town_stations_near tn ∧ (b = true ∨ x ≠ s)))
           (towns w !! t) (towns w' !! t).
Proof.
  intros Hv Hs Hret.
  destruct (RecomputeCatchment_recomputed ca cfg w s b Hv (mk_is_Some _ _ Hs))
    as (w'' & Hret'' & Hrec).
  rewrite Hret in Hret''. injection Hret'' as <-.
  destruct (recomputed_station _ _ _ _ _ _ _ Hrec Hs) as (st' & Hs' & _ & Hcat & _).
  pose proof Hrec as (Hm & _).
  exists st'. split; [done|].
  rewrite (RecomputeCatchment_unfold ca cfg w s b st Hs) in Hret.
  destruct (cleared_props b s w st Hs) as (Hm0 & _ & _ & _ & _ & _ & Hst0 & _).
  assert (Hs0 : stations (cleared b s w) !! s = Some (set_industries_near ∅ st))
    by (rewrite Hst0; apply lookup_insert_eq).
  assert (Hbase : ∀ tn x,
            x ∈ town_stations_near (if b then tn else mkTown (town_stations_near tn ∖ {[s]}))
            ↔ x ∈ town_stations_near tn ∧ (b = true ∨ x ≠ s)).
  { intros tn x. destruct b; cbn.
    - tauto.
    - rewrite elem_of_difference, elem_of_singleton. split; [|intros [? [?|?]]; done].
      intros [? ?]. auto. }
  assert (Hnone : (∀ t, CatchmentCoversTown w' st' t = false) →
                  towns w' = towns (cleared b s w) →
                  ∀ t, option_Forall2
                         (fun tn tn' =>
                            ∀ x, x ∈ town_stations_near tn' ↔
                                 (x = s ∧ CatchmentCoversTown w' st' t = true) ∨
                                 (x ∈ town_stations_near tn ∧ (b = true ∨ x ≠ s)))
                         (towns w !! t) (towns w' !! t)).
  { intros Hno Ht t. rewrite Ht, cleared_towns.
    destruct (towns w !! t) as [tn|]; constructor.
    intros x. rewrite Hbase, Hno. split; [auto|]. intros [[_ ?]|?]; done. }
  destruct (IsEmpty (rect st)) eqn:He.
  { injection Hret as <-. apply Hnone; [|done].
    intros t. unfold CatchmentCoversTown. apply existsb_false.
    intros x Hx%elem_of_elements%Hcat. destruct Hx as (st1 & Hs1 & He1 & _). congruence. }
  destruct (exclusive_industry cfg st) as [i0|] eqn:Hx.
  - destruct (RecomputeCatchment_industry_effect _ _ _ _ _ _ Hs0 Hret) as (_ & Ht & _).
    apply Hnone; [|done].
    intros t. unfold CatchmentCoversTown. apply existsb_false.
    intros x Hin%elem_of_elements%Hcat. destruct Hin as (st1 & Hs1 & _ & H).
    rewrite Hs in Hs1. injection Hs1 as <-. rewrite Hx in H.
    destruct H as (ind & _ & _ & Hty & _). rewrite Hm.
    apply IsTileType_true in Hty. unfold IsTileType.
    rewrite bool_decide_eq_false_2; [done|]. rewrite Hty. done.
  - destruct (RecomputeCatchment_tiles_effect _ _ _ _ _ _ _ Hs0 Hret)
      as (_ & st1 & Hs1 & _ & Ht).
    rewrite Hs' in Hs1. injection Hs1 as <-.
    intros t. rewrite Ht, cleared_towns.
    destruct (towns w !! t) as [tn|]; constructor.
    intros x. unfold town_after, CatchmentCoversTown. rewrite Hm0, Hm.
    change (fun tile => IsTileType (tile_map w) tile MP_HOUSE &&
                        bool_decide (GetTownIndex (tile_map w) tile = t))
      with (house_of (tile_map w) t).
    destruct (existsb (house_of (tile_map w) t) (Bitmap_tiles (catchment_tiles st'))).
    + unfold add_station. cbn [town_stations_near].
      rewrite elem_of_union, elem_of_singleton, Hbase. tauto.
    + rewrite Hbase. split; [auto|]. intros [[_ ?]|?]; done.
Qed.

(** X14: the towns near a station.  After [RecomputeCatchment] the station
    is on the nearby list of a town exactly when [CatchmentCoversTown]
    holds of the town for the new catchment, or, if the call was told not to
    clear the nearby lists, when it was on the list before; the other
    stations on the list of a town stay as they are. *)
Theorem RecomputeCatchment_towns ca cfg w s b st :
  pools_valid w → stations w !! s = Some st →
  ∃ w' st', RecomputeCatchment ca cfg w s b = Returns w' ∧
    stations w' !! s = Some st' ∧
    ∀ t tn, towns w !! t = Some tn →
      ∃ tn', towns w' !! t = Some tn' ∧
        (∀ x, x ≠ s → x ∈ town_stations_near tn' ↔ x ∈ town_stations_near tn) ∧
        (s ∈ town_stations_near tn' ↔
         CatchmentCoversTown w' st' t = true ∨ (b = true ∧ s ∈ town_stations_near tn)).
Proof.
  intros Hv Hs.
  destruct (RecomputeCatchment_recomputed ca cfg w s b Hv (mk_is_Some _ _ Hs))
    as (w' & Hret & _).
  destruct (RecomputeCatchment_towns_inv ca cfg w s b st w' Hv Hs Hret) as (st' & Hs' & Ht).
  exists w', st'. split; [done|]. split; [done|].
  intros t tn Htn. specialize (Ht t). rewrite Htn in Ht.
  inversion Ht as [? tn' Hiff|]; subst. exists tn'. split; [done|]. split.
  - intros x Hne. rewrite Hiff. split; [intros [[? _]|[? _]]; done | auto].
  - rewrite Hiff. split.
    + intros [[_ ?]|[? [?|?]]]; auto; done.
    + intros [?|[? ?]]; auto.
Qed.

(** ** The nearby lists *)

(** X15: [RecomputeCatchment] without the flag is
    [RemoveFromAllNearbyLists] followed by [RecomputeCatchment] with the
    flag [no_clear_nearby_lists]. *)
Theorem RecomputeCatchment_clears_first ca cfg w s :
  RecomputeCatchment ca cfg w s false =
  RecomputeCatchment ca cfg (RemoveFromAllNearbyLists w s) s true.
Proof.
  unfold RecomputeCatchment, Station_Get.
  change (stations (RemoveFromAllNearbyLists w s)) with (stations w).
  destruct (pool_get (stations w) s) as [st|]; [|done].
  cbn [mbind Outcome_bind negb]. reflexivity.
Qed.

(** [RemoveFromAllNearbyLists] takes this station, and nothing else, off
    the nearby lists. *)
Lemma RemoveFromAllNearbyLists_spec w s :
  let w' := RemoveFromAllNearbyLists w s in
  stations w' = stations w ∧ tile_map w' = tile_map w ∧
  (∀ i, option_Forall2
          (fun ind ind' => static_industry ind' = static_industry ind ∧
             ∀ x, x ∈ stations_near ind' ↔ x ∈ stations_near ind ∧ x ≠ s)
          (industries w !! i) (industries w' !! i)) ∧
  (∀ t, option_Forall2
          (fun tn tn' =>
             ∀ x, x ∈ town_stations_near tn' ↔ x ∈ town_stations_near tn ∧ x ≠ s)
          (towns w !! t) (towns w' !! t)).
Proof.
  cbv zeta. split; [done|]. split; [done|]. split.
  - intros i. cbn. rewrite lookup_fmap. destruct (industries w !! i); constructor.
    split; [done|]. intros x. cbn. rewrite elem_of_difference, elem_of_singleton. done.
  - intros t. cbn. rewrite lookup_fmap. destruct (towns w !! t); constructor.
    intros x. cbn. rewrite elem_of_difference, elem_of_singleton. done.
Qed.


(** ** RecomputeCatchmentForAll *)

Lemma elem_of_Pool_Iterate {V} (p : gmap N V) k :
  k ∈ Pool_Iterate p ↔ is_Some (p !! k).
Proof.
  unfold Pool_Iterate. rewrite merge_sort_Permutation, elem_of_elements, elem_of_dom. done.
Qed.

Lemma NoDup_Pool_Iterate {V} (p : gmap N V) : NoDup (Pool_Iterate p).
Proof. unfold Pool_Iterate. rewrite merge_sort_Permutation. apply NoDup_elements. Qed.

Lemma same_static_refl w : same_static w w.
Proof. repeat split; done. Qed.

Lemma same_static_trans w1 w2 w3 :
  same_static w1 w2 → same_static w2 w3 → same_static w1 w3.
Proof.
  intros (Hm & Hx & Hy & Hst & Hind & Ht) (Hm' & Hx' & Hy' & Hst' & Hind' & Ht').
  repeat split; try congruence.
  - intros H. by apply Ht, Ht'.
  - intros H. by apply Ht', Ht.
Qed.

Lemma CatchmentCoversTown_ext w w' st st' t :
  tile_map w' = tile_map w → catchment_tiles st' = catchment_tiles st →
  CatchmentCoversTown w' st' t = CatchmentCoversTown w st t.
Proof. intros Hm Hc. unfold CatchmentCoversTown. by rewrite Hm, Hc. Qed.

(** One more station. *)
Lemma all_recomputed_step ca cfg w pre a w1 :
  a ∉ pre → is_Some (stations w !! a) →
  all_recomputed ca cfg w pre w1 →
  ∃ w1', RecomputeCatchment ca cfg w1 a true = Returns w1' ∧
         all_recomputed ca cfg w (pre ++ [a]) w1'.
Proof.
  intros Hfresh [sta0 Hsta0] (Hv & Hss & HA & HB & HC & HT & HK).
  destruct (same_static_station _ _ _ _ Hss Hsta0) as (sta & Hsta & _).
  destruct (RecomputeCatchment_recomputed ca cfg w1 a true Hv (mk_is_Some _ _ Hsta))
    as (w1' & Hret & Hrec).
  exists w1'. split; [done|].
  destruct (RecomputeCatchment_towns_inv ca cfg w1 a true sta w1' Hv Hsta Hret)
    as (sta' & Hsta' & Htowns).
  destruct (recomputed_station _ _ _ _ _ _ _ Hrec Hsta) as (sta'' & Hsta'' & _ & Hcat & Hnear).
  rewrite Hsta' in Hsta''. injection Hsta'' as <-.
  pose proof (recomputed_same_static _ _ _ _ _ _ Hrec) as Hss1.
  pose proof (recomputed_pools_valid _ _ _ _ _ _ Hrec (mk_is_Some _ _ Hsta) Hv) as Hv'.
  destruct Hrec as (Hm & _ & _ & _ & _ & _ & Hst & Hind).
  assert (Hother : ∀ x st', x ≠ a → stations w1' !! x = Some st' →
            ∃ st, stations w1 !! x = Some st ∧ catchment_tiles st' = catchment_tiles st ∧
                  ∀ i, i ∈ industries_near st' ↔
                       i ∈ industries_near st ∧
                       ¬ (is_exclusive cfg w1 a i ∧
                          ∃ ind, industries w1 !! i = Some ind ∧ x ∈ stations_near ind)).
  { intros x st' Hne Hx. specialize (Hst x). rewrite Hx in Hst.
    destruct (stations w1 !! x) as [st|]; inversion Hst as [? ? [_ H]|]; subst.
    rewrite decide_False in H by done. exists st. tauto. }
  assert (Hpre : ∀ x, x ∈ pre ++ [a] → x ≠ a → x ∈ pre).
  { intros x [?|Hx]%elem_of_app ?; [done|]. by apply list_elem_of_singleton in Hx. }
  split; [done|]. split; [by eapply same_static_trans|].
  split; [|split; [|split; [|split]]].
  - intros S st' i HSin HS Hin. destruct (decide (S = a)) as [->|Hne].
    + assert (st' = sta') as -> by congruence.
      apply Hnear in Hin. destruct (is_near_serves _ _ _ _ _ Hv Hin) as [Hserves [ind Hi]].
      specialize (Hind i). rewrite Hi in Hind.
      inversion Hind as [? ind' [_ Hsn]|]; subst. exists ind'. split; [done|].
      apply Hsn. by right.
    + destruct (Hother S st' Hne HS) as (st & HS0 & _ & Hn).
      apply Hn in Hin as [Hin Hno].
      destruct (HA S st i (Hpre S HSin Hne) HS0 Hin) as (ind & Hi & HSnear).
      specialize (Hind i). rewrite Hi in Hind.
      inversion Hind as [? ind' [_ Hsn]|]; subst. exists ind'. split; [done|].
      apply Hsn. left. split; [done|].
      intros Hex. apply Hno. split; [done|]. by exists ind.
  - intros i ind' x Hi' Hx. specialize (Hind i). rewrite Hi' in Hind.
    destruct (industries w1 !! i) as [ind|] eqn:Hi; inversion Hind as [? ? [_ Hsn]|]; subst.
    apply elem_of_app. apply Hsn in Hx as [[Hx _]|[-> _]].
    + left. by eapply HB.
    + right. by apply list_elem_of_singleton.
  - intros i ind' S Hi' HSin Hacc.
    specialize (Hind i). rewrite Hi' in Hind.
    destruct (industries w1 !! i) as [ind|] eqn:Hi; inversion Hind as [? ? [Hstat Hsn]|]; subst.
    assert (Hacc0 : accepts ind).
    { injection Hstat as _ _ Hac. unfold accepts in *. by rewrite <- Hac. }
    apply Hsn in HSin as [[HSin Hnex]|[-> Hserves]].
    + assert (Hne : S ≠ a).
      { intros ->. apply Hfresh. by eapply HB. }
      destruct (HC i ind S Hi HSin Hacc0) as (st & HS & Hin).
      specialize (Hst S). rewrite HS in Hst.
      inversion Hst as [? st' [_ H]|]; subst. rewrite decide_False in H by done.
      exists st'. split; [done|]. apply H. split; [done|]. by intros [? _].
    + exists sta'. split; [done|]. apply Hnear. by eapply serves_is_near.
  - intros t tn' x Htn'. specialize (Htowns t). rewrite Htn' in Htowns.
    destruct (towns w1 !! t) as [tn|] eqn:Htn; inversion Htowns as [? ? Hiff|]; subst.
    rewrite Hiff. split.
    + intros [[-> Hcov]|[Hx _]].
      * split; [apply elem_of_app; right; by apply list_elem_of_singleton|]. eauto.
      * apply (HT t tn x Htn) in Hx as (Hxpre & st & Hx & Hcov).
        split; [apply elem_of_app; by left|].
        assert (Hne : x ≠ a) by (intros ->; done).
        specialize (Hst x). rewrite Hx in Hst.
        inversion Hst as [? st' [_ H]|]; subst. rewrite decide_False in H by done.
        exists st'. split; [done|].
        rewrite (CatchmentCoversTown_ext w1 w1' st st' t); [done|done|tauto].
    + intros (Hxin & st' & Hx & Hcov). destruct (decide (x = a)) as [->|Hne].
      * left. split; [done|]. assert (st' = sta') as -> by congruence. done.
      * right. split; [|by left].
        destruct (Hother x st' Hne Hx) as (st & Hx0 & Hc & _).
        apply (HT t tn x Htn). split; [by apply Hpre|]. exists st. split; [done|].
        by rewrite <- (CatchmentCoversTown_ext w1 w1' st st' t).
  - intros S st' t HSin HS. destruct (decide (S = a)) as [->|Hne].
    + assert (st' = sta') as -> by congruence. rewrite Hcat. split.
      * apply in_catchment_static. by apply same_static_sym.
      * by apply in_catchment_static.
    + destruct (Hother S st' Hne HS) as (st & HS0 & Hc & _). rewrite Hc.
      by apply HK; [apply Hpre|].
Qed.

Lemma all_recomputed_start ca cfg w :
  pools_valid w →
  all_recomputed ca cfg w []
    (with_industries (set_stations_near ∅ <$> industries w)
       (with_towns ((fun _ => mkTown ∅) <$> towns w) w)).
Proof.
  intros (Hvh & Hvi & Hvs & Hvn). split; [|split; [|split; [|split; [|split; [|split]]]]].
  - repeat split; cbn.
    + intros t Ht. rewrite lookup_fmap. apply fmap_is_Some. by apply Hvh.
    + intros t Ht. rewrite lookup_fmap. apply fmap_is_Some. by apply Hvi.
    + intros s st i Hs Hl. rewrite lookup_fmap. apply fmap_is_Some. by eapply Hvs.
    + intros i ind s. rewrite lookup_fmap. intros (ind0 & _ & ->)%fmap_Some.
      cbn. intros []%not_elem_of_empty.
  - unfold same_static. cbn. split; [done|]. split; [done|]. split; [done|].
    split; [done|]. split.
    + intros i. rewrite lookup_fmap. by destruct (industries w !! i).
    + intros t. rewrite lookup_fmap. apply fmap_is_Some.
  - intros s st i []%elem_of_nil.
  - intros i ind x. cbn. rewrite lookup_fmap. intros (ind0 & _ & ->)%fmap_Some.
    cbn. intros []%not_elem_of_empty.
  - intros i ind s. cbn. rewrite lookup_fmap. intros (ind0 & _ & ->)%fmap_Some.
    cbn. intros []%not_elem_of_empty.
  - intros t tn x. cbn. rewrite lookup_fmap. intros (tn0 & _ & ->)%fmap_Some. cbn.
    split; [intros []%not_elem_of_empty | intros [[]%elem_of_nil _]].
  - intros s st t []%elem_of_nil.
Qed.

Lemma RecomputeCatchmentForAll_all ca cfg w :
  pools_valid w →
  ∃ w', RecomputeCatchmentForAll ca cfg w = Returns w' ∧
        all_recomputed ca cfg w (Pool_Iterate (stations w)) w'.
Proof.
  intros Hv. unfold RecomputeCatchmentForAll.
  cbn [stations with_industries with_towns].
  apply (for_each_ind_split _ (fun pre w1 => all_recomputed ca cfg w pre w1)).
  - exact (all_recomputed_start ca cfg w Hv).
  - intros pre a suf w1 Hl Hinv. apply all_recomputed_step; [| |done].
    + pose proof (NoDup_Pool_Iterate (stations w)) as Hnd. rewrite Hl in Hnd.
      apply NoDup_app in Hnd as (_ & Hnd & _). intros Hin. apply (Hnd a Hin).
      apply list_elem_of_here.
    + apply elem_of_Pool_Iterate. rewrite Hl. apply elem_of_app. right.
      apply list_elem_of_here.
Qed.


(** X18: after [RecomputeCatchmentForAll] a town has exactly those
    stations on its nearby list of which [CatchmentCoversTown] holds for the
    town: the stored lists agree with the test on the catchment. *)
Theorem RecomputeCatchmentForAll_towns ca cfg w :
  pools_valid w →
  ∃ w', RecomputeCatchmentForAll ca cfg w = Returns w' ∧
        (∀ t, is_Some (towns w' !! t) ↔ is_Some (towns w !! t)) ∧
        ∀ t tn x, towns w' !! t = Some tn →
                  x ∈ town_stations_near tn ↔
                  ∃ st, stations w' !! x = Some st ∧ CatchmentCoversTown w' st t = true.
Proof.
  intros Hv. destruct (RecomputeCatchmentForAll_all ca cfg w Hv)
    as (w' & Hret & _ & Hss & _ & _ & _ & HT & _).
  exists w'. split; [done|]. split; [by destruct Hss as (_ & _ & _ & _ & _ & ?)|].
  intros t tn x Htn. rewrite (HT t tn x Htn). split; [by intros [_ ?]|].
  intros (st & Hs & Hcov). split; [|eauto].
  apply elem_of_Pool_Iterate.
  destruct (same_static_station _ _ _ _ (same_static_sym _ _ Hss) Hs) as (? & ? & _). eauto.
Qed.

(** ** The teardown and the nearby lists *)

Lemma teardown_frame_refl this w :
  is_Some (stations w !! this) → nodes_valid w → teardown_frame this w w.
Proof. intros Hs Hv. repeat split; done. Qed.

Lemma teardown_frame_upd_station this s f w w1 :
  teardown_frame this w w1 → teardown_frame this w (upd_station s f w1).
Proof.
  intros (Hs & Hv & Hdom & Hi & Ht & Hm).
  assert (Hsome : ∀ x, is_Some (stations (upd_station s f w1) !! x) ↔
                       is_Some (stations w1 !! x)).
  { intros x. rewrite stations_upd_station. case_decide; [subst|done].
    apply fmap_is_Some. }
  split; [by apply Hsome|]. split.
  { intros g lg x Hg Hx. apply Hsome. by eapply Hv. }
  split; [intros x; by rewrite Hsome|]. done.
Qed.

Lemma destroy_node_loop_frame this c lg w w1 nodes :
  teardown_frame this w w1 →
  (∀ n, n ∈ nodes → ∃ x, lg_nodes lg !! n = Some x ∧ is_Some (stations w !! x)) →
  ∃ w2, for_each (destroy_node_step this c lg) nodes w1 = Returns w2 ∧
        teardown_frame this w w2 ∧ link_graphs w2 = link_graphs w1.
Proof.
  intros Hf Hnodes.
  apply (for_each_ind _ (fun _ w2 =>
    teardown_frame this w w2 ∧ link_graphs w2 = link_graphs w1)); [done|].
  intros pre n w2 [Hf2 Hg2] Hn. unfold destroy_node_step, Station_Get.
  pose proof Hf2 as ([me Hme] & _ & Hdom & _).
  rewrite (pool_get_Some _ _ _ Hme). cbn.
  destruct (Hnodes n Hn) as (x & -> & Hx). cbn.
  apply Hdom in Hx as [stx Hx]. rewrite (pool_get_Some _ _ _ Hx). cbn.
  case_bool_decide; eexists; (split; [reflexivity|]); unfold RerouteCargo;
    (split; [repeat apply teardown_frame_upd_station; done | done]).
Qed.

Lemma elem_of_delete_list {A} (l : list A) (i : nat) x : x ∈ delete i l → x ∈ l.
Proof.
  revert i. induction l as [|a l IH]; intros i; [by destruct i|].
  destruct i as [|i]; cbn.
  - apply list_elem_of_further.
  - intros [->|?]%elem_of_cons; [apply list_elem_of_here|].
    apply list_elem_of_further. by eapply IH.
Qed.

Lemma destroy_cargo_step_frame this w w1 c :
  teardown_frame this w w1 →
  ∃ w2, destroy_cargo_step this w1 c = Returns w2 ∧ teardown_frame this w w2.
Proof.
  intros Hf. pose proof Hf as ([me Hme] & Hv & Hdom & Hi & Ht & Hm).
  unfold destroy_cargo_step, Station_Get. rewrite (pool_get_Some _ _ _ Hme). cbn.
  destruct (link_graphs w1 !! ge_link_graph (goods me c)) as [lg|] eqn:Hlg; [|eauto].
  destruct (destroy_node_loop_frame this c lg w w1 (seq 0 (LinkGraph_Size lg)) Hf)
    as (w2 & -> & Hf2 & Hg2).
  { intros n Hn%elem_of_seq. destruct (lookup_lt_is_Some_2 (lg_nodes lg) n) as [x Hx].
    { unfold LinkGraph_Size in Hn. lia. }
    exists x. split; [done|]. apply Hdom. eapply Hv; [done|].
    by eapply list_elem_of_lookup_2. }
  cbn.
  destruct Hf2 as (Hs2 & Hv2 & Hdom2 & Hi2 & Ht2 & Hm2).
  set (lg' := LinkGraph_RemoveNode (ge_node (goods me c)) lg).
  set (graphs3 := alter (LinkGraph_RemoveNode (ge_node (goods me c)))
                    (ge_link_graph (goods me c)) (link_graphs w2)).
  assert (Hlg3 : graphs3 !! ge_link_graph (goods me c) = Some lg').
  { subst graphs3. rewrite lookup_alter_eq, Hg2, Hlg. done. }
  assert (Hv3 : ∀ g lg0 x, graphs3 !! g = Some lg0 → x ∈ lg_nodes lg0 →
                           is_Some (stations w2 !! x)).
  { intros g lg0 x Hg Hx. subst graphs3. rewrite lookup_alter in Hg.
    case_decide; [subst g|by eapply Hv2].
    rewrite Hg2, Hlg in Hg. injection Hg as <-.
    eapply Hv2; [by rewrite Hg2|]. cbn in Hx. by eapply elem_of_delete_list. }
  rewrite (pool_get_Some _ _ _ Hlg3). cbn.
  case_bool_decide; eexists; (split; [reflexivity|]).
  - split; [done|]. split; [|done].
    intros g lg0 x Hg Hx. cbn in Hg. apply lookup_delete_Some in Hg as [_ Hg].
    by eapply Hv3.
  - split; [done|]. split; [|done]. intros g lg0 x Hg Hx. by eapply Hv3.
Qed.

(** [Station::~Station] returns. *)
Lemma Station_destructor_frame NUM w this :
  is_Some (stations w !! this) → nodes_valid w →
  ∃ w1, for_each (destroy_cargo_step this) (seq 0 NUM) w = Returns w1 ∧
        teardown_frame this w w1.
Proof.
  intros Hs Hv. apply (for_each_ind _ (fun _ w1 => teardown_frame this w w1)).
  - by apply teardown_frame_refl.
  - intros pre c w1 Hf _. by apply destroy_cargo_step_frame.
Qed.

(** X19: the teardown of a station returns whenever the station is in the
    pool and every node of every link graph stands for a station of the
    pool.  Afterwards the station is gone from the pool and from the nearby
    list of every industry and town, the other stations are still in the
    pool, and the other entries of the nearby lists are as before. *)
Theorem Station_delete_unlists NUM w this :
  is_Some (stations w !! this) → nodes_valid w →
  ∃ w', Station_delete false NUM w this = Returns w' ∧
    stations w' !! this = None ∧
    (∀ x, x ≠ this → is_Some (stations w' !! x) ↔ is_Some (stations w !! x)) ∧
    (∀ i, option_Forall2
            (fun ind ind' => static_industry ind' = static_industry ind ∧
               ∀ x, x ∈ stations_near ind' ↔ x ∈ stations_near ind ∧ x ≠ this)
            (industries w !! i) (industries w' !! i)) ∧
    (∀ t, option_Forall2
            (fun tn tn' =>
               ∀ x, x ∈ town_stations_near tn' ↔ x ∈ town_stations_near tn ∧ x ≠ this)
            (towns w !! t) (towns w' !! t)).
Proof.
  intros Hs Hv.
  destruct (Station_destructor_frame NUM w this Hs Hv)
    as (w1 & Hret & _ & _ & Hdom & Hi & Ht & _).
  unfold Station_delete, Station_destructor. rewrite Hret. cbn [mbind Outcome_bind].
  eexists. split; [reflexivity|].
  destruct (RemoveFromAllNearbyLists_spec w1 this) as (Hst & _ & Hind & Htn).
  cbn [stations with_stations industries towns]. split; [apply lookup_delete_eq|].
  split; [|split].
  - intros x Hne. rewrite lookup_delete_ne by done.
    change (stations (RemoveFromAllNearbyLists w1 this)) with (stations w1). apply Hdom.
  - intros i. rewrite <- Hi. apply Hind.
  - intros t. rewrite <- Ht. apply Htn.
Qed.

(** While the pool is cleaned, the destructor leaves the world alone. *)
Lemma Station_delete_cleaning NUM w this :
  Station_delete true NUM w this = Returns (with_stations (delete this (stations w)) w).
Proof. reflexivity. Qed.

(** ** Docking tiles *)


(** Without a docking tile in range the answer is no, whatever the
    distances. *)
Lemma IsWithinRangeOfDockingTile_true dist cfg xy docks tile max_distance :
  IsWithinRangeOfDockingTile dist cfg xy docks tile max_distance = true →
  ∃ d, d ∈ docks ∧ dist d tile <= max_distance.
Proof.
  unfold IsWithinRangeOfDockingTile. destruct (_ >? _); [done|].
  intros (d & Hin%list_elem_of_In & Hd%Z.leb_le)%existsb_exists. eauto.
Qed.

(** ** The industries found by the tile search of the older station.cpp *)



(** ** Adding a tile and removing it again *)

(** The tight bounding box of the tiles of a station is unique. *)
Lemma settled_unique m sid r r' :
  settled m sid false r → settled m sid false r' → r = r'.
Proof.
  intros (Hall & _ & _ & (tl & Htl & Hxl) & (tr & Htr & Hxr)
          & (tt & Htt & Hyt) & (tb & Htb & Hyb))
         (Hall' & _ & _ & (tl' & Htl' & Hxl') & (tr' & Htr' & Hxr')
          & (tt' & Htt' & Hyt') & (tb' & Htb' & Hyb')).
  pose proof (Hall tl' Htl') as [? ?]. pose proof (Hall tr' Htr') as [? ?].
  pose proof (Hall tt' Htt') as [? ?]. pose proof (Hall tb' Htb') as [? ?].
  pose proof (Hall' tl Htl) as [? ?]. pose proof (Hall' tr Htr) as [? ?].
  pose proof (Hall' tt Htt) as [? ?]. pose proof (Hall' tb Htb) as [? ?].
  destruct r, r'. cbn in *. f_equal; lia.
Qed.

(** X22: adding a tile and removing it again.  If the rect is the tight
    bounding box of the tiles of the station and is not classified empty, a
    committing call of [BeforeAddTile] has stretched it for a tile, and the
    tile is not (or no longer) a tile of the station, then [AfterRemoveTile]
    at that tile returns [false] and the rect of before. *)
Theorem add_then_remove_restores cfg m sid r tile mode r1 :
  mode ≠ ADD_TEST → IsEmpty r = false → settled m sid false r →
  is_station_tile_of m sid tile = false →
  BeforeAddTile cfg r tile mode = Returns (CommandCost_ok, r1) →
  AfterRemoveTile m sid r1 tile = Some (false, r).
Proof.
  intros Hmode He Hset Hfree Hadd.
  apply BeforeAddTile_commit in Hadd; [|done]. rewrite He in Hadd. subst r1.
  pose proof Hset as (Hall & Hlr & Htb & (tl & Htl & Hxl) & (tr & Htr & Hxr)
                      & (tt & Htt & Hyt) & (tb & Htb' & Hyb)).
  assert (Hshr : shrinking m sid (cover r tile) (TileX tile) (TileY tile)).
  { unfold shrinking, cover. cbn [left top right bottom].
    split; [intros t Ho; destruct (Hall t Ho); unfold in_rect; cbn; lia|].
    split; [lia|]. split; [lia|]. split; [|split; [|split]].
    - destruct (Z.min_spec (TileX tile) (left r)) as [[_ ->]|[_ ->]];
        [by right | left; by exists tl].
    - destruct (Z.max_spec (TileX tile) (right r)) as [[_ ->]|[_ ->]];
        [left; by exists tr | by right].
    - destruct (Z.min_spec (TileY tile) (top r)) as [[_ ->]|[_ ->]];
        [by right | left; by exists tt].
    - destruct (Z.max_spec (TileY tile) (bottom r)) as [[_ ->]|[_ ->]];
        [left; by exists tb | by right]. }
  destruct (AfterRemoveTile_returns m sid (cover r tile) tile) as [[res r'] Hret].
  pose proof (AfterRemoveTile_loop_settled _ _ _ _ _ _ _ _ Hshr Hret) as Hset'.
  destruct res.
  - destruct Hset' as [_ Hnone]. by destruct (Hnone tl).
  - rewrite Hret. do 2 f_equal. by eapply settled_unique.
Qed.

(** ** The extended rect *)

(** X23: [PtInExtendedRect] measures the distance to the rect in the
    maximum norm: it holds exactly of the points whose distance to the rect
    along each axis is at most [distance], so that the point [distance]
    tiles beyond the southern corner along both axes is within the extended
    rect. *)
Theorem PtInExtendedRect_max_norm r x y d :
  0 <= d →
  (PtInExtendedRect r x y d = true ↔ rect_distance r x y <= d) ∧
  (left r <= right r → top r <= bottom r →
   PtInExtendedRect r (right r + d) (bottom r + d) d = true).
Proof.
  intros Hd. unfold PtInExtendedRect, rect_distance.
  rewrite !andb_true_iff, !Z.leb_le. lia.
Qed.

(** ** The radius bonus of the station *)

(** X24: the radius bonus is added to the radius of a station exactly
    when the radius without the bonus is not zero. *)
Theorem GetCatchmentRadius_bonus ca cfg st f b :
  radii_in_range ca (with_catchment_increase b cfg) (airport_catchment st) →
  GetCatchmentRadius ca (with_catchment_increase b cfg) st f =
  let r0 := GetCatchmentRadius ca (with_catchment_increase 0 cfg) st f in
  if r0 =? 0 then 0 else r0 + b.
Proof.
  intros (Hinc & Hbus & Htruck & Htrain & Hdock & Hun & Hair). cbn in Hinc.
  unfold GetCatchmentRadius. cbv zeta.
  cbn [modified_catchment catchment_increase with_catchment_increase].
  change (to_uint CA_NONE) with 0.
  set (r := if modified_catchment cfg then _ else _).
  assert (Hr : 0 <= r <= 255).
  { subst r. destruct (modified_catchment cfg).
    - destruct (max_if_bounds (bus_stops f) (CA_BUS ca) 0) as [B1 _]; [lia..|].
      set (r1 := max_if (bus_stops f) (CA_BUS ca) 0) in *.
      destruct (max_if_bounds (truck_stops f) (CA_TRUCK ca) r1) as [B2 _]; [lia..|].
      set (r2 := max_if (truck_stops f) (CA_TRUCK ca) r1) in *.
      destruct (max_if_bounds (train_station_tile f) (CA_TRAIN ca) r2) as [B3 _]; [lia..|].
      set (r3 := max_if (train_station_tile f) (CA_TRAIN ca) r2) in *.
      destruct (max_if_bounds (ship_station_tile f) (CA_DOCK ca) r3) as [B4 _]; [lia..|].
      set (r4 := max_if (ship_station_tile f) (CA_DOCK ca) r3) in *.
      destruct (max_if_bounds (airport_tile f) (airport_catchment st) r4) as [B5 _];
        [lia..|]. lia.
    - destruct (_ || _); [rewrite to_uint_small by lia|]; lia. }
  case_bool_decide as Hz.
  - rewrite Z.add_0_r, !to_uint_small by lia.
    destruct (Z.eqb_spec r 0); [lia|done].
  - by destruct (Z.eqb_spec r 0).
Qed.

(** ** The rect of a station in the states it can reach *)

(** X27: in every state reached through committing calls of
    [BeforeAddTile] and calls of [AfterRemoveTile], no tile with X
    coordinate 0 being added, a rect that is not classified empty is the
    tight bounding box of the tiles of the station: it holds them all, and
    each of its four edges holds one of them. *)
Theorem reachable_tight cfg sid s :
  reachable cfg sid (fun t => TileX t ≠ 0) s →
  IsEmpty (rs_rect s) = false →
  settled (rs_map s) sid false (rs_rect s).
Proof.
  intros [_ Hinv]%reachable_inv He. by rewrite He in Hinv.
Qed.

(** ** What [RecomputeCatchment] leaves alone *)


(** ** The older station.cpp *)

Lemma GetCatchmentRadius_old_range ca cfg st f :
  radii_in_range ca (with_catchment_increase 0 cfg) (airport_catchment st) →
  0 <= GetCatchmentRadius_old ca cfg st f <= 255.
Proof.
  intros (_ & Hbus & Htruck & Htrain & Hdock & Hun & Hair).
  unfold GetCatchmentRadius_old. cbv zeta. change (to_uint CA_NONE) with 0.
  destruct (modified_catchment cfg).
  - destruct (max_if_bounds (bus_stops f) (CA_BUS ca) 0) as [B1 _]; [lia..|].
    set (r1 := max_if (bus_stops f) (CA_BUS ca) 0) in *.
    destruct (max_if_bounds (truck_stops f) (CA_TRUCK ca) r1) as [B2 _]; [lia..|].
    set (r2 := max_if (truck_stops f) (CA_TRUCK ca) r1) in *.
    destruct (max_if_bounds (train_station_tile f) (CA_TRAIN ca) r2) as [B3 _]; [lia..|].
    set (r3 := max_if (train_station_tile f) (CA_TRAIN ca) r2) in *.
    destruct (max_if_bounds (ship_station_tile f) (CA_DOCK ca) r3) as [B4 _]; [lia..|].
    set (r4 := max_if (ship_station_tile f) (CA_DOCK ca) r3) in *.
    destruct (max_if_bounds (airport_tile f) (airport_catchment st) r4) as [B5 _];
      [lia..|]. lia.
  - destruct (_ || _); [rewrite to_uint_small by lia|]; lia.
Qed.

(** X26: the two versions of station.cpp agree.  With a radius bonus of
    zero [GetCatchmentRadius] gives the radius of the older
    [GetCatchmentRadius], and for a rect on the map
    [GetCatchmentRectUsingRadius] with that radius gives the rectangle of
    the older [GetCatchmentRect]. *)
Theorem GetCatchmentRect_old_agrees ca cfg w st f :
  radii_in_range ca (with_catchment_increase 0 cfg) (airport_catchment st) →
  GetCatchmentRadius ca (with_catchment_increase 0 cfg) st f =
    GetCatchmentRadius_old ca cfg st f ∧
  (IsEmpty (rect st) = false → rect_in_map w (rect st) →
   GetCatchmentRect_old ca cfg w st f =
   GetCatchmentRectUsingRadius w st
     (GetCatchmentRadius ca (with_catchment_increase 0 cfg) st f)).
Proof.
  intros Hr. pose proof (GetCatchmentRadius_old_range ca cfg st f Hr) as Hold.
  assert (Heq : GetCatchmentRadius ca (with_catchment_increase 0 cfg) st f =
                GetCatchmentRadius_old ca cfg st f).
  { revert Hold. unfold GetCatchmentRadius, GetCatchmentRadius_old. cbv zeta.
    cbn [modified_catchment catchment_increase with_catchment_increase].
    set (r := if modified_catchment cfg then _ else _). intros Hold.
    case_bool_decide; [|reflexivity]. rewrite Z.add_0_r. apply to_uint_small. lia. }
  split; [done|]. intros He Hmap. rewrite Heq.
  rewrite GetCatchmentRectUsingRadius_eq by (done || lia).
  unfold GetCatchmentRect_old. rewrite He. cbv zeta.
  destruct Hmap as (? & ? & ? & ? & ? & ?). unfold MapMaxX, MapMaxY in *.
  apply IsEmpty_false in He. rewrite !to_int_small by lia. done.
Qed.

(** ** The further examples *)

(** The only tile of a station on [ex_map] is the tile (10, 10). *)
Lemma ex_map_station_tile t :
  (IsTileType ex_map t MP_STATION || IsTileType ex_map t MP_TUNNELBRIDGE) = true →
  t = TileXY 10 10.
Proof.
  unfold IsTileType, ex_map. destruct (tile_is t 10 10) eqn:Ht.
  - intros _. unfold tile_is in Ht. apply andb_true_iff in Ht as [Hx%Z.eqb_eq Hy%Z.eqb_eq].
    destruct t as [x y]. cbn in *. by subst.
  - destruct (tile_is t 12 10); [|destruct (tile_is t 9 9)]; intros Hty; vm_compute in Hty;
      discriminate.
Qed.

Lemma ex_map_owned t : owned ex_map 1%N t → t = TileXY 10 10.
Proof.
  unfold owned, is_station_tile_of. intros [Hty _]%andb_true_iff.
  by apply ex_map_station_tile.
Qed.

(** The rect (10,10)-(10,10) is the tight bounding box of station 1 on
    [ex_map]. *)
Lemma ex_map_settled : settled ex_map 1%N false (mkRect 10 10 10 10).
Proof.
  assert (Ho : owned ex_map 1%N (TileXY 10 10)) by reflexivity.
  split; [intros t ->%ex_map_owned; unfold in_rect; cbn; lia|].
  split; [cbn; lia|]. split; [cbn; lia|].
  repeat split; by exists (TileXY 10 10).
Qed.

Lemma AfterRemoveTile_tight_witness :
  ∃ res r', AfterRemoveTile (SetTileContent ex_map (TileXY 10 10)
                               (mkTile MP_CLEAR 0 STATION_RAIL))
              1%N (mkRect 10 10 10 10) (TileXY 10 10) = Some (res, r') ∧
            settled (SetTileContent ex_map (TileXY 10 10) (mkTile MP_CLEAR 0 STATION_RAIL))
              1%N res r'.
Proof.
  apply (AfterRemoveTile_tight ex_map 1%N (mkRect 10 10 10 10) (TileXY 10 10)
           (mkTile MP_CLEAR 0 STATION_RAIL)); [exact ex_map_settled | reflexivity].
Defined.


Lemma add_then_remove_restores_witness :
  AfterRemoveTile ex_map 1%N (mkRect 10 10 12 11) (TileXY 12 11) =
    Some (false, mkRect 10 10 10 10).
Proof.
  apply (add_then_remove_restores ex_cfg ex_map 1%N (mkRect 10 10 10 10) (TileXY 12 11)
           ADD_TRY (mkRect 10 10 12 11));
    [discriminate | reflexivity | exact ex_map_settled | reflexivity | reflexivity].
Defined.

Lemma PtInExtendedRect_max_norm_witness :
  (PtInExtendedRect (mkRect 5 5 6 6) 8 8 2 = true ↔
   rect_distance (mkRect 5 5 6 6) 8 8 <= 2) ∧
  (left (mkRect 5 5 6 6) <= right (mkRect 5 5 6 6) →
   top (mkRect 5 5 6 6) <= bottom (mkRect 5 5 6 6) →
   PtInExtendedRect (mkRect 5 5 6 6) (right (mkRect 5 5 6 6) + 2)
     (bottom (mkRect 5 5 6 6) + 2) 2 = true).
Proof. apply (PtInExtendedRect_max_norm (mkRect 5 5 6 6) 8 8 2). lia. Defined.

Lemma GetCatchmentRadius_bounds_tile_witness :
  4 <= GetCatchmentRadius ex_ca ex_cfg ex_station ex_facilities.
Proof.
  apply (GetCatchmentRadius_bounds_tile ex_ca ex_cfg ex_map (TileXY 10 10) ex_station
           ex_facilities 4).
  - unfold radii_in_range. simpl. lia.
  - reflexivity.
  - vm_compute. discriminate.
  - reflexivity.
Defined.

Lemma GetCatchmentRadius_bonus_witness :
  GetCatchmentRadius ex_ca (with_catchment_increase 2 ex_cfg) ex_station ex_facilities =
  let r0 := GetCatchmentRadius ex_ca (with_catchment_increase 0 ex_cfg) ex_station
              ex_facilities in
  if r0 =? 0 then 0 else r0 + 2.
Proof.
  apply (GetCatchmentRadius_bonus ex_ca ex_cfg ex_station ex_facilities 2).
  unfold radii_in_range. simpl. lia.
Defined.

Lemma ex_rect_in_map : rect_in_map ex_world (rect ex_station).
Proof. unfold rect_in_map, MapMaxX, MapMaxY. simpl. lia. Qed.

Lemma GetCatchmentRectUsingRadius_in_map_witness :
  ∃ ret, GetCatchmentRectUsingRadius ex_world ex_station 4 = Returns ret ∧
         within (rect ex_station) ret ∧ rect_in_map ex_world ret ∧
         (∀ t, in_rect ret t ↔
               0 <= TileX t <= MapMaxX ex_world ∧ 0 <= TileY t <= MapMaxY ex_world ∧
               left (rect ex_station) - 4 <= TileX t <= right (rect ex_station) + 4 ∧
               top (rect ex_station) - 4 <= TileY t <= bottom (rect ex_station) + 4).
Proof.
  apply (GetCatchmentRectUsingRadius_in_map ex_world ex_station 4);
    [reflexivity | exact ex_rect_in_map | lia].
Defined.

Lemma ex_world_valid : pools_valid ex_world.
Proof. apply pools_valid_example; [done | by left]. Qed.

Lemma ex_world_station : stations ex_world !! (1%N : StationID) = Some ex_station.
Proof. vm_compute. reflexivity. Qed.


Lemma RecomputeCatchment_station_tiles_witness :
  ∃ w' st', RecomputeCatchment ex_ca ex_cfg ex_world 1%N false = Returns w' ∧
    stations w' !! 1%N = Some st' ∧
    station_tiles st' =
      Z.of_nat (length (List.filter (counted_tile (tile_map ex_world) 1%N)
                          (TileArea_tiles (rect_area (rect ex_station))))).
Proof.
  apply (RecomputeCatchment_station_tiles ex_ca ex_cfg ex_world 1%N false ex_station);
    [exact ex_world_valid | exact ex_world_station | reflexivity].
Defined.

Lemma RecomputeCatchment_towns_witness :
  ∃ w' st', RecomputeCatchment ex_ca ex_cfg ex_world 1%N false = Returns w' ∧
    stations w' !! 1%N = Some st' ∧
    ∀ t tn, towns ex_world !! t = Some tn →
      ∃ tn', towns w' !! t = Some tn' ∧
        (∀ x, x ≠ 1%N → x ∈ town_stations_near tn' ↔ x ∈ town_stations_near tn) ∧
        (1%N ∈ town_stations_near tn' ↔
         CatchmentCoversTown w' st' t = true ∨
         (false = true ∧ 1%N ∈ town_stations_near tn)).
Proof.
  apply (RecomputeCatchment_towns ex_ca ex_cfg ex_world 1%N false ex_station);
    [exact ex_world_valid | exact ex_world_station].
Defined.




Lemma RecomputeCatchmentForAll_towns_witness :
  ∃ w', RecomputeCatchmentForAll ex_ca ex_cfg ex_world = Returns w' ∧
        (∀ t, is_Some (towns w' !! t) ↔ is_Some (towns ex_world !! t)) ∧
        ∀ t tn x, towns w' !! t = Some tn →
                  x ∈ town_stations_near tn ↔
                  ∃ st, stations w' !! x = Some st ∧ CatchmentCoversTown w' st t = true.
Proof. apply (RecomputeCatchmentForAll_towns ex_ca ex_cfg ex_world ex_world_valid). Defined.

Lemma Station_delete_unlists_witness :
  ∃ w', Station_delete false 2 ex_world_listed 1%N = Returns w' ∧
    stations w' !! 1%N = None ∧
    (∀ x, x ≠ 1%N → is_Some (stations w' !! x) ↔ is_Some (stations ex_world_listed !! x)) ∧
    (∀ i, option_Forall2
            (fun ind ind' => static_industry ind' = static_industry ind ∧
               ∀ x, x ∈ stations_near ind' ↔ x ∈ stations_near ind ∧ x ≠ 1%N)
            (industries ex_world_listed !! i) (industries w' !! i)) ∧
    (∀ t, option_Forall2
            (fun tn tn' =>
               ∀ x, x ∈ town_stations_near tn' ↔ x ∈ town_stations_near tn ∧ x ≠ 1%N)
            (towns ex_world_listed !! t) (towns w' !! t)).
Proof.
  apply (Station_delete_unlists 2 ex_world_listed 1%N).
  - solve_is_Some.
  - intros g lg x Hg. vm_compute in Hg. discriminate.
Defined.





Lemma GetCatchmentRect_old_agrees_witness :
  GetCatchmentRadius ex_ca (with_catchment_increase 0 ex_cfg) ex_station ex_facilities =
    GetCatchmentRadius_old ex_ca ex_cfg ex_station ex_facilities ∧
  (IsEmpty (rect ex_station) = false → rect_in_map ex_world (rect ex_station) →
   GetCatchmentRect_old ex_ca ex_cfg ex_world ex_station ex_facilities =
   GetCatchmentRectUsingRadius ex_world ex_station
     (GetCatchmentRadius ex_ca (with_catchment_increase 0 ex_cfg) ex_station ex_facilities)).
Proof.
  apply (GetCatchmentRect_old_agrees ex_ca ex_cfg ex_world ex_station ex_facilities).
  unfold radii_in_range. simpl. lia.
Defined.

(** The state after the first tile (3, 4) of station 1 has been added. *)
Lemma reachable_tight_witness :
  settled (SetTileContent ex_clear_map (TileXY 3 4) (mkTile MP_STATION 1 STATION_RAIL))
    1%N false (mkRect 3 4 3 4).
Proof.
  apply (reachable_tight ex_cfg 1%N
           (mkRectState
              (SetTileContent ex_clear_map (TileXY 3 4) (mkTile MP_STATION 1 STATION_RAIL))
              (mkRect 3 4 3 4))).
  - eapply reach_step.
    + apply (reach_init ex_cfg 1%N (fun t => TileX t ≠ 0) ex_clear_map). reflexivity.
    + apply (step_add ex_cfg 1%N (fun t => TileX t ≠ 0) ex_clear_map MakeEmpty (TileXY 3 4)
               ADD_TRY (mkTile MP_STATION 1 STATION_RAIL) (mkRect 3 4 3 4));
        [simpl; lia | discriminate | reflexivity | reflexivity].
  - reflexivity.
Defined.
